(** * NetSuite RESTlet & SuiteQL node: a shallow embedding of [NetSuite.execute]

    The node turns per-item parameters into OAuth 1.0a signed HTTP requests
    and drives two pagination loops.  This development embeds the latest
    revision of [NetSuite.node.ts] (SuiteQL, Record, RESTlet call, RESTlet
    file upload) and states the properties of the signer, of the two
    pagination drivers, of the record and upload operations and of the
    item loop.

    Conventions of the embedding.
    - A JavaScript string is a [string]; each character stands for one
      UTF-16 code unit below 256.  Every string literal of the source is
      ASCII.
    - A JavaScript number is an integer a double holds, or [NaN], or an
      infinity; fractions are left out.  Sums are rounded as IEEE-754
      rounds them, and a number is turned into text as [Number::toString]
      does it.
    - Property lookup reads own properties only ([length] and the indices
      of arrays and strings included); an object is a finite map, so the
      order of its keys is not observed.
    - The host ([IExecuteFunctions], [crypto], [URL], [JSON], [Date]) is an
      interface: a type class whose instance is the environment the node
      runs in.  [while] loops take fuel. *)

From stdpp Require Import gmap strings list fin_maps pretty sorting.
From Stdlib Require Import ZArith Ascii Lia.

#[local] Set Warnings "-register-all".
#[local] Open Scope Z_scope.

(** ** JavaScript values *)

Inductive value : Type :=
  | VUndef
  | VNull
  | VBool (b : bool)
  | VNum (n : Z)
  | VStr (s : string)
  | VArr (l : list value)
  | VObj (m : gmap string value)
  | VNaN
  | VInf (negative : bool).

Inductive exn : Type :=
  | NodeOperationError (msg : string)
  | TypeError (msg : string)
  | HostError (msg : string).

(** [error.message] *)
Definition message (e : exn) : string :=
  match e with
  | NodeOperationError m | TypeError m | HostError m => m
  end.

Definition dquote : string := String "034"%char EmptyString.

Definition str1 (c : ascii) : string := String c EmptyString.

Definition join (sep : string) (l : list string) : string := String.concat sep l.

(** ** Numbers

    The sum of two doubles is the double nearest to their exact sum, the
    one with the even significand when two are as near; a sum of magnitude
    [2 ^ 1024] or more after rounding is infinite. *)

(** the integer with a 53-bit significand nearest to [z] *)
Definition round53 (z : Z) : Z :=
  let a := Z.abs z in
  if a <? 2 ^ 53 then z
  else
    let e := Z.log2 a - 52 in
    let q := Z.shiftr a e in
    let r := a - Z.shiftl q e in
    let half := Z.shiftl 1 (e - 1) in
    let q' := if (half <? r) || ((r =? half) && Z.odd q) then q + 1 else q in
    Z.sgn z * Z.shiftl q' e.

(** the integers up to which doubles leave no gap *)
Definition exact (z : Z) : bool := Z.abs z <=? 2 ^ 53.

(** the number an exact integer result becomes *)
Definition number (z : Z) : value :=
  let r := round53 z in
  if 2 ^ 1024 <=? Z.abs r then VInf (r <? 0) else VNum r.

(** of the two multiples of [10 ^ (d - k)] around [a], one that rounds to
    [a]: the nearer when both do, the one with the even digit when they are
    as near *)
Definition shorter (a d k : Z) : option Z :=
  let p := 10 ^ (d - k) in
  let lo := a / p * p in
  let hi := lo + p in
  let below := round53 lo =? a in
  let above := round53 hi =? a in
  if below && above then
    Some (if a - lo <? hi - a then lo
          else if hi - a <? a - lo then hi
          else if Z.even (a / p) then lo else hi)
  else if below then Some lo
  else if above then Some hi
  else None.

(** the decimal of fewest significant digits, [k] or more, that rounds to
    the [d]-digit number [a] *)
Fixpoint shortest (a d k : Z) (tries : nat) : Z :=
  match tries with
  | O => a
  | S tries' =>
      match shorter a d k with
      | Some c => c
      | None => shortest a d (k + 1) tries'
      end
  end.

Fixpoint strip_zeros (digits_reversed : list ascii) : list ascii :=
  match digits_reversed with
  | "0"%char :: rest => strip_zeros rest
  | _ => digits_reversed
  end.

(** [c] as [d.ddde+n] *)
Definition exponential (c : Z) : string :=
  let text := pretty c in
  let exponent := pretty (Z.of_nat (String.length text) - 1) in
  match rev (strip_zeros (rev (String.list_ascii_of_string text))) with
  | [] => text
  | [digit] => String digit ("e+" +:+ exponent)
  | digit :: digits =>
      String digit ("." +:+ String.string_of_list_ascii digits +:+ "e+" +:+ exponent)
  end.

(** [Number::toString] of a finite number: its shortest decimal, which
    below [2 ^ 53] is the number itself, written in full below [10 ^ 21]
    and in the exponential form from there *)
Definition number_to_string (n : Z) : string :=
  let a := Z.abs n in
  if a <? 2 ^ 53 then pretty n
  else
    let d := Z.of_nat (String.length (pretty a)) in
    let c := shortest a d 1 17 in
    (if n <? 0 then "-" else "")
    +:+ (if a <? 10 ^ 21 then pretty c else exponential c).

(** ToBoolean *)
Definition truthy (v : value) : bool :=
  match v with
  | VUndef | VNull | VNaN => false
  | VBool b => b
  | VNum n => negb (n =? 0)
  | VStr s => negb (String.eqb s "")
  | VArr _ | VObj _ | VInf _ => true
  end.

(** [a || b] and [a && b] *)
Definition js_or (a b : value) : value := if truthy a then a else b.
Definition js_and (a b : value) : value := if truthy a then b else a.

(** ToString *)
Fixpoint to_string (v : value) : string :=
  match v with
  | VUndef => "undefined"
  | VNull => "null"
  | VBool true => "true"
  | VBool false => "false"
  | VNum n => number_to_string n
  | VNaN => "NaN"
  | VInf false => "Infinity"
  | VInf true => "-Infinity"
  | VStr s => s
  | VArr l =>
      join "," (map (fun x => match x with
                              | VUndef | VNull => ""
                              | _ => to_string x
                              end) l)
  | VObj _ => "[object Object]"
  end.

(** the array index a property key denotes, if any *)
Definition index_of_key (n : nat) (k : string) : option nat :=
  List.find (fun i => bool_decide (pretty i = k)) (seq 0 n).

(** [v[k]] and [v.k]: reading a property of [undefined] or [null] throws *)
Definition get (v : value) (k : string) : exn + value :=
  match v with
  | VUndef | VNull =>
      inl (TypeError ("Cannot read properties of " +:+ to_string v
                        +:+ " (reading '" +:+ k +:+ "')"))
  | VObj m => inr (default VUndef (m !! k))
  | VArr l =>
      inr (if bool_decide (k = "length") then VNum (Z.of_nat (length l))
           else match index_of_key (length l) k with
                | Some i => default VUndef (l !! i)
                | None => VUndef
                end)
  | VStr s =>
      inr (if bool_decide (k = "length") then VNum (Z.of_nat (String.length s))
           else match index_of_key (String.length s) k with
                | Some i => match String.get i s with
                            | Some c => VStr (str1 c)
                            | None => VUndef
                            end
                | None => VUndef
                end)
  | VBool _ | VNum _ | VNaN | VInf _ => inr VUndef
  end.

(** [v === s] for a string literal [s] *)
Definition is_str (v : value) (s : string) : bool :=
  match v with
  | VStr t => bool_decide (t = s)
  | _ => false
  end.

(** [Array.isArray] *)
Definition isArray (v : value) : bool :=
  match v with
  | VArr _ => true
  | _ => false
  end.

(** the own enumerable properties an object spread [{...v}] copies *)
Definition spread (v : value) : gmap string value :=
  match v with
  | VObj m => m
  | VArr l => list_to_map (imap (fun i x => (pretty i, x)) l)
  | VStr s =>
      list_to_map (imap (fun i c => (pretty i, VStr (str1 c)))
                        (String.list_ascii_of_string s))
  | _ => ∅
  end.

(** [a.concat(b)]: [Array.prototype.concat] flattens an array argument and
    appends any other value; [String.prototype.concat] appends ToString;
    other receivers have no [concat] *)
Definition js_concat (a b : value) : exn + value :=
  match a with
  | VArr l => inr (VArr (l ++ match b with
                              | VArr l2 => l2
                              | _ => [b]
                              end))
  | VStr s => inr (VStr (s +:+ to_string b))
  | _ => inl (TypeError "allItems.concat is not a function")
  end.

(** [a.length] for a truthy [a] *)
Definition js_length (a : value) : value :=
  match get a "length" with
  | inr v => v
  | inl _ => VUndef
  end.

(** [a + n] for a finite number [n]: the rounded sum when [a] is a number,
    a boolean or [null], [NaN] when [a] is [undefined] or [NaN], [a] when
    it is an infinity, and the two texts joined when [a] is a string, an
    array or an object *)
Definition js_plus (a : value) (n : Z) : value :=
  match a with
  | VNum m => number (m + n)
  | VBool b => number ((if b then 1 else 0) + n)
  | VNull => number (0 + n)
  | VUndef | VNaN => VNaN
  | VInf negative => VInf negative
  | VStr _ | VArr _ | VObj _ => VStr (to_string a +:+ number_to_string n)
  end.

(** ** Percent encoding *)

Definition hex_upper (i : Z) : string :=
  match String.get (Z.to_nat i) "0123456789ABCDEF" with
  | Some c => str1 c
  | None => ""
  end.

Definition pct (b : Z) : string :=
  "%" +:+ hex_upper (Z.shiftr b 4) +:+ hex_upper (Z.land b 15).

Definition code (c : ascii) : Z := Z.of_N (N_of_ascii c).

Definition is_alnum (n : Z) : bool :=
  ((48 <=? n) && (n <=? 57)) || ((65 <=? n) && (n <=? 90))
  || ((97 <=? n) && (n <=? 122)).

(** the characters [encodeURIComponent] leaves alone:
    [A-Z a-z 0-9 - _ . ! ~ * ' ( )] *)
Definition uriUnescaped (n : Z) : bool :=
  is_alnum n
  || bool_decide (n ∈ [45; 95; 46; 33; 126; 42; 39; 40; 41]).

(** the unreserved characters of RFC 3986: [A-Z a-z 0-9 - . _ ~] *)
Definition rfc3986_unreserved (n : Z) : bool :=
  is_alnum n || bool_decide (n ∈ [45; 46; 95; 126]).

(** the UTF-8 bytes of a code unit below 256 *)
Definition utf8 (n : Z) : list Z :=
  if n <? 128 then [n]
  else [Z.lor 0xC0 (Z.shiftr n 6); Z.lor 0x80 (Z.land n 0x3F)].

Definition escape_with (keep : Z -> bool) (c : ascii) : string :=
  if keep (code c) then str1 c
  else join "" (map pct (utf8 (code c))).

Fixpoint encode_with (keep : Z -> bool) (s : string) : string :=
  match s with
  | EmptyString => EmptyString
  | String c rest => escape_with keep c +:+ encode_with keep rest
  end.

(** [encodeURIComponent(s)] *)
Definition encodeURIComponent (s : string) : string :=
  encode_with uriUnescaped s.

(** percent encoding per RFC 3986, as the specification words it *)
Definition percentEncode_rfc3986 (s : string) : string :=
  encode_with rfc3986_unreserved s.

(** ** The host interface

    What [execute] consumes from its surroundings: the request helper of
    n8n, the binary-data helper, and the [Date], [crypto], [URL] and [JSON]
    built-ins of the runtime. *)

Record RequestOptions := {
  headers : list (string * string);
  method : value;
  body : value;
  url : value;
  qs : list (string * string);
  json : bool;
  resolveWithFullResponse : bool;
}.

(** the parts of [new URL(href)] the node reads *)
Record URL := {
  protocol : string;
  host : string;
  pathname : string;
  searchParams : list (string * string);
}.

(** an element of [returnData] *)
Record INodeExecutionData := {
  out_json : value;
  pairedItem : nat;
}.

Class Host := {
  env : Type;
  (** [this.helpers.request(options)]: the response, or a thrown error *)
  helpers_request : RequestOptions -> env -> (exn + value) * env;
  (** [this.helpers.getBinaryDataBuffer(i, name)] *)
  helpers_getBinaryDataBuffer : nat -> string -> env -> (exn + list Z) * env;
  (** [this.helpers.returnJsonArray(returnData)] *)
  helpers_returnJsonArray : list INodeExecutionData -> list INodeExecutionData;
  (** [Date.now()], in milliseconds *)
  Date_now : env -> Z * env;
  (** [crypto.randomBytes(n).toString('hex')] *)
  crypto_randomBytes_hex : nat -> env -> string * env;
  (** [crypto.createHmac('sha256', key).update(data).digest('base64')] *)
  crypto_hmac_sha256_base64 : string -> string -> string;
  (** [buffer.toString('base64')] *)
  Buffer_base64 : list Z -> string;
  (** [new URL(s)]; [None] when the constructor throws *)
  URL_parse : string -> option URL;
  (** [JSON.parse(s)]; [inl] carries the text of the thrown error *)
  JSON_parse : string -> string + value;
}.

(** ** Node data *)

Record Credentials := {
  accountId : string;
  companyUrl : string;
  restletCompanyUrl : option string;
  consumerKey : string;
  consumerSecret : string;
  tokenKey : string;
  tokenSecret : string;
}.

(** the values [this.getNodeParameter(name, i, default)] yields for item [i] *)
Record Parameters := {
  operation : string;
  query : string;
  returnAll : bool;
  limit : Z;
  recordType : string;
  recordId : string;
  recordBody : value;
  targetRecordType : string;
  scriptId : string;
  deployId : string;
  restletBody : value;
  pageSize : Z;
  startIndexField : string;
  endIndexField : string;
  outputFieldName : string;
  uploadScriptId : string;
  uploadDeploymentId : string;
  folderId : string;
  fileName : string;
}.

(** an input item: its [binary] property, when it has one *)
Record InputItem := {
  binary : option (gmap string value);
}.

(** ** The execution monad: state, exceptions and fuel *)

Inductive result (A : Type) : Type :=
  | Ok (a : A)
  | Throw (e : exn)
  | OutOfFuel.
Arguments Ok {A} a.
Arguments Throw {A} e.
Arguments OutOfFuel {A}.

Section Execute.
Context `{H : Host}.

(** [calls] is the record a spy on [helpers.request] keeps: every request
    with its outcome, oldest first *)
Record World := {
  world_env : env;
  calls : list (RequestOptions * (exn + value));
  returnData : list INodeExecutionData;
}.

Definition M (A : Type) : Type := World -> result A * World.

Definition ret {A} (a : A) : M A := fun w => (Ok a, w).

Definition bind {A B} (m : M A) (k : A -> M B) : M B :=
  fun w => match m w with
           | (Ok a, w') => k a w'
           | (Throw e, w') => (Throw e, w')
           | (OutOfFuel, w') => (OutOfFuel, w')
           end.

Definition throw {A} (e : exn) : M A := fun w => (Throw e, w).

Definition diverge {A} : M A := fun w => (OutOfFuel, w).

Definition lift {A} (r : exn + A) : M A :=
  match r with
  | inl e => throw e
  | inr a => ret a
  end.

Notation "'let*' x ':=' m 'in' k" := (bind m (fun x => k))
  (at level 10, x pattern, m at level 100, k at level 200).
Notation "m '>>' k" := (bind m (fun _ => k))
  (at level 100, k at level 200, right associativity).

(** [await this.helpers.request(options)] *)
Definition request (options : RequestOptions) : M value :=
  fun w =>
    let '(r, e') := helpers_request options (world_env w) in
    let w' := {| world_env := e';
                 calls := calls w ++ [(options, r)];
                 returnData := returnData w |} in
    match r with
    | inl e => (Throw e, w')
    | inr v => (Ok v, w')
    end.

(** [returnData.push({ json, pairedItem: { item: i } })] *)
Definition push (j : value) (i : nat) : M unit :=
  fun w => (Ok tt, {| world_env := world_env w;
                      calls := calls w;
                      returnData := returnData w
                                      ++ [{| out_json := j; pairedItem := i |}] |}).

(** [Math.floor(Date.now() / 1000).toString()] *)
Definition timestamp_now : M string :=
  fun w =>
    let '(ms, e') := Date_now (world_env w) in
    (Ok (pretty (ms / 1000)),
     {| world_env := e'; calls := calls w; returnData := returnData w |}).

(** [crypto.randomBytes(16).toString('hex')] *)
Definition nonce_new : M string :=
  fun w =>
    let '(s, e') := crypto_randomBytes_hex 16 (world_env w) in
    (Ok s, {| world_env := e'; calls := calls w; returnData := returnData w |}).

Definition getBinaryDataBuffer (i : nat) (name : string) : M (list Z) :=
  fun w =>
    let '(r, e') := helpers_getBinaryDataBuffer i name (world_env w) in
    let w' := {| world_env := e'; calls := calls w; returnData := returnData w |} in
    match r with
    | inl e => (Throw e, w')
    | inr b => (Ok b, w')
    end.

(** ** OAuth 1.0a signing

    The source repeats this block before every request; the occurrences
    differ in the method, the base URL and the parameters added to the six
    protocol parameters. *)

Definition oauthParams (c : Credentials) (timestamp nonce : string)
  : gmap string string :=
  list_to_map
    [("oauth_consumer_key", consumerKey c);
     ("oauth_token", tokenKey c);
     ("oauth_signature_method", "HMAC-SHA256");
     ("oauth_timestamp", timestamp);
     ("oauth_nonce", nonce);
     ("oauth_version", "1.0")].

(** [allParams]: the protocol parameters, then each of [extra] written over
    them in turn, as [{ ...oauthParams, script, deploy }] and
    [searchParams.forEach((value, key) => { allParams[key] = value })] do.
    Writing a text under the key [__proto__] of a plain object leaves the
    object as it was. *)
Definition merged_params (c : Credentials) (timestamp nonce : string)
    (extra : list (string * string)) : gmap string string :=
  fold_left (fun m kv => if String.eqb kv.1 "__proto__" then m else <[kv.1 := kv.2]> m)
            extra (oauthParams c timestamp nonce).

(** the order of [Array.prototype.sort()] on strings: by code unit *)
Definition string_le (s t : string) : Prop := String.leb s t = true.

#[export] Instance string_le_dec s t : Decision (string_le s t).
Proof. unfold string_le. apply _. Defined.

(** [Object.keys(allParams).sort()] *)
Definition sorted_keys (allParams : gmap string string) : list string :=
  merge_sort string_le (map fst (map_to_list allParams)).

(** [Object.keys(allParams).sort().map(key => `${encodeURIComponent(key)}=${encodeURIComponent(allParams[key])}`).join('&')] *)
Definition sortedParams (allParams : gmap string string) : string :=
  join "&"
    (map (fun key => encodeURIComponent key +:+ "="
                       +:+ encodeURIComponent (default "undefined" (allParams !! key)))
         (sorted_keys allParams)).

Definition baseString (method baseUrl : string) (allParams : gmap string string)
  : string :=
  method +:+ "&" +:+ encodeURIComponent baseUrl
         +:+ "&" +:+ encodeURIComponent (sortedParams allParams).

Definition signingKey (c : Credentials) : string :=
  encodeURIComponent (consumerSecret c) +:+ "&" +:+ encodeURIComponent (tokenSecret c).

Definition signature (c : Credentials) (method baseUrl : string)
    (allParams : gmap string string) : string :=
  crypto_hmac_sha256_base64 (signingKey c) (baseString method baseUrl allParams).

Definition authHeader (c : Credentials) (timestamp nonce signature : string)
  : string :=
  "OAuth realm=" +:+ dquote +:+ accountId c +:+ dquote +:+ ","
  +:+ "oauth_consumer_key=" +:+ dquote +:+ consumerKey c +:+ dquote +:+ ","
  +:+ "oauth_token=" +:+ dquote +:+ tokenKey c +:+ dquote +:+ ","
  +:+ "oauth_signature_method=" +:+ dquote +:+ "HMAC-SHA256" +:+ dquote +:+ ","
  +:+ "oauth_timestamp=" +:+ dquote +:+ timestamp +:+ dquote +:+ ","
  +:+ "oauth_nonce=" +:+ dquote +:+ nonce +:+ dquote +:+ ","
  +:+ "oauth_version=" +:+ dquote +:+ "1.0" +:+ dquote +:+ ","
  +:+ "oauth_signature=" +:+ dquote +:+ encodeURIComponent signature +:+ dquote.

(** a fresh timestamp and nonce, then the header; [extra] are the
    parameters written into [allParams] after the protocol ones *)
Definition sign (c : Credentials) (method baseUrl : string)
    (extra : list (string * string)) : M string :=
  let* timestamp := timestamp_now in
  let* nonce := nonce_new in
  let allParams := merged_params c timestamp nonce extra in
  ret (authHeader c timestamp nonce (signature c method baseUrl allParams)).

(** ** SuiteQL *)

Definition json_headers (authHeader : string) (prefer : bool)
  : list (string * string) :=
  [("Authorization", authHeader); ("Content-Type", "application/json")]
  ++ (if prefer then [("Prefer", "transient")] else []).

(** [links.find((link) => link.rel === 'next')] on the elements of an array *)
Fixpoint find_next (links : list value) : exn + value :=
  match links with
  | [] => inr VUndef
  | link :: rest =>
      match get link "rel" with
      | inl e => inl e
      | inr rel => if is_str rel "next" then inr link else find_next rest
      end
  end.

(** [response.links.find(...)]: only arrays have [find] *)
Definition links_find_next (links : value) : exn + value :=
  match links with
  | VArr l => find_next l
  | _ => inl (TypeError "response.links.find is not a function")
  end.

(** [response.hasMore && response.links] *)
Definition hasMore_and_links (response : value) : M value :=
  let* hasMore := lift (get response "hasMore") in
  if truthy hasMore then lift (get response "links") else ret hasMore.

(** the [while (response.hasMore && response.links)] loop; it returns the
    final [response] and [allItems].  Each request takes one unit of fuel. *)
Fixpoint suiteql_loop (fuel : nat) (c : Credentials) (body : value)
    (response allItems : value) : M (value * value) :=
  let* cond := hasMore_and_links response in
  if truthy cond then
    let* nextLink := lift (links_find_next cond) in
    if negb (truthy nextLink) then ret (response, allItems)
    else
      let* nextUrl := lift (get nextLink "href") in
      match URL_parse (to_string nextUrl) with
      | None => throw (TypeError "Invalid URL")
      | Some urlObj =>
          let baseUrl :=
            protocol urlObj +:+ "//" +:+ host urlObj +:+ pathname urlObj in
          match fuel with
          | O => diverge
          | S fuel' =>
              let* authHeader := sign c "POST" baseUrl (searchParams urlObj) in
              let nextOptions :=
                {| headers := json_headers authHeader true;
                   method := VStr "POST";
                   body := body;
                   url := nextUrl;
                   qs := [];
                   json := true;
                   resolveWithFullResponse := false |} in
              let* response' := request nextOptions in
              let* items := lift (get response' "items") in
              let* allItems' :=
                (if truthy items then lift (js_concat allItems items)
                 else ret allItems) in
              suiteql_loop fuel' c body response' allItems'
          end
      end
  else ret (response, allItems).

(** the combined response [{...response, items, count, hasMore: false}] *)
Definition combined (response allItems : value) : value :=
  VObj (<["hasMore" := VBool false]>
          (<["count" := js_length allItems]>
             (<["items" := allItems]> (spread response)))).

Definition suiteql (fuel : nat) (c : Credentials) (p : Parameters) (i : nat)
  : M unit :=
  let baseUrl := "https://" +:+ companyUrl c +:+ "/services/rest/query/v1/suiteql" in
  let queryUrl :=
    if returnAll p then baseUrl else baseUrl +:+ "?limit=" +:+ pretty (limit p) in
  let body := VObj {[ "q" := VStr (query p) ]} in
  let* authHeader :=
    sign c "POST" baseUrl
         (if returnAll p then [] else [("limit", pretty (limit p))]) in
  let options :=
    {| headers := json_headers authHeader true;
       method := VStr "POST";
       body := body;
       url := VStr queryUrl;
       qs := [];
       json := true;
       resolveWithFullResponse := false |} in
  let* response := request options in
  let* items := lift (get response "items") in
  let allItems := js_or items (VArr []) in
  let* paginate :=
    (if returnAll p
     then let* hasMore := lift (get response "hasMore") in ret (truthy hasMore)
     else ret false) in
  let* final :=
    (if paginate : bool then suiteql_loop fuel c body response allItems
     else ret (response, allItems)) in
  push (combined final.1 final.2) i.

(** ** Record *)

Definition includes (l : list string) (s : string) : bool := bool_decide (s ∈ l).

Definition idOperations : list string :=
  ["get"; "update"; "patch"; "post"; "transform"].

Definition methodMap (operation : string) : value :=
  if String.eqb operation "get" then VStr "GET"
  else if String.eqb operation "create" then VStr "POST"
  else if String.eqb operation "update" then VStr "PUT"
  else if String.eqb operation "patch" then VStr "PATCH"
  else if String.eqb operation "post" then VStr "POST"
  else if String.eqb operation "transform" then VStr "POST"
  else VUndef.

(** the pieces of [s] between occurrences of [sep], as [s.split(sep)] *)
Fixpoint split_on (sep : ascii) (s : string) : list string :=
  match s with
  | EmptyString => [EmptyString]
  | String ch rest =>
      if Ascii.eqb ch sep then EmptyString :: split_on sep rest
      else match split_on sep rest with
           | [] => [str1 ch]
           | piece :: pieces => String ch piece :: pieces
           end
  end.

(** group 1 of [location.match(/\/([^\/]+)$/)]: the non-empty text after
    the last slash *)
Definition idMatch (location : string) : option string :=
  match rev (split_on "/"%char location) with
  | seg :: _ :: _ => if String.eqb seg "" then None else Some seg
  | _ => None
  end.

Definition record (c : Credentials) (p : Parameters) (i : nat) : M unit :=
  let url0 := "https://" +:+ companyUrl c +:+ "/services/rest/record/v1/"
                +:+ recordType p in
  let url1 :=
    if includes idOperations (operation p) && negb (String.eqb (recordId p) "")
    then url0 +:+ "/" +:+ recordId p else url0 in
  let url2 :=
    if String.eqb (operation p) "transform"
    then url1 +:+ "/!transform/" +:+ targetRecordType p else url1 in
  let requestData_method := methodMap (operation p) in
  let requestData_body :=
    if includes ["get"] (operation p) then VUndef else recordBody p in
  if String.eqb (recordId p) "" && includes idOperations (operation p)
  then throw (NodeOperationError "Record ID is required for this operation.")
  else
    let* authHeader := sign c (to_string requestData_method) url2 [] in
    let options :=
      {| headers := json_headers authHeader true;
         method := requestData_method;
         body := requestData_body;
         url := VStr url2;
         qs := [];
         json := true;
         resolveWithFullResponse := true |} in
    let* response := request options in
    let* rbody := lift (get response "body") in
    let responseData := js_or rbody (VObj ∅) in
    let* location :=
      (if String.eqb (operation p) "create"
       then let* hdrs := lift (get response "headers") in
            if truthy hdrs then lift (get hdrs "location") else ret hdrs
       else ret (VBool false)) in
    if truthy location then
      match location with
      | VStr loc =>
          match idMatch loc with
          | Some id =>
              push (VObj (<["location" := VStr loc]>
                            (<["id" := VStr id]> (spread responseData)))) i
          | None => push responseData i
          end
      | _ => throw (TypeError "location.match is not a function")
      end
    else push responseData i.

(** ** RESTlet *)

(** [restletCompanyUrl || companyUrl] *)
Definition restletBaseUrl (c : Credentials) : string :=
  match restletCompanyUrl c with
  | Some u => if String.eqb u "" then companyUrl c else u
  | None => companyUrl c
  end.

Definition possibleFields : list string := ["results"; "data"; "items"; "records"].

(** [for (const field of possibleFields) if (field in response && Array.isArray(response[field])) { results = response[field]; break; }] *)
Fixpoint scan_fields (response : gmap string value) (fields : list string)
  : option (list value) :=
  match fields with
  | [] => None
  | field :: rest =>
      match response !! field with
      | Some (VArr results) => Some results
      | _ => scan_fields response rest
      end
  end.

(** the [results] of a page, or [None] where the source pushes the raw
    response and leaves the loop *)
Definition page_results (response : value) : option (list value) :=
  match response with
  | VArr results => Some results
  | VObj m => scan_fields m possibleFields
  | _ => None
  end.

Definition paginatedBody (p : Parameters) (parsedBody currentStart : value)
  : value :=
  VObj (<[endIndexField p := js_plus currentStart (pageSize p)]>
          (<[startIndexField p := currentStart]> (spread parsedBody))).

Definition restletUrl (c : Credentials) (p : Parameters) : string :=
  "https://" +:+ restletBaseUrl c +:+ "/app/site/hosting/restlet.nl?script="
    +:+ scriptId p +:+ "&deploy=" +:+ deployId p.

Definition restlet_options (c : Credentials) (p : Parameters) (authHeader : string)
    (body : value) : RequestOptions :=
  {| headers := json_headers authHeader false;
     method := VStr "POST";
     body := body;
     url := VStr (restletUrl c p);
     qs := [];
     json := true;
     resolveWithFullResponse := false |}.

Definition restlet_sign (c : Credentials) (p : Parameters) : M string :=
  sign c "POST" ("https://" +:+ restletBaseUrl c +:+ "/app/site/hosting/restlet.nl")
       [("script", scriptId p); ("deploy", deployId p)].

(** the [while (hasMore)] loop; it returns the final [allResults].  Each
    request takes one unit of fuel. *)
Fixpoint restlet_loop (fuel : nat) (c : Credentials) (p : Parameters) (i : nat)
    (parsedBody : value) (allResults : list value) (currentStart : value)
  : M (list value) :=
  match fuel with
  | O => diverge
  | S fuel' =>
      let* authHeader := restlet_sign c p in
      let* response :=
        request (restlet_options c p authHeader (paginatedBody p parsedBody currentStart)) in
      match page_results response with
      | None => push response i >> ret allResults
      | Some results =>
          if 0 <? Z.of_nat (length results) then
            let allResults' := allResults ++ results in
            let currentStart' := js_plus currentStart (pageSize p) in
            if Z.of_nat (length results) <? pageSize p then ret allResults'
            else restlet_loop fuel' c p i parsedBody allResults' currentStart'
          else ret allResults
      end
  end.

(** [if (allResults.length > 0) returnData.push({ json: { [outputFieldName]: allResults, total: allResults.length }, ... })] *)
Definition push_aggregate (p : Parameters) (i : nat) (allResults : list value)
  : M unit :=
  if 0 <? Z.of_nat (length allResults) then
    push (VObj (<["total" := VNum (Z.of_nat (length allResults))]>
                  (<[outputFieldName p := VArr allResults]> ∅))) i
  else ret tt.

Definition restlet_paginate (fuel : nat) (c : Credentials) (p : Parameters)
    (i : nat) (parsedBody : value) (allResults : list value) (currentStart : value)
  : M unit :=
  let* allResults' := restlet_loop fuel c p i parsedBody allResults currentStart in
  push_aggregate p i allResults'.

Definition restlet_call (fuel : nat) (c : Credentials) (p : Parameters) (i : nat)
  : M unit :=
  let* parsedBody :=
    (match restletBody p with
     | VStr text =>
         match JSON_parse text with
         | inl parseError =>
             throw (NodeOperationError ("Invalid JSON in RESTlet body: " +:+ parseError))
         | inr v => ret v
         end
     | v => ret v
     end) in
  if returnAll p then
    let* start := lift (get parsedBody (startIndexField p)) in
    restlet_paginate fuel c p i parsedBody [] (js_or start (VNum 0))
  else
    let* authHeader := restlet_sign c p in
    let* response := request (restlet_options c p authHeader parsedBody) in
    push response i.

(** [s.toLowerCase()] on code units below 256 *)
Definition lower (ch : ascii) : ascii :=
  let n := code ch in
  if ((65 <=? n) && (n <=? 90))
     || ((192 <=? n) && (n <=? 222) && negb (n =? 215))
  then ascii_of_N (Z.to_N (n + 32)) else ch.

Fixpoint toLowerCase (s : string) : string :=
  match s with
  | EmptyString => EmptyString
  | String ch rest => String (lower ch) (toLowerCase rest)
  end.

(** [fileName.split('.').pop()?.toLowerCase()] *)
Definition extension (fileName : string) : string :=
  toLowerCase (List.last (split_on "."%char fileName) "").

Definition fileType (extension : string) : option string :=
  if String.eqb extension "pdf" then Some "PDF"
  else if String.eqb extension "xlsx" || String.eqb extension "xls" then Some "EXCEL"
  else if String.eqb extension "csv" then Some "CSV"
  else None.

Definition uploadFile (c : Credentials) (item : InputItem) (p : Parameters)
    (i : nat) : M unit :=
  let has_data :=
    match binary item with
    | Some b => truthy (default VUndef (b !! "data"))
    | None => false
    end in
  if negb has_data then
    throw (NodeOperationError ("No binary data found on item " +:+ pretty i
                                 +:+ ". The node expects an incoming file."))
  else
    match fileType (extension (fileName p)) with
    | None =>
        throw (NodeOperationError
                 ("Unsupported file type: ." +:+ extension (fileName p)
                    +:+ ". Only PDF, Excel, and CSV files are supported."))
    | Some ft =>
        let* fileBuffer := getBinaryDataBuffer i "data" in
        let requestBody :=
          VObj (list_to_map
                  [("postType", VStr "uploadFile");
                   ("folderId", VStr (folderId p));
                   ("name", VStr (fileName p));
                   ("base64Content", VStr (Buffer_base64 fileBuffer));
                   ("fileType", VStr ft)]) in
        let restletUrl :=
          "https://" +:+ restletBaseUrl c +:+ "/app/site/hosting/restlet.nl" in
        let* authHeader :=
          sign c "POST" restletUrl
               [("script", uploadScriptId p); ("deploy", uploadDeploymentId p)] in
        let options :=
          {| headers := json_headers authHeader false;
             method := VStr "POST";
             body := requestBody;
             url := VStr restletUrl;
             qs := [("script", uploadScriptId p); ("deploy", uploadDeploymentId p)];
             json := true;
             resolveWithFullResponse := false |} in
        let* response := request options in
        push response i
    end.

(** ** The item loop of [execute] *)

(** the body of the [try] block for item [i] *)
Definition process_item (fuel : nat) (resource : string) (c : Credentials)
    (item : InputItem) (p : Parameters) (i : nat) : M unit :=
  if String.eqb resource "suiteql" then suiteql fuel c p i
  else if String.eqb resource "record" then record c p i
  else if String.eqb resource "restlet" then
    if String.eqb (operation p) "call" then restlet_call fuel c p i
    else if String.eqb (operation p) "uploadFile" then uploadFile c item p i
    else throw (NodeOperationError
                  ("The operation " +:+ dquote +:+ operation p +:+ dquote
                     +:+ " is not supported for RESTlet resource."))
  else throw (NodeOperationError
                ("The resource " +:+ dquote +:+ resource +:+ dquote
                   +:+ " is not supported.")).

(** [for (let i = 0; i < items.length; i++) { try { ... } catch (error) { ... } }] *)
Fixpoint execute_items (fuel : nat) (resource : string) (c : Credentials)
    (continueOnFail : bool) (items : list (InputItem * Parameters)) (i : nat)
  : M unit :=
  match items with
  | [] => ret tt
  | (item, p) :: rest =>
      fun w =>
        match process_item fuel resource c item p i w with
        | (Ok _, w') => execute_items fuel resource c continueOnFail rest (S i) w'
        | (Throw error, w') =>
            if continueOnFail then
              (push (VObj {[ "error" := VStr (message error) ]}) i
               >> execute_items fuel resource c continueOnFail rest (S i)) w'
            else (Throw (NodeOperationError (message error)), w')
        | (OutOfFuel, w') => (OutOfFuel, w')
        end
  end.

Definition initial (e : env) : World :=
  {| world_env := e; calls := []; returnData := [] |}.

(** [execute]: the items with their parameters, the [resource] parameter of
    item 0 and the credentials come from the host *)
Definition execute (fuel : nat) (resource : string) (c : Credentials)
    (continueOnFail : bool) (items : list (InputItem * Parameters)) (e : env)
  : result (list (list INodeExecutionData)) * World :=
  match execute_items fuel resource c continueOnFail items 0%nat (initial e) with
  | (Ok _, w) => (Ok [helpers_returnJsonArray (returnData w)], w)
  | (Throw error, w) => (Throw error, w)
  | (OutOfFuel, w) => (OutOfFuel, w)
  end.

End Execute.

(** ** SHA-256, HMAC and base64

    [crypto] is a built-in of the runtime.  This is FIPS 180-4 SHA-256 and
    RFC 2104 HMAC over byte lists, for the instance of the host the
    examples run on. *)

Module Crypto.

Definition bytes := list Z.

Definition bytes_of_string (s : string) : bytes :=
  map (fun c => Z.of_N (N_of_ascii c)) (String.list_ascii_of_string s).

Definition w32 (x : Z) : Z := Z.land x 0xFFFFFFFF.
Definition add32 (x y : Z) : Z := w32 (x + y).
Definition rotr (n x : Z) : Z := Z.lor (Z.shiftr x n) (w32 (Z.shiftl x (32 - n))).
Definition not32 (x : Z) : Z := Z.lxor x 0xFFFFFFFF.

Definition Ch (x y z : Z) := Z.lxor (Z.land x y) (Z.land (not32 x) z).
Definition Maj (x y z : Z) := Z.lxor (Z.lxor (Z.land x y) (Z.land x z)) (Z.land y z).
Definition Sigma0 x := Z.lxor (Z.lxor (rotr 2 x) (rotr 13 x)) (rotr 22 x).
Definition Sigma1 x := Z.lxor (Z.lxor (rotr 6 x) (rotr 11 x)) (rotr 25 x).
Definition sigma0 x := Z.lxor (Z.lxor (rotr 7 x) (rotr 18 x)) (Z.shiftr x 3).
Definition sigma1 x := Z.lxor (Z.lxor (rotr 17 x) (rotr 19 x)) (Z.shiftr x 10).

(** the primes below 312: the first 64 *)
Definition is_prime (n : nat) : bool :=
  forallb (fun d => negb (Nat.eqb (n mod d) 0)) (seq 2 (n - 2)).

Definition primes : list Z := map Z.of_nat (filter is_prime (seq 2 310)).

(** the largest [r] in [lo, hi) with [r ^ 3 <= n], by bisection *)
Fixpoint cube_root (steps : nat) (lo hi n : Z) : Z :=
  match steps with
  | O => lo
  | S steps' =>
      let mid := (lo + hi) / 2 in
      if mid * mid * mid <=? n then cube_root steps' mid hi n
      else cube_root steps' lo mid n
  end.

(** the round constants: the first 32 bits of the fractional parts of the
    cube roots of the first 64 primes *)
Definition K256 : list Z :=
  map (fun p => w32 (cube_root 36 0 (2 ^ 35) (p * 2 ^ 96))) primes.

(** the initial hash value: the same of the square roots of the first 8 *)
Definition H256 : list Z :=
  map (fun p => w32 (Z.sqrt (p * 2 ^ 64))) (firstn 8 primes).

(* big-endian bytes of a word *)
Definition be_bytes (n : nat) (x : Z) : bytes :=
  map (fun i => Z.land (Z.shiftr x (8 * Z.of_nat i)) 0xFF) (rev (seq 0 n)).

Definition pad (msg : bytes) : bytes :=
  let len := Z.of_nat (length msg) in
  let zeros := Z.to_nat ((55 - len) mod 64) in
  msg ++ [0x80] ++ repeat 0 zeros ++ be_bytes 8 (8 * len).

Fixpoint words (bs : bytes) : list Z :=
  match bs with
  | a :: b :: c :: d :: rest =>
      (Z.shiftl a 24 + Z.shiftl b 16 + Z.shiftl c 8 + d) :: words rest
  | _ => []
  end.

Definition nthw (ws : list Z) (i : nat) : Z := nth i ws 0.

(* one round: the window holds w[t..t+15] *)
Definition round (st : list Z * list Z) (k : Z) : list Z * list Z :=
  let '(h, win) := st in
  match h with
  | [a; b; c; d; e; f; g; hh] =>
      let w := nthw win 0 in
      let t1 := w32 (hh + Sigma1 e + Ch e f g + k + w) in
      let t2 := w32 (Sigma0 a + Maj a b c) in
      let wn := w32 (sigma1 (nthw win 14) + nthw win 9 + sigma0 (nthw win 1) + w) in
      ([add32 t1 t2; a; b; c; add32 d t1; e; f; g], tl win ++ [wn])
  | _ => st
  end.

Definition compress (h : list Z) (block : list Z) : list Z :=
  let '(h', _) := fold_left round K256 (h, block) in
  zip_with add32 h h'.

Fixpoint chunks (n : nat) (fuel : nat) (ws : list Z) : list (list Z) :=
  match fuel with
  | O => []
  | S fuel' =>
      match ws with
      | [] => []
      | _ => firstn n ws :: chunks n fuel' (skipn n ws)
      end
  end.

Definition sha256 (msg : bytes) : bytes :=
  let ws := words (pad msg) in
  let h := fold_left compress (chunks 16 (length ws) ws) H256 in
  flat_map (be_bytes 4) h.

Definition xor_pad (p : Z) (key : bytes) : bytes := map (Z.lxor p) key.

Definition hmac_sha256 (key msg : bytes) : bytes :=
  let k0 := if (64 <? Z.of_nat (length key)) then sha256 key else key in
  let k := k0 ++ repeat 0 (64 - length k0)%nat in
  sha256 (xor_pad 0x5c k ++ sha256 (xor_pad 0x36 k ++ msg)).

Definition b64_alphabet : string :=
  "ABCDEFGHIJKLMNOPQRSTUVWXYZabcdefghijklmnopqrstuvwxyz0123456789+/".

Definition b64_char (i : Z) : string :=
  match String.get (Z.to_nat i) b64_alphabet with
  | Some c => String c EmptyString
  | None => EmptyString
  end.

Fixpoint base64 (bs : bytes) : string :=
  match bs with
  | a :: b :: c :: rest =>
      let n := Z.shiftl a 16 + Z.shiftl b 8 + c in
      b64_char (Z.shiftr n 18) ++ b64_char (Z.land (Z.shiftr n 12) 63)
        ++ b64_char (Z.land (Z.shiftr n 6) 63) ++ b64_char (Z.land n 63) ++ base64 rest
  | [a; b] =>
      let n := Z.shiftl a 16 + Z.shiftl b 8 in
      b64_char (Z.shiftr n 18) ++ b64_char (Z.land (Z.shiftr n 12) 63)
        ++ b64_char (Z.land (Z.shiftr n 6) 63) ++ "="
  | [a] =>
      let n := Z.shiftl a 16 in
      b64_char (Z.shiftr n 18) ++ b64_char (Z.land (Z.shiftr n 12) 63) ++ "=="
  | [] => ""
  end%string.

Definition hex_digit (i : Z) : string :=
  match String.get (Z.to_nat i) "0123456789abcdef" with
  | Some c => String c EmptyString
  | None => EmptyString
  end.
Definition hex (bs : bytes) : string :=
  fold_right (fun b acc => hex_digit (Z.shiftr b 4) ++ hex_digit (Z.land b 15) ++ acc)%string ""%string bs.

End Crypto.

(** ** A scripted host

    The server answers from a script, one entry per request, and fails the
    request when the script is exhausted; the clock advances one second per
    reading; the nonce is a counter. *)

Record mock_env := {
  pending : list (exn + value);
  clock : Z;
  counter : Z;
  file : list Z;
}.

Definition split_at (sep : string) (s : string) : option (string * string) :=
  match String.index 0 sep s with
  | Some n =>
      Some (String.substring 0 n s,
            String.substring (n + String.length sep)
                             (String.length s - n - String.length sep) s)
  | None => None
  end.

Definition mock_query (q : string) : list (string * string) :=
  map (fun kv => match split_at "=" kv with
                 | Some (k, v) => (k, v)
                 | None => (kv, "")
                 end)
      (filter (fun kv => kv ≠ "") (split_on "&"%char q)).

(** enough of a URL parser for [scheme://host/path?k=v&...] *)
Definition mock_URL_parse (s : string) : option URL :=
  match split_at "://" s with
  | None => None
  | Some (scheme, rest) =>
      let '(hostpath, q) :=
        match split_at "?" rest with
        | Some (hp, q) => (hp, q)
        | None => (rest, "")
        end in
      let '(h, path) :=
        match split_at "/" hostpath with
        | Some (h, path) => (h, "/" +:+ path)
        | None => (hostpath, "/")
        end in
      if String.eqb h "" then None
      else Some {| protocol := scheme +:+ ":";
                   host := h;
                   pathname := path;
                   searchParams := mock_query q |}
  end.

#[export] Instance mock : Host := {|
  env := mock_env;
  helpers_request := fun _ e =>
    match pending e with
    | [] => (inl (HostError "socket hang up"), e)
    | r :: rest =>
        (r, {| pending := rest; clock := clock e; counter := counter e;
               file := file e |})
    end;
  helpers_getBinaryDataBuffer := fun _ _ e => (inr (file e), e);
  helpers_returnJsonArray := fun returnData => returnData;
  Date_now := fun e =>
    (clock e, {| pending := pending e; clock := clock e + 1000;
                 counter := counter e; file := file e |});
  crypto_randomBytes_hex := fun n e =>
    (Crypto.hex (repeat (Z.land (counter e) 0xFF) n),
     {| pending := pending e; clock := clock e; counter := counter e + 1;
        file := file e |});
  crypto_hmac_sha256_base64 := fun key data =>
    Crypto.base64 (Crypto.hmac_sha256 (Crypto.bytes_of_string key)
                                      (Crypto.bytes_of_string data));
  Buffer_base64 := Crypto.base64;
  URL_parse := mock_URL_parse;
  JSON_parse := fun s =>
    if String.eqb s "{}" then inr (VObj ∅)
    else inl "SyntaxError: Unexpected token"
|}.

Definition server (script : list value) : mock_env :=
  {| pending := map inr script; clock := 1700000000000; counter := 0; file := [] |}.

Definition creds : Credentials :=
  {| accountId := "1234567";
     companyUrl := "1234567.suitetalk.api.netsuite.com";
     restletCompanyUrl := None;
     consumerKey := "ck";
     consumerSecret := "cs";
     tokenKey := "tk";
     tokenSecret := "ts" |}.

(** the defaults of the node's parameters *)
Definition defaults : Parameters :=
  {| operation := "executeQuery";
     query := "SELECT * FROM currency";
     returnAll := false;
     limit := 1000;
     recordType := "salesOrder";
     recordId := "";
     recordBody := VObj ∅;
     targetRecordType := "invoice";
     scriptId := "";
     deployId := "";
     restletBody := VObj (list_to_map [("id", VStr "search_id");
                                       ("type", VStr "savesearchdata");
                                       ("start", VNum 0);
                                       ("end", VNum 1000)]);
     pageSize := 1000;
     startIndexField := "start";
     endIndexField := "end";
     outputFieldName := "results";
     uploadScriptId := "";
     uploadDeploymentId := "";
     folderId := "";
     fileName := "" |}.

Definition obj (l : list (string * value)) : value := VObj (list_to_map l).

Definition nums (l : list Z) : value := VArr (map VNum l).

(** ** Vocabulary of the statements *)

(** the own property [k] of [v], [undefined] when there is none *)
Definition prop (v : value) (k : string) : value :=
  match v with
  | VObj m => default VUndef (m !! k)
  | _ => VUndef
  end.

(** the [items] a SuiteQL page carries *)
Definition items_of (response : value) : list value :=
  match prop response "items" with
  | VArr l => l
  | _ => []
  end.

(** a SuiteQL page is a keyed structure whose [items], when it has any, is
    a sequence *)
Definition well_formed_page (response : value) : bool :=
  match response with
  | VObj m =>
      match m !! "items" with
      | None | Some (VArr _) => true
      | Some v => negb (truthy v)
      end
  | _ => false
  end.

(** [allItems] after a page: [if (response.items) allItems = allItems.concat(response.items)] *)
Definition accumulate (allItems response : value) : exn + value :=
  match get response "items" with
  | inl e => inl e
  | inr items => if truthy items then js_concat allItems items else inr allItems
  end.

(** an entry of [links] that is a keyed structure whose [rel] is not "next" *)
Definition other_link (link : value) : bool :=
  match link with
  | VObj o => negb (is_str (default VUndef (o !! "rel")) "next")
  | _ => false
  end.

(** the response has no [links] field (or a falsy one), or a sequence of
    links none of which is the next one *)
Definition lacks_next_link (response : value) : bool :=
  match response with
  | VObj m =>
      match m !! "links" with
      | None => true
      | Some (VArr l) => forallb other_link l
      | Some v => negb (truthy v)
      end
  | _ => false
  end.

(** the URL is [https://<host>/...] *)
Definition url_on_host (h : string) (u : value) : Prop :=
  exists rest, u = VStr ("https://" +:+ h +:+ "/" +:+ rest).

(** the follow-up requests of a SuiteQL run after the response [r]: each
    goes to the [href] of the next link of the reply before it, and a
    failed request is the last one *)
Inductive follows_links : value -> list (RequestOptions * (exn + value)) -> Prop :=
  | follows_nil (r : value) : follows_links r []
  | follows_failed (r links nextLink : value) (options : RequestOptions) (e : exn) :
      get r "links" = inr links ->
      links_find_next links = inr nextLink ->
      get nextLink "href" = inr (url options) ->
      follows_links r [(options, inl e)]
  | follows_page (r links nextLink : value) (options : RequestOptions)
      (r' : value) (later : list (RequestOptions * (exn + value))) :
      get r "links" = inr links ->
      links_find_next links = inr nextLink ->
      get nextLink "href" = inr (url options) ->
      follows_links r' later ->
      follows_links r ((options, inr r') :: later).

(** Reading of the specification: "scan a fixed ordered list of candidate
    field names and use the first one present". *)
Fixpoint first_present (response : gmap string value) (fields : list string)
  : option value :=
  match fields with
  | [] => None
  | field :: rest =>
      match response !! field with
      | Some v => Some v
      | None => first_present response rest
      end
  end.

(** Reading of the specification, section 4.1 steps 3 to 7: parameters sorted
    by key, byte-wise ascending; keys and values percent-encoded per
    RFC 3986. *)
Definition utf8_bytes (s : string) : list Z :=
  flat_map (fun ch => utf8 (code ch)) (String.list_ascii_of_string s).

Fixpoint bytes_leb (a b : list Z) : bool :=
  match a, b with
  | [], _ => true
  | _ :: _, [] => false
  | x :: a', y :: b' => (x <? y) || ((x =? y) && bytes_leb a' b')
  end.

Definition bytewise_le (s t : string) : Prop :=
  bytes_leb (utf8_bytes s) (utf8_bytes t) = true.

#[export] Instance bytewise_le_dec s t : Decision (bytewise_le s t).
Proof. unfold bytewise_le. apply _. Defined.

Definition spec_sortedParams (merged : gmap string string) : string :=
  join "&"
    (map (fun key => percentEncode_rfc3986 key +:+ "="
                       +:+ percentEncode_rfc3986 (default "" (merged !! key)))
         (merge_sort bytewise_le (map fst (map_to_list merged)))).

Definition spec_baseString (method baseUrl : string) (merged : gmap string string)
  : string :=
  method +:+ "&" +:+ percentEncode_rfc3986 baseUrl
         +:+ "&" +:+ percentEncode_rfc3986 (spec_sortedParams merged).

Definition spec_signingKey (c : Credentials) : string :=
  percentEncode_rfc3986 (consumerSecret c) +:+ "&"
    +:+ percentEncode_rfc3986 (tokenSecret c).

Definition spec_signature `{H : Host} (c : Credentials) (method baseUrl : string)
    (merged : gmap string string) : string :=
  crypto_hmac_sha256_base64 (spec_signingKey c) (spec_baseString method baseUrl merged).

(** the five characters [! ' ( ) *] that [encodeURIComponent] leaves alone
    and RFC 3986 reserves *)
Definition reserved_mark (n : Z) : bool := bool_decide (n ∈ [33; 39; 40; 41; 42]).

(** a string without them *)
Fixpoint plain (s : string) : bool :=
  match s with
  | EmptyString => true
  | String ch rest => negb (reserved_mark (code ch)) && plain rest
  end.

(** [u] is below [v] at the first byte where they differ, and they differ
    before either ends *)
Fixpoint bytes_ltb (u v : list Z) : bool :=
  match u, v with
  | x :: u', y :: v' => (x <? y) || ((x =? y) && bytes_ltb u' v')
  | _, _ => false
  end.

(** the [href] a page sends the loop to: the page announces more, its
    [links] hold a next link, and the link's [href] parses as a URL *)
Definition next_href (response : value) : option value :=
  if truthy (prop response "hasMore") then
    match prop response "links" with
    | VArr links =>
        match find_next links with
        | inr nextLink =>
            if truthy nextLink then
              match get nextLink "href" with
              | inr nextUrl =>
                  match mock_URL_parse (to_string nextUrl) with
                  | Some _ => Some nextUrl
                  | None => None
                  end
              | inl _ => None
              end
            else None
        | inl _ => None
        end
    | _ => None
    end
  else None.

(** the pages after [response]: each page but the last sends the loop on to
    the next, which is well formed, and the last announces no more *)
Fixpoint chain (response : value) (following : list value) : bool :=
  match following with
  | [] => negb (truthy (prop response "hasMore"))
  | next :: following' =>
      bool_decide (is_Some (next_href response))
      && well_formed_page next && chain next following'
  end.

(** the URLs the loop is sent to along a chain *)
Fixpoint chain_hrefs (response : value) (following : list value) : list value :=
  match following with
  | [] => []
  | next :: following' =>
      default VUndef (next_href response) :: chain_hrefs next following'
  end.

(** [m] leaves [returnData] as it found it *)
Definition silent {H : Host} {A} (m : M A) : Prop :=
  forall w out w', m w = (out, w') -> returnData w' = returnData w.

(** [m] does not throw *)
Definition unfailing {H : Host} {A} (m : M A) : Prop :=
  forall w out w' e, m w = (out, w') -> out <> Throw e.

(** [m] only appends records paired with item [i], and none when it throws *)
Definition emits_for {H : Host} {A} (i : nat) (m : M A) : Prop :=
  forall w out w',
    m w = (out, w') ->
    exists new,
      returnData w' = returnData w ++ new
      /\ Forall (fun d => pairedItem d = i) new
      /\ (forall e, out = Throw e -> new = []).

(** the record the [catch] block pushes for item [i] *)
Definition error_record (error : exn) (i : nat) : INodeExecutionData :=
  {| out_json := VObj {[ "error" := VStr (message error) ]}; pairedItem := i |}.

(** the character [ch] occurs in [s] *)
Fixpoint occurs (ch : ascii) (s : string) : bool :=
  match s with
  | EmptyString => false
  | String c rest => Ascii.eqb c ch || occurs ch rest
  end.

(** [items[i].binary?.data] *)
Definition binary_data (item : InputItem) : value :=
  match binary item with
  | Some b => default VUndef (b !! "data")
  | None => VUndef
  end.

(** what the record branch does with the response of its request *)
Definition record_response {H : Host} (p : Parameters) (i : nat) (response : value)
  : M unit :=
  bind (lift (get response "body")) (fun rbody =>
    let responseData := js_or rbody (VObj ∅) in
    bind (if String.eqb (operation p) "create"
          then bind (lift (get response "headers")) (fun hdrs =>
                 if truthy hdrs then lift (get hdrs "location") else ret hdrs)
          else ret (VBool false))
         (fun location =>
            if truthy location then
              match location with
              | VStr loc =>
                  match idMatch loc with
                  | Some id =>
                      push (VObj (<["location" := VStr loc]>
                                    (<["id" := VStr id]> (spread responseData)))) i
                  | None => push responseData i
                  end
              | _ => throw (TypeError "location.match is not a function")
              end
            else push responseData i)).

(** the raw response the offset loop pushed on its way out: the last page,
    when it holds no results the loop recognizes *)
Definition raw_push (i : nat) (pages : list value) : list INodeExecutionData :=
  match last pages with
  | Some page =>
      match page_results page with
      | None => [{| out_json := page; pairedItem := i |}]
      | Some _ => []
      end
  | None => []
  end.

(** [a] and [b] differ at a position both have *)
Fixpoint clash (a b : string) : bool :=
  match a, b with
  | String x a', String y b' => negb (Ascii.eqb x y) || clash a' b'
  | _, _ => false
  end.

(** [m] appends at most [n] requests to the spy's record, each with [P] *)
Definition sends {H : Host} {A} (P : RequestOptions -> Prop) (n : nat) (m : M A)
  : Prop :=
  forall w out w',
    m w = (out, w') ->
    exists sent,
      calls w' = calls w ++ sent
      /\ (length sent <= n)%nat
      /\ Forall (fun call => P call.1) sent.

(** the requests of SuiteQL: a POST of [{q: query}] with the transient
    preference *)
Definition suiteql_request (query : string) (options : RequestOptions) : Prop :=
  method options = VStr "POST"
  /\ body options = VObj {[ "q" := VStr query ]}
  /\ (exists authHeader,
        headers options = [("Authorization", authHeader);
                           ("Content-Type", "application/json");
                           ("Prefer", "transient")])
  /\ qs options = [] /\ json options = true
  /\ resolveWithFullResponse options = false.

(** what every request of the node has: a JSON body and the two headers,
    [Prefer: transient] or not *)
Definition signed_json (options : RequestOptions) : Prop :=
  json options = true
  /\ exists authHeader prefer, headers options = json_headers authHeader prefer.

(** a page the offset loop goes on from: it holds results the loop
    recognizes, at least one and at least [pageSize] of them *)
Definition full_page (p : Parameters) (page : value) : bool :=
  match page_results page with
  | Some results =>
      (0 <? Z.of_nat (length results))
      && negb (Z.of_nat (length results) <? pageSize p)
  | None => false
  end.

(** a response the cursor loop goes on from: [hasMore && links] is truthy
    and [links] holds a next link *)
Definition announces_next (response : value) : bool :=
  match get response "hasMore" with
  | inr hasMore =>
      if truthy hasMore then
        match get response "links" with
        | inr links =>
            truthy links
            && match links_find_next links with
               | inr nextLink => truthy nextLink
               | inl _ => false
               end
        | inl _ => false
        end
      else false
  | inl _ => false
  end.

(** ** Data of the examples *)

Definition next_link (href : string) : value :=
  obj [("rel", VStr "next"); ("href", VStr href)].

Definition suiteql_page (items : list Z) (hasMore : bool) (links : list value)
  : value :=
  obj [("items", nums items); ("hasMore", VBool hasMore); ("links", VArr links);
       ("offset", VNum 0)].

Definition suiteql_url (offset : Z) : string :=
  "https://1234567.suitetalk.api.netsuite.com/services/rest/query/v1/suiteql?limit=2&offset="
    +:+ pretty offset.

(** three pages: [hasMore] true, true, false; 2, 2 and 1 items *)
Definition three_pages : list value :=
  [suiteql_page [1; 2] true [next_link (suiteql_url 2)];
   suiteql_page [3; 4] true [next_link (suiteql_url 4)];
   suiteql_page [5] false []].

Definition all_pages : Parameters :=
  {| operation := operation defaults; query := query defaults;
     returnAll := true; limit := limit defaults;
     recordType := recordType defaults; recordId := recordId defaults;
     recordBody := recordBody defaults;
     targetRecordType := targetRecordType defaults;
     scriptId := "customscript_search"; deployId := "customdeploy_search";
     restletBody := restletBody defaults; pageSize := 3;
     startIndexField := startIndexField defaults;
     endIndexField := endIndexField defaults;
     outputFieldName := outputFieldName defaults;
     uploadScriptId := uploadScriptId defaults;
     uploadDeploymentId := uploadDeploymentId defaults;
     folderId := folderId defaults; fileName := fileName defaults |}.

Definition first_page_only : Parameters :=
  {| operation := operation defaults; query := query defaults;
     returnAll := false; limit := 2;
     recordType := recordType defaults; recordId := recordId defaults;
     recordBody := recordBody defaults;
     targetRecordType := targetRecordType defaults;
     scriptId := scriptId defaults; deployId := deployId defaults;
     restletBody := restletBody defaults; pageSize := pageSize defaults;
     startIndexField := startIndexField defaults;
     endIndexField := endIndexField defaults;
     outputFieldName := outputFieldName defaults;
     uploadScriptId := uploadScriptId defaults;
     uploadDeploymentId := uploadDeploymentId defaults;
     folderId := folderId defaults; fileName := fileName defaults |}.

Definition record_op (op id : string) : Parameters :=
  {| operation := op; query := query defaults;
     returnAll := false; limit := limit defaults;
     recordType := recordType defaults; recordId := id;
     recordBody := recordBody defaults;
     targetRecordType := targetRecordType defaults;
     scriptId := scriptId defaults; deployId := deployId defaults;
     restletBody := restletBody defaults; pageSize := pageSize defaults;
     startIndexField := startIndexField defaults;
     endIndexField := endIndexField defaults;
     outputFieldName := outputFieldName defaults;
     uploadScriptId := uploadScriptId defaults;
     uploadDeploymentId := uploadDeploymentId defaults;
     folderId := folderId defaults; fileName := fileName defaults |}.

Definition upload_of (name : string) : Parameters :=
  {| operation := "uploadFile"; query := query defaults;
     returnAll := false; limit := limit defaults;
     recordType := recordType defaults; recordId := recordId defaults;
     recordBody := recordBody defaults;
     targetRecordType := targetRecordType defaults;
     scriptId := scriptId defaults; deployId := deployId defaults;
     restletBody := restletBody defaults; pageSize := pageSize defaults;
     startIndexField := startIndexField defaults;
     endIndexField := endIndexField defaults;
     outputFieldName := outputFieldName defaults;
     uploadScriptId := "123"; uploadDeploymentId := "1";
     folderId := "456"; fileName := name |}.

Definition results_page (l : list Z) : value := obj [("results", nums l)].

(** offset pagination: pages of 3, 3 and 1 results; the fourth entry of the
    script is never asked for *)
Definition offset_pages : list value :=
  [results_page [1; 2; 3]; results_page [4; 5; 6]; results_page [7];
   results_page [8]].

(** a first page whose next link points at another host *)
Definition foreign_pages : list value :=
  [suiteql_page [1; 2] true
     [next_link "https://elsewhere.example.com/services/rest/query/v1/suiteql?limit=2&offset=2"];
   suiteql_page [3] false []].

(** a RESTlet deployment whose script identifier has parentheses *)
Definition versioned_script : list (string * string) :=
  [("script", "customscript_sync(v2)"); ("deploy", "1")].

Definition versioned_call : Parameters :=
  {| operation := "call"; query := query defaults;
     returnAll := false; limit := limit defaults;
     recordType := recordType defaults; recordId := recordId defaults;
     recordBody := recordBody defaults;
     targetRecordType := targetRecordType defaults;
     scriptId := "customscript_sync(v2)"; deployId := "1";
     restletBody := restletBody defaults; pageSize := pageSize defaults;
     startIndexField := startIndexField defaults;
     endIndexField := endIndexField defaults;
     outputFieldName := outputFieldName defaults;
     uploadScriptId := uploadScriptId defaults;
     uploadDeploymentId := uploadDeploymentId defaults;
     folderId := folderId defaults; fileName := fileName defaults |}.

Definition restlet_base : string :=
  "https://1234567.suitetalk.api.netsuite.com/app/site/hosting/restlet.nl".

(** the world a run starts in: nothing sent, nothing emitted *)
Definition world (script : list value) : World (H := mock) :=
  initial (server script).

(** what the examples observe of a run: its outcome, the emitted records and
    the request bodies' [start] and [end] *)
Definition emitted (r : result unit * World (H := mock)) : list value :=
  map out_json (returnData r.2).

Definition request_count (r : result unit * World (H := mock)) : nat :=
  length (calls r.2).

Definition request_urls (r : result unit * World (H := mock)) : list value :=
  map (fun call => url call.1) (calls r.2).

Definition request_windows (r : result unit * World (H := mock))
  : list (value * value) :=
  map (fun call => (prop (body call.1) "start", prop (body call.1) "end"))
      (calls r.2).


(** a paginated call with pages of 3 whose body gives the start index *)
Definition started_at (start : value) : Parameters :=
  {| operation := "call"; query := query defaults;
     returnAll := true; limit := limit defaults;
     recordType := recordType defaults; recordId := recordId defaults;
     recordBody := recordBody defaults;
     targetRecordType := targetRecordType defaults;
     scriptId := "customscript_search"; deployId := "customdeploy_search";
     restletBody := obj [("start", start)]; pageSize := 3;
     startIndexField := "start"; endIndexField := "end";
     outputFieldName := "results";
     uploadScriptId := uploadScriptId defaults;
     uploadDeploymentId := uploadDeploymentId defaults;
     folderId := folderId defaults; fileName := fileName defaults |}.

(** * Properties *)

(** ** The built-ins: known answers *)

Example sha256_constants :
  length Crypto.K256 = 64%nat
  /\ firstn 2 Crypto.K256 = [0x428a2f98; 0x71374491]
  /\ List.last Crypto.K256 0 = 0xc67178f2
  /\ firstn 2 Crypto.H256 = [0x6a09e667; 0xbb67ae85]
  /\ List.last Crypto.H256 0 = 0x5be0cd19.
Proof. vm_compute. auto. Qed.

Example sha256_abc :
  Crypto.hex (Crypto.sha256 (Crypto.bytes_of_string "abc"))
  = "ba7816bf8f01cfea414140de5dae2223b00361a396177a9cb410ff61f20015ad".
Proof. vm_compute. reflexivity. Qed.

Example sha256_two_blocks :
  Crypto.hex (Crypto.sha256 (Crypto.bytes_of_string
    "abcdbcdecdefdefgefghfghighijhijkijkljklmklmnlmnomnopnopq"))
  = "248d6a61d20638b8e5c026930c3e6039a33ce45964ff2167f6ecedd419db06c1".
Proof. vm_compute. reflexivity. Qed.

(** RFC 4231, test case 2 *)
Example hmac_sha256_rfc4231_2 :
  Crypto.hex (Crypto.hmac_sha256 (Crypto.bytes_of_string "Jefe")
                (Crypto.bytes_of_string "what do ya want for nothing?"))
  = "5bdcc146bf60754e6a042426089575c75a003f089d2739839dec58b964ec3843".
Proof. vm_compute. reflexivity. Qed.

(** RFC 4231, test case 6: a key longer than a block *)
Example hmac_sha256_rfc4231_6 :
  Crypto.hex (Crypto.hmac_sha256 (repeat 0xaa 131%nat)
                (Crypto.bytes_of_string
                   "Test Using Larger Than Block-Size Key - Hash Key First"))
  = "60e431591ee0b67f0d8a26aacbf5b77f8e0bc6213728c5140546040f0ee37f54".
Proof. vm_compute. reflexivity. Qed.

(** RFC 4648, section 10 *)
Example base64_rfc4648 :
  map (fun s => Crypto.base64 (Crypto.bytes_of_string s)) ["f"; "fo"; "foo"; "foobar"]
  = ["Zg=="; "Zm8="; "Zm9v"; "Zm9vYmFy"].
Proof. vm_compute. reflexivity. Qed.

Example encodeURIComponent_examples :
  map encodeURIComponent ["a b&c=d/e"; "~-_.!*'()"; "https://x.y/z?q=1"]
  = ["a%20b%26c%3Dd%2Fe"; "~-_.!*'()"; "https%3A%2F%2Fx.y%2Fz%3Fq%3D1"].
Proof. vm_compute. reflexivity. Qed.

Example percentEncode_rfc3986_examples :
  map percentEncode_rfc3986 ["a b&c=d/e"; "~-_.!*'()"]
  = ["a%20b%26c%3Dd%2Fe"; "~-_.%21%2A%27%28%29"].
Proof. vm_compute. reflexivity. Qed.

Example idMatch_examples :
  map idMatch ["https://h/services/rest/record/v1/salesOrder/12345"; "a/b/"; "abc"; "/x"]
  = [Some "12345"; None; None; Some "x"].
Proof. vm_compute. reflexivity. Qed.

(** sums of doubles: exact up to [2 ^ 53], to the nearest double with the
    even significand from there, infinite from [2 ^ 1024] *)
Example round53_examples :
  map round53 [0; -7; 2 ^ 53; 2 ^ 53 + 1; 2 ^ 53 + 3; 2 ^ 53 + 4 + 3;
               - (2 ^ 53) - 1; - (2 ^ 53) - 3; 2 ^ 54 + 2; 2 ^ 54 + 6; 10 ^ 21 + 65537]
  = [0; -7; 9007199254740992; 9007199254740992; 9007199254740996; 9007199254741000;
     -9007199254740992; -9007199254740996; 18014398509481984; 18014398509481992;
     1000000000000000131072].
Proof. vm_compute. reflexivity. Qed.

Example number_examples :
  map number [2 ^ 53 + 3; 2 ^ 1024 - 2 ^ 971; 2 ^ 1024 - 2 ^ 970 - 1;
              2 ^ 1024 - 2 ^ 970; - (2 ^ 1024)]
  = [VNum 9007199254740996; VNum (2 ^ 1024 - 2 ^ 971); VNum (2 ^ 1024 - 2 ^ 971);
     VInf false; VInf true].
Proof. vm_compute. reflexivity. Qed.

(** [Number::toString]: the shortest decimal, in full below [10 ^ 21] and in
    the exponential form from there *)
Example number_to_string_examples :
  map (fun z => number_to_string (round53 z))
      [0; -12; 1000; 2 ^ 53 + 3; 2 ^ 60; - (2 ^ 60); 10 ^ 21 - 131072; 10 ^ 21;
       - (10 ^ 21); 123456789 * 10 ^ 13; 2 ^ 70; 12345 * 10 ^ 21; 2 ^ 100;
       2 ^ 1024 - 2 ^ 971]
  = ["0"; "-12"; "1000"; "9007199254740996"; "1152921504606847000";
     "-1152921504606847000"; "999999999999999900000"; "1e+21"; "-1e+21";
     "1.23456789e+21"; "1.1805916207174113e+21"; "1.2345e+25";
     "1.2676506002282294e+30"; "1.7976931348623157e+308"].
Proof. vm_compute. reflexivity. Qed.

Example js_plus_examples :
  map (fun a => js_plus a 1000)
      [VNum 0; VNum 9007199254740992; VNull; VBool true; VUndef; VStr "0";
       VArr [VNum 1; VNum 2]; VInf false]
  = [VNum 1000; VNum 9007199254741992; VNum 1000; VNum 1001; VNaN; VStr "01000";
     VStr "1,21000"; VInf false].
Proof. vm_compute. reflexivity. Qed.

(** up to [2 ^ 53] a sum is the sum of the integers *)
Lemma number_exact (z : Z) : exact z = true -> number z = VNum z.
Proof.
  unfold exact, number, round53. intros Hz%Z.leb_le.
  destruct (Z.ltb_spec (Z.abs z) (2 ^ 53)) as [Hlt|Hge].
  - cbv zeta. destruct (Z.leb_spec (2 ^ 1024) (Z.abs z)) as [Hbig|_]; [|reflexivity].
    exfalso. assert (2 ^ 53 < 2 ^ 1024) by (apply Z.pow_lt_mono_r; lia). lia.
  - assert (Hz' : z = 2 ^ 53 \/ z = - 2 ^ 53) by lia.
    destruct Hz' as [->| ->]; vm_compute; reflexivity.
Qed.

Lemma js_plus_exact (m n : Z) :
  exact (m + n) = true -> js_plus (VNum m) n = VNum (m + n).
Proof. apply number_exact. Qed.

(** the multiples of a step between two exact sums are exact *)
Lemma exact_between (a step : Z) (k n : nat) :
  (k <= n)%nat ->
  exact a = true -> exact (a + Z.of_nat n * step) = true ->
  exact (a + Z.of_nat k * step) = true.
Proof.
  unfold exact. rewrite !Z.leb_le. intros Hk Ha Hn.
  assert (Hup : 0 <= step -> 0 <= Z.of_nat k * step <= Z.of_nat n * step) by nia.
  assert (Hdown : step <= 0 -> Z.of_nat n * step <= Z.of_nat k * step <= 0) by nia.
  lia.
Qed.

(** below [2 ^ 53] a number's text is its digits *)
Lemma number_to_string_digits (n : Z) :
  Z.abs n < 2 ^ 53 -> number_to_string n = pretty n.
Proof. unfold number_to_string. intros Hn%Z.ltb_lt. cbv zeta. now rewrite Hn. Qed.

Section Properties.
Context `{H : Host}.

(** ** The execution monad *)

Lemma bind_Ok {A B} (m : M A) (k : A -> M B) w a w1 :
  m w = (Ok a, w1) -> bind m k w = k a w1.
Proof. intros E. unfold bind. now rewrite E. Qed.

Lemma bind_Throw {A B} (m : M A) (k : A -> M B) w e w1 :
  m w = (Throw e, w1) -> bind m k w = (Throw e, w1).
Proof. intros E. unfold bind. now rewrite E. Qed.

Lemma bind_OutOfFuel {A B} (m : M A) (k : A -> M B) w w1 :
  m w = (OutOfFuel, w1) -> bind m k w = (OutOfFuel, w1).
Proof. intros E. unfold bind. now rewrite E. Qed.

(** a computation either hands a value to its continuation or ends the
    whole run *)
Lemma bind_inv {A B} (m : M A) (k : A -> M B) w out w' :
  bind m k w = (out, w') ->
  (exists a w1, m w = (Ok a, w1) /\ k a w1 = (out, w'))
  \/ (exists e, m w = (Throw e, w') /\ out = Throw e)
  \/ (m w = (OutOfFuel, w') /\ out = OutOfFuel).
Proof.
  unfold bind. destruct (m w) as [[a|e|] w1]; intros E.
  - left. eauto.
  - right. left. inversion E; subst. eauto.
  - right. right. inversion E; subst. eauto.
Qed.

Lemma lift_inr {A} (a : A) w : lift (inr a) w = (Ok a, w).
Proof. reflexivity. Qed.

Lemma lift_inl {A} e w : lift (A := A) (inl e) w = (Throw e, w).
Proof. reflexivity. Qed.

(** ** Record operations: the missing identifier *)

Lemma record_without_id (c : Credentials) (p : Parameters) (i : nat) (w : World) :
  operation p ∈ idOperations ->
  recordId p = "" ->
  record c p i w
  = (Throw (NodeOperationError "Record ID is required for this operation."), w).
Proof.
  intros Hop Hid. unfold record. rewrite Hid. cbn [String.eqb andb].
  unfold includes. rewrite bool_decide_eq_true_2 by assumption.
  reflexivity.
Qed.

(** C9. A Record operation among get, update, patch, post and transform
    with an empty record ID throws the operational error "Record ID is
    required for this operation." and leaves the world as it found it: no
    request is sent. *)
Theorem record_requires_id (fuel : nat) (c : Credentials) (item : InputItem)
    (p : Parameters) (i : nat) (w : World) :
  operation p ∈ idOperations ->
  recordId p = "" ->
  process_item fuel "record" c item p i w
  = (Throw (NodeOperationError "Record ID is required for this operation."), w).
Proof.
  intros Hop Hid. unfold process_item. cbn [String.eqb Ascii.eqb Bool.eqb].
  now apply record_without_id.
Qed.

(** X4.  The missing identifier, seen from [execute] on a batch of one
    item: the error aborts the batch, or becomes the item's [error] record
    when the host continues on failure; in both cases nothing was
    requested. *)
Lemma execute_requires_id (fuel : nat) (c : Credentials) (item : InputItem)
    (p : Parameters) (e : env) :
  operation p ∈ idOperations ->
  recordId p = "" ->
  execute fuel "record" c false [(item, p)] e
  = (Throw (NodeOperationError "Record ID is required for this operation."), initial e)
  /\ exists w,
       execute fuel "record" c true [(item, p)] e
       = (Ok [helpers_returnJsonArray
                [{| out_json :=
                      VObj {["error" := VStr "Record ID is required for this operation."]};
                    pairedItem := 0 |}]], w)
       /\ calls w = [].
Proof.
  intros Hop Hid.
  assert (Hitem : process_item fuel "record" c item p 0 (initial e)
                  = (Throw (NodeOperationError "Record ID is required for this operation."),
                     initial e)).
  { unfold process_item. cbn [String.eqb Ascii.eqb Bool.eqb].
    now apply record_without_id. }
  unfold execute. cbn [execute_items]. rewrite Hitem.
  split; [reflexivity|]. eexists. split; reflexivity.
Qed.

(** ** RESTlet pages: which field holds the results *)

Lemma scan_fields_spec (m : gmap string value) (fields : list string)
    (results : list value) :
  scan_fields m fields = Some results <->
  exists before field after,
    fields = before ++ field :: after
    /\ m !! field = Some (VArr results)
    /\ Forall (fun f => forall l, m !! f <> Some (VArr l)) before.
Proof.
  revert results. induction fields as [|f fields IH]; intros results; cbn [scan_fields].
  - split; [discriminate|]. intros (before & field & after & E & _).
    destruct before; discriminate.
  - split.
    + intros Hscan.
      destruct (m !! f) as [v|] eqn:Ef.
      * destruct v; try (apply IH in Hscan as (before & field & after & -> & Hf & Hb);
          exists (f :: before), field, after; repeat split; trivial;
          constructor; trivial; intros l0 E0; rewrite Ef in E0; discriminate).
        inversion Hscan; subst. exists [], f, fields. repeat split; trivial.
      * apply IH in Hscan as (before & field & after & -> & Hf & Hb).
        exists (f :: before), field, after. repeat split; trivial.
        constructor; trivial. intros l0 E0. rewrite Ef in E0. discriminate.
    + intros (before & field & after & E & Hf & Hb).
      destruct before as [|b before]; cbn in E; inversion E; subst.
      * now rewrite Hf.
      * inversion Hb as [|? ? Hb1 Hb2]; subst.
        assert (Hrest : scan_fields m (before ++ field :: after) = Some results).
        { apply IH. exists before, field, after. repeat split; trivial. }
        destruct (m !! b) as [v|] eqn:Eb; trivial.
        destruct v; trivial. exfalso. now apply (Hb1 l).
Qed.

(** C7, as the code has it.  For a keyed-structure page the permissive
    extraction scans results, data, items, records in this order and takes
    the first field that is present and holds a sequence; a candidate that
    is present with another kind of value is passed over. *)
Theorem page_results_first_sequence (m : gmap string value) (results : list value) :
  page_results (VObj m) = Some results <->
  exists before field after,
    ["results"; "data"; "items"; "records"] = before ++ field :: after
    /\ m !! field = Some (VArr results)
    /\ Forall (fun f => forall l, m !! f <> Some (VArr l)) before.
Proof. apply scan_fields_spec. Qed.

(** no candidate holds a sequence: the page is not recognized *)
Lemma page_results_none (m : gmap string value) :
  page_results (VObj m) = None <->
  Forall (fun f => forall l, m !! f <> Some (VArr l)) possibleFields.
Proof.
  cbn [page_results]. generalize possibleFields as fields.
  induction fields as [|f fields IH]; cbn [scan_fields].
  - split; trivial.
  - destruct (m !! f) as [v|] eqn:Ef.
    + destruct v; try (rewrite IH; split;
        [ intros Hall; constructor; trivial; intros l0 E0; rewrite Ef in E0;
          discriminate
        | intros Hall; now inversion Hall ]).
      split; [discriminate|]. intros Hall. inversion Hall as [|? ? H1 _]; subst.
      exfalso. now apply (H1 l).
    + rewrite IH. split.
      * intros Hall. constructor; trivial. intros l0 E0. rewrite Ef in E0.
        discriminate.
      * intros Hall. now inversion Hall.
Qed.

(** ** SuiteQL: the exit without a next link *)

Lemma find_next_none (l : list value) :
  forallb other_link l = true -> find_next l = inr VUndef.
Proof.
  induction l as [|link l IH]; cbn [forallb find_next]; trivial.
  intros Hl. apply andb_prop in Hl as [Hlink Hl].
  destruct link; try discriminate. cbn [other_link] in Hlink. cbn [get].
  apply negb_true_iff in Hlink. rewrite Hlink. auto.
Qed.

(** C8. When a response reports [hasMore] true and has no [links] field,
    or links none of which has [rel] "next", the pagination loop returns,
    for any fuel, the response and the items gathered so far, without an
    error and in the world it started from: no further request is sent. *)
Theorem suiteql_loop_without_next_link (fuel : nat) (c : Credentials)
    (body response allItems : value) (w : World) :
  truthy (prop response "hasMore") = true ->
  lacks_next_link response = true ->
  suiteql_loop fuel c body response allItems w = (Ok (response, allItems), w).
Proof.
  intros Hmore Hlinks.
  destruct response as [| | | | | |m| |]; try discriminate.
  cbn [prop] in Hmore. cbn [lacks_next_link] in Hlinks.
  assert (Hcond : hasMore_and_links (VObj m) w
                  = (Ok (default VUndef (m !! "links")), w)).
  { unfold hasMore_and_links. cbn [get].
    erewrite bind_Ok by reflexivity. now rewrite Hmore. }
  assert (Hgoal : forall k : value -> M (value * value),
             (forall links, (truthy links = false
                             \/ exists l, links = VArr l /\ forallb other_link l = true) ->
                            links = default VUndef (m !! "links") ->
                            k links w = (Ok (VObj m, allItems), w)) ->
             bind (hasMore_and_links (VObj m)) k w = (Ok (VObj m, allItems), w)).
  { intros k Hk. erewrite bind_Ok by exact Hcond. apply Hk; trivial.
    destruct (m !! "links") as [v|]; cbn; [|now left].
    destruct v; try (left; now apply negb_true_iff). right. eauto. }
  destruct fuel; cbn [suiteql_loop]; apply Hgoal; intros links Hl _;
    (destruct Hl as [Hf | (l & -> & Hl)];
     [ now rewrite Hf
     | cbn [truthy links_find_next]; rewrite (find_next_none l Hl);
       erewrite bind_Ok by reflexivity; reflexivity ]).
Qed.

(** ** What signing and requesting do to the world *)

Lemma sign_Ok (c : Credentials) (method baseUrl : string)
    (extra : list (string * string)) (w : World) :
  exists authHeader w1,
    sign c method baseUrl extra w = (Ok authHeader, w1)
    /\ calls w1 = calls w /\ returnData w1 = returnData w.
Proof.
  unfold sign, bind, timestamp_now, nonce_new, ret.
  destruct (Date_now (world_env w)) as [ms e1]. cbn.
  destruct (crypto_randomBytes_hex 16 e1) as [nonce e2]. cbn. eauto.
Qed.

Lemma sign_inv (c : Credentials) (method baseUrl : string)
    (extra : list (string * string)) (w : World) out w1 :
  sign c method baseUrl extra w = (out, w1) ->
  (exists authHeader, out = Ok authHeader)
  /\ calls w1 = calls w /\ returnData w1 = returnData w.
Proof.
  destruct (sign_Ok c method baseUrl extra w) as (h & w' & E & Hc & Hr).
  rewrite E. intros [= <- <-]. eauto.
Qed.

Lemma request_inv (options : RequestOptions) (w : World) out w1 :
  request options w = (out, w1) ->
  exists reply,
    calls w1 = calls w ++ [(options, reply)]
    /\ returnData w1 = returnData w
    /\ match reply with
       | inr response => out = Ok response
       | inl e => out = Throw e
       end.
Proof.
  unfold request. destruct (helpers_request options (world_env w)) as [[e|v] e1];
    intros [= <- <-]; eexists; cbn; eauto.
Qed.

Lemma push_eq (j : value) (i : nat) (w : World) :
  push j i w
  = (Ok tt, {| world_env := world_env w; calls := calls w;
               returnData := returnData w ++ [{| out_json := j; pairedItem := i |}] |}).
Proof. reflexivity. Qed.

(** ** RESTlet: the offset loop *)

Lemma restlet_loop_S (fuel : nat) (c : Credentials) (p : Parameters) (i : nat)
    (parsedBody : value) (allResults : list value) (currentStart : value) :
  restlet_loop (S fuel) c p i parsedBody allResults currentStart
  = bind (restlet_sign c p) (fun authHeader =>
      bind (request (restlet_options c p authHeader
                       (paginatedBody p parsedBody currentStart)))
           (fun response =>
              match page_results response with
              | None => bind (push response i) (fun _ => ret allResults)
              | Some results =>
                  if 0 <? Z.of_nat (length results) then
                    if Z.of_nat (length results) <? pageSize p
                    then ret (allResults ++ results)
                    else restlet_loop fuel c p i parsedBody (allResults ++ results)
                                      (js_plus currentStart (pageSize p))
                  else ret allResults
              end)).
Proof. reflexivity. Qed.

(** the window a page request asks for *)
Lemma paginatedBody_window (p : Parameters) (parsedBody : value) (start : Z) :
  startIndexField p <> endIndexField p ->
  exact (start + pageSize p) = true ->
  prop (paginatedBody p parsedBody (VNum start)) (startIndexField p) = VNum start
  /\ prop (paginatedBody p parsedBody (VNum start)) (endIndexField p)
     = VNum (start + pageSize p).
Proof.
  intros Hne Hexact. unfold paginatedBody. rewrite (js_plus_exact _ _ Hexact).
  cbn [prop]. split.
  - rewrite lookup_insert_ne by congruence. now rewrite lookup_insert_eq.
  - now rewrite lookup_insert_eq.
Qed.

(** C4, as the code has it.  [currentStart] is a number and its sum with
    [pageSize] an integer of magnitude [2 ^ 53] at most, which a double
    holds without rounding.  On a page whose results the driver recognizes,
    the loop stops exactly when the page holds fewer than [pageSize]
    results or none; it then returns the accumulator with the page
    appended.  Otherwise it goes on from the world after the request, with
    the page appended and [currentStart] advanced by [pageSize]. *)
Theorem restlet_loop_page (fuel : nat) (c : Credentials) (p : Parameters)
    (i : nat) (parsedBody : value) (allResults : list value) (start : Z)
    (w w1 w2 : World) (authHeader : string) (response : value)
    (results : list value) :
  exact (start + pageSize p) = true ->
  restlet_sign c p w = (Ok authHeader, w1) ->
  request (restlet_options c p authHeader (paginatedBody p parsedBody (VNum start))) w1
  = (Ok response, w2) ->
  page_results response = Some results ->
  restlet_loop (S fuel) c p i parsedBody allResults (VNum start) w
  = if (Z.of_nat (length results) <? pageSize p) || (Z.of_nat (length results) =? 0)
    then (Ok (allResults ++ results), w2)
    else restlet_loop fuel c p i parsedBody (allResults ++ results)
                      (VNum (start + pageSize p)) w2.
Proof.
  intros Hexact Hsign Hreq Hpage. rewrite restlet_loop_S.
  rewrite (bind_Ok _ _ _ _ _ Hsign), (bind_Ok _ _ _ _ _ Hreq), Hpage.
  rewrite (js_plus_exact _ _ Hexact).
  destruct results as [|r results].
  - cbn [length Z.of_nat Z.ltb Z.compare Z.eqb]. rewrite orb_true_r.
    now rewrite app_nil_r.
  - assert (Hpos : (0 <? Z.of_nat (length (r :: results))) = true)
      by (apply Z.ltb_lt; cbn [length]; lia).
    assert (Hnz : (Z.of_nat (length (r :: results)) =? 0) = false)
      by (apply Z.eqb_neq; cbn [length]; lia).
    rewrite Hpos, Hnz, orb_false_r.
    destruct (Z.of_nat (length (r :: results)) <? pageSize p); reflexivity.
Qed.

(** C5, as the code has it.  When the first page is recognized and empty,
    the run ends after that one request and emits nothing for the item:
    the aggregate is pushed only when the accumulator is not empty. *)
Theorem restlet_empty_first_page (fuel : nat) (c : Credentials) (p : Parameters)
    (i : nat) (parsedBody currentStart : value) (w w1 w2 : World)
    (authHeader : string) (response : value) :
  restlet_sign c p w = (Ok authHeader, w1) ->
  request (restlet_options c p authHeader (paginatedBody p parsedBody currentStart)) w1
  = (Ok response, w2) ->
  page_results response = Some [] ->
  restlet_paginate (S fuel) c p i parsedBody [] currentStart w = (Ok tt, w2)
  /\ returnData w2 = returnData w
  /\ length (calls w2) = S (length (calls w)).
Proof.
  intros Hsign Hreq Hpage. split.
  - assert (Hloop : restlet_loop (S fuel) c p i parsedBody [] currentStart w
                    = (Ok [], w2)).
    { rewrite restlet_loop_S.
      now rewrite (bind_Ok _ _ _ _ _ Hsign), (bind_Ok _ _ _ _ _ Hreq), Hpage. }
    unfold restlet_paginate. now rewrite (bind_Ok _ _ _ _ _ Hloop).
  - apply sign_inv in Hsign as (_ & Hc1 & Hr1).
    apply request_inv in Hreq as (reply & Hc2 & Hr2 & _).
    rewrite Hr2, Hr1, Hc2, Hc1, length_app. cbn [length]. split; [trivial|lia].
Qed.

(** C6, as the code has it.  On a page that is neither a sequence nor a
    keyed structure with a recognizable results array, the loop stops
    without an error and without another request, and the raw response is
    emitted for the item.  It is the sole result when nothing had been
    accumulated; after earlier pages, the aggregate of their results is
    emitted as well, after the raw response. *)
Theorem restlet_unrecognized_page (fuel : nat) (c : Credentials) (p : Parameters)
    (i : nat) (parsedBody : value) (allResults : list value) (currentStart : value)
    (w w1 w2 : World) (authHeader : string) (response : value) :
  restlet_sign c p w = (Ok authHeader, w1) ->
  request (restlet_options c p authHeader (paginatedBody p parsedBody currentStart)) w1
  = (Ok response, w2) ->
  page_results response = None ->
  exists w3,
    restlet_paginate (S fuel) c p i parsedBody allResults currentStart w = (Ok tt, w3)
    /\ calls w3 = calls w2
    /\ returnData w3
       = returnData w
           ++ {| out_json := response; pairedItem := i |}
           :: match allResults with
              | [] => []
              | _ :: _ =>
                  [{| out_json :=
                        VObj (<["total" := VNum (Z.of_nat (length allResults))]>
                                (<[outputFieldName p := VArr allResults]> ∅));
                      pairedItem := i |}]
              end.
Proof.
  intros Hsign Hreq Hpage.
  assert (Hloop : restlet_loop (S fuel) c p i parsedBody allResults currentStart w
                  = (Ok allResults,
                     {| world_env := world_env w2; calls := calls w2;
                        returnData := returnData w2
                                        ++ [{| out_json := response; pairedItem := i |}] |})).
  { rewrite restlet_loop_S.
    now rewrite (bind_Ok _ _ _ _ _ Hsign), (bind_Ok _ _ _ _ _ Hreq), Hpage. }
  apply sign_inv in Hsign as (_ & Hc1 & Hr1).
  apply request_inv in Hreq as (reply & Hc2 & Hr2 & _).
  unfold restlet_paginate. rewrite (bind_Ok _ _ _ _ _ Hloop). unfold push_aggregate.
  destruct allResults as [|r allResults].
  - cbn [length Z.of_nat Z.ltb Z.compare]. eexists. split; [reflexivity|].
    cbn [calls returnData]. now rewrite Hr2, Hr1.
  - assert (Hpos : (0 <? Z.of_nat (length (r :: allResults))) = true)
      by (apply Z.ltb_lt; cbn [length]; lia).
    rewrite Hpos, push_eq. eexists. split; [reflexivity|].
    cbn [calls returnData]. rewrite Hr2, Hr1, <- app_assoc. now cbn [app].
Qed.

(** ** SuiteQL: one turn of the loop *)

Lemma get_obj (m : gmap string value) (k : string) :
  get (VObj m) k = inr (prop (VObj m) k).
Proof. reflexivity. Qed.

Lemma lift_inv {A} (r : exn + A) (w : World) out w' :
  lift r w = (out, w') ->
  w' = w /\ match r with
            | inr a => out = Ok a
            | inl e => out = Throw e
            end.
Proof. destruct r; cbn; intros [= <- <-]; auto. Qed.

(** a turn either leaves with the state it has, or fails before any
    request while the response still announces more, or sends the request
    for the next link and continues from its reply *)
Lemma suiteql_loop_inv (fuel : nat) (c : Credentials)
    (body response allItems : value) (w : World) out w' :
  suiteql_loop fuel c body response allItems w = (out, w') ->
  (out = Ok (response, allItems) /\ w' = w)
  \/ (w' = w /\ (forall a, out <> Ok a)
      /\ (forall m, response = VObj m -> truthy (prop response "hasMore") = true))
  \/ (exists fuel' links nextLink nextUrl options reply w2,
        fuel = S fuel'
        /\ get response "links" = inr links
        /\ links_find_next links = inr nextLink
        /\ get nextLink "href" = inr nextUrl
        /\ url options = nextUrl
        /\ calls w2 = calls w ++ [(options, reply)]
        /\ returnData w2 = returnData w
        /\ match reply with
           | inl e => out = Throw e /\ w' = w2
           | inr response' =>
               match accumulate allItems response' with
               | inl e => out = Throw e /\ w' = w2
               | inr allItems' =>
                   suiteql_loop fuel' c body response' allItems' w2 = (out, w')
               end
           end).
Proof.
  intros Hrun.
  assert (Hturn :
    bind (hasMore_and_links response) (fun cond =>
      if truthy cond then
        bind (lift (links_find_next cond)) (fun nextLink =>
          if negb (truthy nextLink) then ret (response, allItems)
          else bind (lift (get nextLink "href")) (fun nextUrl =>
            match URL_parse (to_string nextUrl) with
            | None => throw (TypeError "Invalid URL")
            | Some urlObj =>
                match fuel with
                | O => diverge
                | S fuel' =>
                    bind (sign c "POST"
                            (protocol urlObj +:+ "//" +:+ host urlObj +:+ pathname urlObj)
                            (searchParams urlObj))
                      (fun authHeader =>
                         bind (request {| headers := json_headers authHeader true;
                                          method := VStr "POST"; body := body;
                                          url := nextUrl; qs := []; json := true;
                                          resolveWithFullResponse := false |})
                           (fun response' =>
                              bind (lift (get response' "items")) (fun items =>
                                bind (if truthy items
                                      then lift (js_concat allItems items)
                                      else ret allItems)
                                  (fun allItems' =>
                                     suiteql_loop fuel' c body response' allItems'))))
                end
            end))
      else ret (response, allItems)) w = (out, w')).
  { rewrite <- Hrun. destruct fuel; reflexivity. }
  clear Hrun. rename Hturn into Hrun.
  (* the condition *)
  assert (Hcond : forall cond w0, hasMore_and_links response w = (Ok cond, w0) ->
            w0 = w /\ (truthy cond = true ->
                       get response "links" = inr cond
                       /\ forall m, response = VObj m ->
                                    truthy (prop response "hasMore") = true)).
  { intros cond w0. unfold hasMore_and_links. intros Hc.
    apply bind_inv in Hc as [(hm & wa & Hhm & Hc)|[(e & Hhm & [=])|[_ [=]]]].
    apply lift_inv in Hhm as [-> Hhm].
    destruct (get response "hasMore") as [?|hm'] eqn:Eget; [discriminate|].
    injection Hhm as <-.
    destruct (truthy hm) eqn:Ehm.
    - apply lift_inv in Hc as [-> Hc].
      destruct (get response "links") as [?|lk] eqn:El; [discriminate|].
      injection Hc as <-. split; trivial. intros _. split; trivial.
      intros m ->. rewrite get_obj in Eget. injection Eget as Eq.
      cbn [prop]. now rewrite Eq.
    - injection Hc as <- <-. split; trivial. congruence. }
  assert (Hcondfail : forall out0 w0, (forall a, out0 <> Ok a) ->
            hasMore_and_links response w = (out0, w0) ->
            w0 = w /\ forall m, response <> VObj m).
  { intros out0 w0 Hne. unfold hasMore_and_links. intros Hc.
    apply bind_inv in Hc as [(hm & wa & Hhm & Hc)|[(e & Hhm & ->)|[Hhm ->]]].
    - apply lift_inv in Hhm as [-> Hhm].
      destruct (truthy hm).
      + apply lift_inv in Hc as [-> Hc]. split; trivial. intros m ->.
        rewrite get_obj in Hc. now apply (Hne _ Hc).
      + injection Hc as <- <-. now destruct (Hne hm).
    - apply lift_inv in Hhm as [-> Hhm]. split; trivial. intros m ->.
      rewrite get_obj in Hhm. discriminate.
    - apply lift_inv in Hhm as [-> Hhm].
      destruct (get response "hasMore"); discriminate. }
  apply bind_inv in Hrun as [(cond & w0 & Hc & Hrun)|[(e & Hc & ->)|[Hc ->]]].
  2:{ apply Hcondfail in Hc as [-> Hno]; [|discriminate].
      right. left. repeat split; [discriminate|]. intros m ->. now destruct (Hno m). }
  2:{ apply Hcondfail in Hc as [-> Hno]; [|discriminate].
      right. left. repeat split; [discriminate|]. intros m ->. now destruct (Hno m). }
  apply Hcond in Hc as [-> Hc].
  destruct (truthy cond) eqn:Etruthy; [|injection Hrun as <- <-; now left].
  destruct (Hc eq_refl) as [Hlinks Hmore]. clear Hc.
  apply bind_inv in Hrun as [(nextLink & w0 & Hfind & Hrun)|[(e & Hfind & ->)|[Hfind ->]]];
    apply lift_inv in Hfind as [-> Hfind].
  2:{ right. left. repeat split; trivial. discriminate. }
  2:{ destruct (links_find_next cond); discriminate. }
  destruct (links_find_next cond) as [?|nl] eqn:Efind; [discriminate|].
  injection Hfind as <-.
  destruct (negb (truthy nextLink)); [injection Hrun as <- <-; now left|].
  apply bind_inv in Hrun as [(nextUrl & w0 & Hhref & Hrun)|[(e & Hhref & ->)|[Hhref ->]]];
    apply lift_inv in Hhref as [-> Hhref].
  2:{ right. left. repeat split; trivial. discriminate. }
  2:{ destruct (get nextLink "href"); discriminate. }
  destruct (get nextLink "href") as [?|href] eqn:Ehref; [discriminate|].
  injection Hhref as <-.
  destruct (URL_parse (to_string nextUrl)) as [urlObj|].
  2:{ injection Hrun as <- <-. right. left. repeat split; trivial. discriminate. }
  destruct fuel as [|fuel'].
  { injection Hrun as <- <-. right. left. repeat split; trivial. discriminate. }
  right. right.
  apply bind_inv in Hrun as [(authHeader & w1 & Hsign & Hrun)|[(e & Hsign & ->)|[Hsign ->]]];
    apply sign_inv in Hsign as ([h Hh] & Hc1 & Hr1); try discriminate.
  match type of Hrun with bind (request ?o) _ _ = _ => set (options := o) in * end.
  apply bind_inv in Hrun as [(response' & w2 & Hreq & Hrun)|[(e & Hreq & ->)|[Hreq ->]]];
    apply request_inv in Hreq as (reply & Hc2 & Hr2 & Hreply).
  - destruct reply as [?|r]; [discriminate|]. injection Hreply as <-.
    exists fuel', cond, nextLink, nextUrl, options, (inr response'), w2.
    repeat split; trivial; try congruence.
    unfold accumulate.
    apply bind_inv in Hrun as [(items & w3 & Hitems & Hrun)|[(e & Hitems & ->)|[Hitems ->]]];
      apply lift_inv in Hitems as [-> Hitems].
    + destruct (get response' "items") as [?|it]; [discriminate|]. injection Hitems as <-.
      destruct (truthy items).
      * apply bind_inv in Hrun as [(a' & w3 & Hcat & Hrun)|[(e & Hcat & ->)|[Hcat ->]]];
          apply lift_inv in Hcat as [-> Hcat].
        -- destruct (js_concat allItems items); [discriminate|]. now injection Hcat as <-.
        -- destruct (js_concat allItems items); [|discriminate]. now injection Hcat as <-.
        -- destruct (js_concat allItems items); discriminate.
      * exact Hrun.
    + destruct (get response' "items"); [|discriminate]. now injection Hitems as <-.
    + destruct (get response' "items"); discriminate.
  - destruct reply as [e'|]; [|discriminate]. injection Hreply as <-.
    exists fuel', cond, nextLink, nextUrl, options, (inl e), w'.
    repeat split; trivial; congruence.
  - destruct reply; discriminate.
Qed.

(** ** SuiteQL: the pages a run receives *)

(** the loop only appends to the record of calls and emits nothing *)
Lemma suiteql_loop_frame (c : Credentials) (body : value) (fuel : nat) :
  forall (response allItems : value) (w : World) out w',
    suiteql_loop fuel c body response allItems w = (out, w') ->
    exists new, calls w' = calls w ++ new /\ returnData w' = returnData w.
Proof.
  induction fuel as [|fuel IH]; intros response allItems w out w' Hrun;
    apply suiteql_loop_inv in Hrun
      as [[_ ->]|[(-> & _)|(fuel' & links & nextLink & nextUrl & options & reply & w2
                            & Hfuel & _ & _ & _ & _ & Hc & Hr & Hreply)]];
    try (exists []; now rewrite app_nil_r); try discriminate.
  injection Hfuel as <-.
  destruct reply as [e|response'].
  - destruct Hreply as [_ ->]. eauto.
  - destruct (accumulate allItems response') as [e|allItems'].
    + destruct Hreply as [_ ->]. eauto.
    + apply IH in Hreply as (new & Hc' & Hr'). exists ((options, inr response') :: new).
      rewrite Hc', Hc, Hr', Hr, <- app_assoc. auto.
Qed.

Lemma last_cons {A} (a d : A) (l : list A) : List.last (a :: l) d = List.last l a.
Proof.
  revert a d. induction l as [|b l IH]; intros a d; trivial.
  change (List.last (a :: b :: l) d) with (List.last (b :: l) d).
  now rewrite (IH b d), (IH b a).
Qed.

Lemma accumulate_well_formed (acc : list value) (response : value) :
  well_formed_page response = true ->
  accumulate (VArr acc) response = inr (VArr (acc ++ items_of response)).
Proof.
  destruct response as [| | | | | |m| |]; try discriminate.
  unfold accumulate, items_of. cbn [well_formed_page get prop].
  destruct (m !! "items") as [v|]; cbn.
  - destruct v; cbn; intros Hv; try (apply negb_true_iff in Hv; rewrite Hv);
      try discriminate; now rewrite ?app_nil_r.
  - now rewrite app_nil_r.
Qed.

Lemma first_items_well_formed (response : value) :
  well_formed_page response = true ->
  exists items, get response "items" = inr items
                /\ js_or items (VArr []) = VArr (items_of response).
Proof.
  destruct response as [| | | | | |m| |]; try discriminate.
  unfold items_of, js_or. cbn [well_formed_page get prop]. intros Hwf.
  eexists. split; [reflexivity|].
  destruct (m !! "items") as [v|]; cbn; trivial.
  destruct v; cbn in *; trivial; try discriminate;
    apply negb_true_iff in Hwf; now rewrite Hwf.
Qed.

Lemma replies_nil {A B} (l : list (A * (exn + B))) (pages : list B) :
  map snd l ++ [] = map snd l ++ map inr pages -> pages = [].
Proof.
  intros E. apply app_inv_head in E. now destruct pages.
Qed.

(** when every reply of the loop is a well-formed page, the loop ends on
    the last of them with all their items, in order, behind the ones it
    started with; it can only fail or run out of fuel while the last page
    still announces more *)
Lemma suiteql_loop_trace (c : Credentials) (body : value) (fuel : nat) :
  forall (response : value) (acc : list value) (w : World) out w'
         (pages : list value),
    suiteql_loop fuel c body response (VArr acc) w = (out, w') ->
    map snd (calls w') = map snd (calls w) ++ map inr pages ->
    well_formed_page response = true ->
    forallb well_formed_page pages = true ->
    match out with
    | Ok (r, a) =>
        r = List.last pages response
        /\ a = VArr (acc ++ concat (map items_of pages))
    | _ => truthy (prop (List.last pages response) "hasMore") = true
    end.
Proof.
  induction fuel as [|fuel IH]; intros response acc w out w' pages Hrun Htrace Hwf Hpages;
    pose proof Hrun as Hinv;
    apply suiteql_loop_inv in Hinv
      as [[-> ->]|[(-> & Hne & Hmore)|(fuel' & links & nextLink & nextUrl & options & reply
                                        & w2 & Hfuel & _ & _ & _ & _ & Hc & Hr & Hreply)]];
    try discriminate;
    try (rewrite <- (app_nil_r (map snd (calls w))) in Htrace at 1;
         apply replies_nil in Htrace as ->; cbn [List.last map concat];
         first [ now rewrite app_nil_r
               | destruct response as [| | | | | |m| |]; try discriminate;
                 specialize (Hmore m eq_refl);
                 destruct out as [a| |]; [now destruct (Hne a)|trivial|trivial] ]).
  injection Hfuel as <-.
  destruct reply as [e|response'].
  - destruct Hreply as [_ ->]. rewrite Hc, map_app in Htrace.
    apply app_inv_head in Htrace. destruct pages; discriminate.
  - destruct (accumulate (VArr acc) response') as [e|allItems'] eqn:Eacc.
    + destruct Hreply as [_ ->]. rewrite Hc, map_app in Htrace.
      apply app_inv_head in Htrace.
      destruct pages as [|page pages]; [discriminate|].
      injection Htrace as <- _. cbn [forallb] in Hpages.
      apply andb_prop in Hpages as [Hpage _].
      rewrite (accumulate_well_formed _ _ Hpage) in Eacc. discriminate.
    + pose proof Hreply as Hframe.
      apply suiteql_loop_frame in Hframe as (new & Hc' & _).
      rewrite Hc', Hc, !map_app, <- app_assoc in Htrace.
      apply app_inv_head in Htrace.
      destruct pages as [|page pages]; [discriminate|].
      cbn [map app] in Htrace. injection Htrace as <- Hrest.
      cbn [forallb] in Hpages. apply andb_prop in Hpages as [Hpage Hpages].
      rewrite (accumulate_well_formed _ _ Hpage) in Eacc. injection Eacc as <-.
      specialize (IH response' (acc ++ items_of response') w2 out w' pages Hreply).
      rewrite Hc', map_app, Hrest in IH. specialize (IH eq_refl Hpage Hpages).
      rewrite last_cons. cbn [map concat]. now rewrite app_assoc.
Qed.

(** C1.  With return-all pagination, when the replies a SuiteQL run
    receives are the well-formed pages [pages ++ [lastPage]] and the last
    reports no more, the run emits exactly one result: the fields of the
    last page with [items] replaced by the concatenation, in arrival order,
    of every page's items, [count] by its length and [hasMore] by false. *)
Theorem suiteql_returnAll_combined (fuel : nat) (c : Credentials) (p : Parameters)
    (i : nat) (w : World) out w' (pages : list value) (lastPage : value) :
  returnAll p = true ->
  suiteql fuel c p i w = (out, w') ->
  map snd (calls w') = map snd (calls w) ++ map inr (pages ++ [lastPage]) ->
  forallb well_formed_page (pages ++ [lastPage]) = true ->
  truthy (prop lastPage "hasMore") = false ->
  out = Ok tt
  /\ returnData w'
     = returnData w
         ++ [{| out_json :=
                  VObj (<["hasMore" := VBool false]>
                          (<["count" := VNum (Z.of_nat (length
                                          (concat (map items_of (pages ++ [lastPage])))))]>
                             (<["items" := VArr (concat (map items_of (pages ++ [lastPage])))]>
                                (spread lastPage))));
                pairedItem := i |}].
Proof.
  intros Hall Hrun Htrace Hwf Hlast. unfold suiteql in Hrun. rewrite Hall in Hrun.
  apply bind_inv in Hrun as [(authHeader & w1 & Hsign & Hrun)|[(e & Hsign & ->)|[Hsign ->]]];
    apply sign_inv in Hsign as ([h Hh] & Hc1 & Hr1); try discriminate.
  match type of Hrun with bind (request ?o) _ _ = _ => set (options := o) in * end.
  apply bind_inv in Hrun as [(response & w2 & Hreq & Hrun)|[(e & Hreq & ->)|[Hreq ->]]];
    apply request_inv in Hreq as (reply & Hc2 & Hr2 & Hreply).
  2:{ destruct reply as [e'|]; [|discriminate].
      rewrite Hc2, Hc1, map_app in Htrace. apply app_inv_head in Htrace.
      destruct pages; discriminate. }
  2:{ destruct reply; discriminate. }
  destruct reply as [?|r]; [discriminate|]. injection Hreply as <-.
  destruct (pages ++ [lastPage]) as [|first rest] eqn:Epages;
    [now destruct pages|].
  cbn [forallb] in Hwf. apply andb_prop in Hwf as [Hfirst Hrest].
  assert (Hlastpage : List.last rest first = lastPage).
  { rewrite <- last_cons with (d := VUndef), <- Epages. apply last_last. }
  assert (Hresp : forall new, calls w' = calls w2 ++ new ->
                              response = first /\ map snd new = map inr rest).
  { intros new Hnew. rewrite Hnew, Hc2, Hc1, !map_app, <- app_assoc in Htrace.
    apply app_inv_head in Htrace. cbn [map app] in Htrace.
    now injection Htrace as -> ->. }
  (* the rest of the run only appends to the calls *)
  assert (Hrest_frame : exists new, calls w' = calls w2 ++ new).
  { clear Hresp. revert Hrun. generalize (query p). intros q Hrun.
    apply bind_inv in Hrun as [(items & w3 & Hit & Hrun)|[(e & Hit & ->)|[Hit ->]]];
      apply lift_inv in Hit as [-> _]; try (exists []; now rewrite app_nil_r).
    apply bind_inv in Hrun as [(paginate & w3 & Hpag & Hrun)|[(e & Hpag & ->)|[Hpag ->]]].
    - assert (w3 = w2) as ->.
      { apply bind_inv in Hpag as [(hm & w4 & Hhm & Hpag)|[(e & Hhm & [=])|[_ [=]]]].
        apply lift_inv in Hhm as [-> _]. now injection Hpag as _ <-. }
      apply bind_inv in Hrun as [(final & w4 & Hfin & Hrun)|[(e & Hfin & ->)|[Hfin ->]]];
        try (rewrite push_eq in Hrun; injection Hrun as _ <-; cbn [calls]);
        (destruct paginate;
         [ apply suiteql_loop_frame in Hfin as (new & Hn & _); eauto
         | injection Hfin as _ <- || discriminate; exists []; now rewrite app_nil_r ]).
    - apply bind_inv in Hpag as [(hm & w4 & Hhm & [=])|[(e' & Hhm & _)|[Hhm _]]];
        apply lift_inv in Hhm as [-> _]; exists []; now rewrite app_nil_r.
    - apply bind_inv in Hpag as [(hm & w4 & Hhm & [=])|[(e' & Hhm & _)|[Hhm _]]];
        apply lift_inv in Hhm as [-> _]; exists []; now rewrite app_nil_r. }
  destruct Hrest_frame as (new & Hnew). destruct (Hresp new Hnew) as [-> Hnewrest].
  destruct (first_items_well_formed first Hfirst) as (items & Hitems & Hor).
  rewrite Hitems in Hrun. erewrite bind_Ok in Hrun by reflexivity. rewrite Hor in Hrun.
  destruct first as [| | | | | |m| |]; try discriminate.
  rewrite get_obj in Hrun. erewrite bind_Ok in Hrun by reflexivity.
  apply bind_inv in Hrun as [(final & w4 & Hfin & Hrun)|[(e & Hfin & ->)|[Hfin ->]]].
  - rewrite push_eq in Hrun. injection Hrun as <- <-. cbn [calls returnData] in *.
    split; trivial.
    assert (Hf : final = (lastPage, VArr (concat (map items_of (VObj m :: rest))))
                 /\ returnData w4 = returnData w2).
    { destruct (truthy (prop (VObj m) "hasMore")) eqn:Emore.
      - pose proof Hfin as Hframe.
        apply suiteql_loop_frame in Hframe as (new' & Hcn & Hrn). split; trivial.
        rewrite Hcn in Hnew. apply app_inv_head in Hnew. subst new'.
        pose proof (suiteql_loop_trace _ _ _ _ _ _ _ _ rest Hfin) as Hspec.
        rewrite Hcn, map_app, Hnewrest in Hspec.
        specialize (Hspec eq_refl Hfirst Hrest). rewrite Hlastpage in Hspec.
        destruct final as [r a]. destruct Hspec as [-> ->]. reflexivity.
      - injection Hfin as <- <-. split; trivial.
        rewrite <- (app_nil_r (calls w2)) in Hnew at 1. apply app_inv_head in Hnew.
        subst new. destruct rest; [|discriminate].
        cbn [List.last] in Hlastpage. subst lastPage.
        cbn [map concat]. now rewrite app_nil_r. }
    destruct Hf as [-> Hr4]. rewrite Hr4, Hr2, Hr1. cbn [fst snd].
    reflexivity.
  - exfalso. destruct (truthy (prop (VObj m) "hasMore")) eqn:Emore; [|discriminate].
    pose proof Hfin as Hframe.
    apply suiteql_loop_frame in Hframe as (new' & Hcn & Hrn).
    rewrite Hcn in Hnew. apply app_inv_head in Hnew. subst new'.
    pose proof (suiteql_loop_trace _ _ _ _ _ _ _ _ rest Hfin) as Hspec.
    rewrite Hcn, map_app, Hnewrest in Hspec.
    specialize (Hspec eq_refl Hfirst Hrest). rewrite Hlastpage in Hspec. congruence.
  - exfalso. destruct (truthy (prop (VObj m) "hasMore")) eqn:Emore; [|discriminate].
    pose proof Hfin as Hframe.
    apply suiteql_loop_frame in Hframe as (new' & Hcn & Hrn).
    rewrite Hcn in Hnew. apply app_inv_head in Hnew. subst new'.
    pose proof (suiteql_loop_trace _ _ _ _ _ _ _ _ rest Hfin) as Hspec.
    rewrite Hcn, map_app, Hnewrest in Hspec.
    specialize (Hspec eq_refl Hfirst Hrest). rewrite Hlastpage in Hspec. congruence.
Qed.

(** ** Which host a request goes to *)

Lemma append_assoc (a b c : string) : (a +:+ b) +:+ c = a +:+ b +:+ c.
Proof.
  induction a as [|ch a IH]; [reflexivity|].
  change (String ch ((a +:+ b) +:+ c) = String ch (a +:+ b +:+ c)).
  now rewrite IH.
Qed.

Lemma push_inv (j : value) (i : nat) (w : World) out w' :
  push j i w = (out, w') -> out = Ok tt /\ calls w' = calls w.
Proof. rewrite push_eq. now intros [= <- <-]. Qed.

Lemma push_aggregate_inv (p : Parameters) (i : nat) (allResults : list value)
    (w : World) out w' :
  push_aggregate p i allResults w = (out, w') -> out = Ok tt /\ calls w' = calls w.
Proof.
  unfold push_aggregate. destruct (0 <? Z.of_nat (length allResults)).
  - apply push_inv.
  - now intros [= <- <-].
Qed.

(** every request of the offset loop goes to the RESTlet URL *)
Lemma restlet_loop_urls (c : Credentials) (p : Parameters) (i : nat)
    (parsedBody : value) (fuel : nat) :
  forall (allResults : list value) (currentStart : value) (w : World) out w',
    restlet_loop fuel c p i parsedBody allResults currentStart w = (out, w') ->
    exists new, calls w' = calls w ++ new
                /\ Forall (fun call => url call.1 = VStr (restletUrl c p)) new.
Proof.
  induction fuel as [|fuel IH]; intros allResults currentStart w out w' Hrun.
  - injection Hrun as _ <-. exists []. now rewrite app_nil_r.
  - rewrite restlet_loop_S in Hrun.
    apply bind_inv in Hrun as [(authHeader & w1 & Hsign & Hrun)|[(e & Hsign & ->)|[Hsign ->]]];
      apply sign_inv in Hsign as ([h Hh] & Hc1 & Hr1); try discriminate.
    match type of Hrun with bind (request ?o) _ _ = _ => set (options := o) in * end.
    assert (Hurl : url options = VStr (restletUrl c p)) by reflexivity.
    apply bind_inv in Hrun as [(response & w2 & Hreq & Hrun)|[(e & Hreq & ->)|[Hreq ->]]];
      apply request_inv in Hreq as (reply & Hc2 & Hr2 & Hreply);
      try (exists [(options, reply)]; rewrite Hc2, Hc1; split; [trivial|];
           now repeat constructor).
    assert (Hone : forall w3, calls w3 = calls w2 ->
              exists new, calls w3 = calls w ++ new
                          /\ Forall (fun call => url call.1 = VStr (restletUrl c p)) new).
    { intros w3 E. exists [(options, reply)]. rewrite E, Hc2, Hc1. split; trivial.
      now repeat constructor. }
    destruct (page_results response) as [results|].
    + destruct (0 <? Z.of_nat (length results)).
      * destruct (Z.of_nat (length results) <? pageSize p).
        -- injection Hrun as _ <-. now apply Hone.
        -- apply IH in Hrun as (new & Hn & Hall).
           exists ((options, reply) :: new). rewrite Hn, Hc2, Hc1, <- app_assoc.
           split; trivial. now constructor.
      * injection Hrun as _ <-. now apply Hone.
    + rewrite (bind_Ok _ _ _ _ _ (push_eq _ _ _)) in Hrun.
      injection Hrun as _ <-. now apply Hone.
Qed.

Lemma restlet_url_on_host (c : Credentials) (p : Parameters) :
  url_on_host (restletBaseUrl c) (VStr (restletUrl c p)).
Proof.
  exists ("app/site/hosting/restlet.nl?script=" +:+ scriptId p +:+ "&deploy=" +:+ deployId p).
  reflexivity.
Qed.

Lemma restlet_call_urls (fuel : nat) (c : Credentials) (p : Parameters) (i : nat)
    (w : World) out w' :
  restlet_call fuel c p i w = (out, w') ->
  exists new, calls w' = calls w ++ new
              /\ Forall (fun call => url_on_host (restletBaseUrl c) (url call.1)) new.
Proof.
  unfold restlet_call. intros Hrun.
  assert (Hnone : exists new, calls w = calls w ++ new
            /\ Forall (fun call => url_on_host (restletBaseUrl c) (url call.1)) new).
  { exists []. now rewrite app_nil_r. }
  apply bind_inv in Hrun as [(parsedBody & w0 & Hparse & Hrun)|[(e & Hparse & ->)|[Hparse ->]]].
  2,3: (destruct (restletBody p); try discriminate;
        destruct (JSON_parse s); try discriminate; now injection Hparse as _ <-).
  assert (w0 = w) as ->.
  { destruct (restletBody p); try (now injection Hparse as _ <-).
    destruct (JSON_parse s); [discriminate|]. now injection Hparse as _ <-. }
  clear Hparse. destruct (returnAll p).
  - apply bind_inv in Hrun as [(start & w0 & Hstart & Hrun)|[(e & Hstart & ->)|[Hstart ->]]];
      apply lift_inv in Hstart as [-> _]; trivial.
    unfold restlet_paginate in Hrun.
    apply bind_inv in Hrun as [(allResults & w1 & Hloop & Hrun)|[(e & Hloop & ->)|[Hloop ->]]];
      apply restlet_loop_urls in Hloop as (new & Hn & Hall).
    1: apply push_aggregate_inv in Hrun as [_ Hc]; rewrite Hc.
    all: exists new; split; trivial;
      eapply Forall_impl; [exact Hall|]; intros call ->; apply restlet_url_on_host.
  - apply bind_inv in Hrun as [(authHeader & w1 & Hsign & Hrun)|[(e & Hsign & ->)|[Hsign ->]]];
      apply sign_inv in Hsign as ([h Hh] & Hc1 & Hr1); try discriminate.
    match type of Hrun with bind (request ?o) _ _ = _ => set (options := o) in * end.
    apply bind_inv in Hrun as [(response & w2 & Hreq & Hrun)|[(e & Hreq & ->)|[Hreq ->]]];
      apply request_inv in Hreq as (reply & Hc2 & Hr2 & Hreply).
    1: apply push_inv in Hrun as [_ Hc]; rewrite Hc.
    all: exists [(options, reply)]; rewrite Hc2, Hc1; split; trivial;
      repeat constructor; apply restlet_url_on_host.
Qed.

Lemma uploadFile_urls (c : Credentials) (item : InputItem) (p : Parameters) (i : nat)
    (w : World) out w' :
  uploadFile c item p i w = (out, w') ->
  exists new, calls w' = calls w ++ new
              /\ Forall (fun call => url_on_host (restletBaseUrl c) (url call.1)) new.
Proof.
  unfold uploadFile. intros Hrun.
  assert (Hnone : exists new, calls w = calls w ++ new
            /\ Forall (fun call => url_on_host (restletBaseUrl c) (url call.1)) new).
  { exists []. now rewrite app_nil_r. }
  destruct (negb _); [now injection Hrun as _ <-|].
  destruct (fileType _) as [ft|]; [|now injection Hrun as _ <-].
  apply bind_inv in Hrun as [(fileBuffer & w0 & Hbuf & Hrun)|[(e & Hbuf & ->)|[Hbuf ->]]].
  2,3: (unfold getBinaryDataBuffer in Hbuf;
        destruct (helpers_getBinaryDataBuffer i "data" (world_env w)) as [[?|?] ?];
        try discriminate; injection Hbuf as _ <-; exists []; now rewrite app_nil_r).
  assert (Hc0 : calls w0 = calls w).
  { unfold getBinaryDataBuffer in Hbuf.
    destruct (helpers_getBinaryDataBuffer i "data" (world_env w)) as [[?|?] ?];
      try discriminate. now injection Hbuf as _ <-. }
  apply bind_inv in Hrun as [(authHeader & w1 & Hsign & Hrun)|[(e & Hsign & ->)|[Hsign ->]]];
    apply sign_inv in Hsign as ([h Hh] & Hc1 & Hr1); try discriminate.
  match type of Hrun with bind (request ?o) _ _ = _ => set (options := o) in * end.
  apply bind_inv in Hrun as [(response & w2 & Hreq & Hrun)|[(e & Hreq & ->)|[Hreq ->]]];
    apply request_inv in Hreq as (reply & Hc2 & Hr2 & Hreply).
  1: apply push_inv in Hrun as [_ Hc]; rewrite Hc.
  all: exists [(options, reply)]; rewrite Hc2, Hc1, Hc0; split; trivial;
    repeat constructor; now exists "app/site/hosting/restlet.nl".
Qed.

(** a Record operation that passes the identifier check sends exactly one
    request, with the mapped method, to the composed path *)
Lemma record_one_request (c : Credentials) (p : Parameters) (i : nat)
    (w : World) out w' :
  (String.eqb (recordId p) "" && includes idOperations (operation p)) = false ->
  record c p i w = (out, w') ->
  exists options reply,
    calls w' = calls w ++ [(options, reply)]
    /\ method options = methodMap (operation p)
    /\ url options
       = VStr (let url0 := "https://" +:+ companyUrl c +:+ "/services/rest/record/v1/"
                             +:+ recordType p in
               let url1 :=
                 if includes idOperations (operation p)
                    && negb (String.eqb (recordId p) "")
                 then url0 +:+ "/" +:+ recordId p else url0 in
               if String.eqb (operation p) "transform"
               then url1 +:+ "/!transform/" +:+ targetRecordType p else url1).
Proof.
  unfold record. intros Hguard Hrun. cbv zeta in Hrun. rewrite Hguard in Hrun.
  apply bind_inv in Hrun as [(authHeader & w1 & Hsign & Hrun)|[(e & Hsign & ->)|[Hsign ->]]];
    apply sign_inv in Hsign as ([h Hh] & Hc1 & Hr1); try discriminate.
  match type of Hrun with bind (request ?o) _ _ = _ => set (options := o) in * end.
  assert (Hone : forall reply w3, calls w3 = calls w ++ [(options, reply)] ->
            exists options reply,
              calls w3 = calls w ++ [(options, reply)]
              /\ method options = methodMap (operation p)
              /\ url options
                 = VStr (let url0 := "https://" +:+ companyUrl c
                                       +:+ "/services/rest/record/v1/" +:+ recordType p in
                         let url1 :=
                           if includes idOperations (operation p)
                              && negb (String.eqb (recordId p) "")
                           then url0 +:+ "/" +:+ recordId p else url0 in
                         if String.eqb (operation p) "transform"
                         then url1 +:+ "/!transform/" +:+ targetRecordType p else url1)).
  { intros reply w3 E. exists options, reply. repeat split; trivial. }
  apply bind_inv in Hrun as [(response & w2 & Hreq & Hrun)|[(e & Hreq & ->)|[Hreq ->]]];
    apply request_inv in Hreq as (reply & Hc2 & Hr2 & Hreply);
    rewrite Hc1 in Hc2; try (now apply (Hone reply)).
  apply bind_inv in Hrun as [(rbody & w3 & Hb & Hrun)|[(e & Hb & ->)|[Hb ->]]];
    apply lift_inv in Hb as [-> _]; try (now apply (Hone reply)).
  apply bind_inv in Hrun as [(location & w3 & Hloc & Hrun)|[(e & Hloc & ->)|[Hloc ->]]].
  2,3: (destruct (String.eqb (operation p) "create"); try discriminate;
        apply bind_inv in Hloc as [(hdrs & w4 & Hh1 & Hloc)|[(e' & Hh1 & _)|[Hh1 _]]];
        apply lift_inv in Hh1 as [-> _]; try (now apply (Hone reply));
        destruct (truthy hdrs); try discriminate;
        apply lift_inv in Hloc as [-> _]; now apply (Hone reply)).
  assert (w3 = w2) as ->.
  { destruct (String.eqb (operation p) "create"); [|now injection Hloc as _ <-].
    apply bind_inv in Hloc as [(hdrs & w4 & Hh1 & Hloc)|[(e' & Hh1 & [=])|[_ [=]]]].
    apply lift_inv in Hh1 as [-> _]. destruct (truthy hdrs).
    - now apply lift_inv in Hloc as [-> _].
    - now injection Hloc as _ <-. }
  apply (Hone reply).
  destruct (truthy location).
  - destruct location; try (now injection Hrun as _ <-).
    destruct (idMatch s); apply push_inv in Hrun as [_ ->]; trivial.
  - now apply push_inv in Hrun as [_ ->].
Qed.

(** X3.  A transform with a record ID sends one request, with POST, to
    the path made of the record type, the identifier, [!transform] and the
    target type. *)
Lemma record_transform_request (c : Credentials) (p : Parameters) (i : nat)
    (w : World) out w' :
  operation p = "transform" ->
  recordId p <> "" ->
  record c p i w = (out, w') ->
  exists options reply,
    calls w' = calls w ++ [(options, reply)]
    /\ method options = VStr "POST"
    /\ url options
       = VStr ("https://" +:+ companyUrl c +:+ "/services/rest/record/v1/"
                 +:+ recordType p +:+ "/" +:+ recordId p
                 +:+ "/!transform/" +:+ targetRecordType p).
Proof.
  intros Hop Hid Hrun. apply String.eqb_neq in Hid.
  apply record_one_request in Hrun as (options & reply & Hc & Hm & Hu);
    [|now rewrite Hid].
  exists options, reply. rewrite Hm, Hu, Hop, Hid. repeat split; trivial.
  assert (Hin : includes idOperations "transform" = true) by (vm_compute; reflexivity).
  cbn. rewrite Hin. cbn. now rewrite !append_assoc.
Qed.

Lemma record_urls (c : Credentials) (p : Parameters) (i : nat) (w : World) out w' :
  record c p i w = (out, w') ->
  exists new, calls w' = calls w ++ new
              /\ Forall (fun call => url_on_host (companyUrl c) (url call.1)) new.
Proof.
  intros Hrun.
  destruct (String.eqb (recordId p) "" && includes idOperations (operation p)) eqn:Hguard.
  - unfold record in Hrun. cbv zeta in Hrun. rewrite Hguard in Hrun.
    injection Hrun as _ <-. exists []. now rewrite app_nil_r.
  - apply record_one_request in Hrun as (options & reply & Hc & _ & Hu); trivial.
    exists [(options, reply)]. split; trivial. repeat constructor. cbn [fst].
    rewrite Hu. cbv zeta.
    destruct (_ && _); destruct (String.eqb (operation p) "transform");
      rewrite ?append_assoc; eexists; reflexivity.
Qed.

(** the follow-up requests of the loop go where the next links point *)
Lemma suiteql_loop_follows (c : Credentials) (body : value) (fuel : nat) :
  forall (response allItems : value) (w : World) out w',
    suiteql_loop fuel c body response allItems w = (out, w') ->
    exists new, calls w' = calls w ++ new /\ follows_links response new.
Proof.
  induction fuel as [|fuel IH]; intros response allItems w out w' Hrun;
    apply suiteql_loop_inv in Hrun
      as [[_ ->]|[(-> & _)|(fuel' & links & nextLink & nextUrl & options & reply & w2
                            & Hfuel & Hlinks & Hfind & Hhref & Hurl & Hc & Hr & Hreply)]];
    try (exists []; rewrite app_nil_r; split; [reflexivity|constructor]);
    try discriminate.
  injection Hfuel as <-. rewrite <- Hurl in Hhref.
  destruct reply as [e|response'].
  - destruct Hreply as [_ ->]. eexists. split; [exact Hc|].
    econstructor; eassumption.
  - destruct (accumulate allItems response') as [e|allItems'].
    + destruct Hreply as [_ ->]. eexists. split; [exact Hc|].
      eapply follows_page; try eassumption. constructor.
    + apply IH in Hreply as (new & Hc' & Hnew).
      exists ((options, inr response') :: new).
      rewrite Hc', Hc, <- app_assoc. split; trivial.
      eapply follows_page; eassumption.
Qed.

Lemma suiteql_urls (fuel : nat) (c : Credentials) (p : Parameters) (i : nat)
    (w : World) out w' :
  suiteql fuel c p i w = (out, w') ->
  exists options reply later,
    calls w' = calls w ++ (options, reply) :: later
    /\ url_on_host (companyUrl c) (url options)
    /\ match reply with
       | inr response => follows_links response later
       | inl _ => later = []
       end.
Proof.
  unfold suiteql. intros Hrun. cbv zeta in Hrun.
  apply bind_inv in Hrun as [(authHeader & w1 & Hsign & Hrun)|[(e & Hsign & ->)|[Hsign ->]]];
    apply sign_inv in Hsign as ([h Hh] & Hc1 & Hr1); try discriminate.
  match type of Hrun with bind (request ?o) _ _ = _ => set (options := o) in * end.
  assert (Hurl : url_on_host (companyUrl c) (url options)).
  { subst options. cbn [url]. destruct (returnAll p);
      rewrite ?append_assoc; eexists; reflexivity. }
  apply bind_inv in Hrun as [(response & w2 & Hreq & Hrun)|[(e & Hreq & ->)|[Hreq ->]]];
    apply request_inv in Hreq as (reply & Hc2 & Hr2 & Hreply); rewrite Hc1 in Hc2.
  2:{ destruct reply; [|discriminate]. exists options, (inl e0), []. auto. }
  2:{ destruct reply; discriminate. }
  destruct reply as [?|r]; [discriminate|]. injection Hreply as <-.
  assert (Hone : forall w3, calls w3 = calls w2 ->
            exists options reply later,
              calls w3 = calls w ++ (options, reply) :: later
              /\ url_on_host (companyUrl c) (url options)
              /\ match reply with
                 | inr response => follows_links response later
                 | inl _ => later = []
                 end).
  { intros w3 E. exists options, (inr response), []. rewrite E.
    repeat split; trivial. constructor. }
  apply bind_inv in Hrun as [(items & w3 & Hit & Hrun)|[(e & Hit & ->)|[Hit ->]]];
    apply lift_inv in Hit as [-> _]; try (now apply Hone).
  apply bind_inv in Hrun as [(paginate & w3 & Hpag & Hrun)|[(e & Hpag & ->)|[Hpag ->]]].
  2,3: (destruct (returnAll p); try discriminate;
        apply bind_inv in Hpag as [(hm & w4 & Hhm & [=])|[(e' & Hhm & _)|[Hhm _]]];
        apply lift_inv in Hhm as [-> _]; now apply Hone).
  assert (w3 = w2) as ->.
  { destruct (returnAll p); [|now injection Hpag as _ <-].
    apply bind_inv in Hpag as [(hm & w4 & Hhm & Hpag)|[(e' & Hhm & [=])|[_ [=]]]].
    apply lift_inv in Hhm as [-> _]. now injection Hpag as _ <-. }
  assert (Hloop : forall fo w4,
            (if paginate
             then suiteql_loop fuel c (VObj {["q" := VStr (query p)]}) response
                               (js_or items (VArr []))
             else ret (response, js_or items (VArr []))) w2 = (fo, w4) ->
            forall w5, calls w5 = calls w4 ->
              exists options reply later,
                calls w5 = calls w ++ (options, reply) :: later
                /\ url_on_host (companyUrl c) (url options)
                /\ match reply with
                   | inr response => follows_links response later
                   | inl _ => later = []
                   end).
  { intros fo w4 Hfo w5 E. destruct paginate.
    - apply suiteql_loop_follows in Hfo as (new & Hn & Hfollows).
      exists options, (inr response), new. rewrite E, Hn, Hc2, <- app_assoc. auto.
    - injection Hfo as _ <-. now apply Hone. }
  apply bind_inv in Hrun as [(final & w4 & Hfin & Hrun)|[(e & Hfin & ->)|[Hfin ->]]];
    try (now apply (Hloop _ _ Hfin)).
  apply push_inv in Hrun as [_ Hc]. now apply (Hloop _ _ Hfin).
Qed.

(** C10, as the code has it.  The requests of a RESTlet call or file upload
    go to [restletCompanyUrl] when that credential is present and not
    empty, and to [companyUrl] otherwise.  The request of a Record
    operation and the first request of a SuiteQL run go to [companyUrl];
    each follow-up request of a SuiteQL run goes to the [href] of the next
    link of the reply before it. *)
Theorem request_hosts (fuel : nat) (resource : string) (c : Credentials)
    (item : InputItem) (p : Parameters) (i : nat) (w : World) out w' :
  process_item fuel resource c item p i w = (out, w') ->
  exists new,
    calls w' = calls w ++ new
    /\ (resource = "restlet" ->
        Forall (fun call =>
                  url_on_host (match restletCompanyUrl c with
                               | Some u => if String.eqb u "" then companyUrl c else u
                               | None => companyUrl c
                               end) (url call.1)) new)
    /\ (resource = "record" ->
        Forall (fun call => url_on_host (companyUrl c) (url call.1)) new)
    /\ (resource = "suiteql" ->
        exists options reply later,
          new = (options, reply) :: later
          /\ url_on_host (companyUrl c) (url options)
          /\ match reply with
             | inr response => follows_links response later
             | inl _ => later = []
             end).
Proof.
  unfold process_item. intros Hrun.
  destruct (String.eqb_spec resource "suiteql") as [->|Hq].
  { apply suiteql_urls in Hrun as (options & reply & later & Hc & Hurl & Hrest).
    exists ((options, reply) :: later). repeat split; trivial; try discriminate.
    intros _. eauto 6. }
  destruct (String.eqb_spec resource "record") as [->|Hr].
  { apply record_urls in Hrun as (new & Hc & Hall).
    exists new. repeat split; trivial; discriminate. }
  destruct (String.eqb_spec resource "restlet") as [->|Hl].
  { assert (Hgoal : exists new, calls w' = calls w ++ new
              /\ Forall (fun call => url_on_host (restletBaseUrl c) (url call.1)) new).
    { destruct (String.eqb (operation p) "call");
        [now apply restlet_call_urls in Hrun|].
      destruct (String.eqb (operation p) "uploadFile");
        [now apply uploadFile_urls in Hrun|].
      injection Hrun as _ <-. exists []. now rewrite app_nil_r. }
    destruct Hgoal as (new & Hc & Hall). exists new.
    repeat split; trivial; discriminate. }
  injection Hrun as _ <-. exists []. rewrite app_nil_r.
  repeat split; trivial; intros; congruence.
Qed.

(** ** SuiteQL without return-all pagination *)

Lemma combined_hasMore (response allItems : value) :
  prop (combined response allItems) "hasMore" = VBool false.
Proof. unfold combined. cbn [prop]. now rewrite lookup_insert_eq. Qed.

(** X2.  Without return-all pagination, a run whose first request is
    answered by a well-formed page sends no other request and emits one
    result: the fields of that page with [items] set to its items, an
    empty sequence when it has none, [count] to their number and [hasMore]
    to false, whatever the page said. *)
Theorem suiteql_single_page (fuel : nat) (c : Credentials) (p : Parameters) (i : nat)
    (w : World) out w' (response : value) (later : list (exn + value)) :
  returnAll p = false ->
  suiteql fuel c p i w = (out, w') ->
  map snd (calls w') = map snd (calls w) ++ inr response :: later ->
  well_formed_page response = true ->
  out = Ok tt
  /\ later = []
  /\ returnData w'
     = returnData w
         ++ [{| out_json :=
                  VObj (<["hasMore" := VBool false]>
                          (<["count" := VNum (Z.of_nat (length (items_of response)))]>
                             (<["items" := VArr (items_of response)]>
                                (spread response))));
                pairedItem := i |}].
Proof.
  intros Hall Hrun Htrace Hwf. unfold suiteql in Hrun. rewrite Hall in Hrun.
  apply bind_inv in Hrun as [(authHeader & w1 & Hsign & Hrun)|[(e & Hsign & ->)|[Hsign ->]]];
    apply sign_inv in Hsign as ([h Hh] & Hc1 & Hr1); try discriminate.
  match type of Hrun with bind (request ?o) _ _ = _ => set (options := o) in * end.
  apply bind_inv in Hrun as [(r & w2 & Hreq & Hrun)|[(e & Hreq & ->)|[Hreq ->]]];
    apply request_inv in Hreq as (reply & Hc2 & Hr2 & Hreply).
  2:{ destruct reply as [e'|]; [|discriminate].
      rewrite Hc2, Hc1, map_app in Htrace. apply app_inv_head in Htrace.
      discriminate. }
  2:{ destruct reply; discriminate. }
  destruct reply as [?|r']; [discriminate|]. injection Hreply as <-.
  assert (Hframe : calls w' = calls w2).
  { revert Hrun. generalize (query p). intros q Hrun.
    apply bind_inv in Hrun as [(items & w3 & Hit & Hrun)|[(e & Hit & ->)|[Hit ->]]];
      apply lift_inv in Hit as [-> _]; trivial.
    do 2 (erewrite bind_Ok in Hrun by reflexivity).
    rewrite push_eq in Hrun. now injection Hrun as _ <-. }
  rewrite Hframe, Hc2, Hc1, map_app in Htrace. apply app_inv_head in Htrace.
  cbn [map snd] in Htrace. injection Htrace as -> <-.
  destruct (first_items_well_formed response Hwf) as (items & Hitems & Hor).
  rewrite Hitems in Hrun. do 3 (erewrite bind_Ok in Hrun by reflexivity).
  cbn [fst snd] in Hrun. rewrite Hor, push_eq in Hrun. injection Hrun as <- <-.
  cbn [calls returnData]. rewrite Hr2, Hr1. now repeat split.
Qed.

End Properties.

(** ** The signer against the RFC 3986 construction *)

Lemma every_ascii (P : ascii -> bool) :
  forallb (fun n => P (ascii_of_nat n)) (seq 0 256) = true -> forall c, P c = true.
Proof.
  intros Hall c. rewrite forallb_forall in Hall.
  rewrite <- (ascii_nat_embedding c). apply Hall.
  apply in_seq. pose proof (nat_ascii_bounded c). lia.
Qed.

Lemma every_ascii2 (P : ascii -> ascii -> bool) :
  forallb (fun n => forallb (fun k => P (ascii_of_nat n) (ascii_of_nat k)) (seq 0 256))
          (seq 0 256) = true ->
  forall c d, P c d = true.
Proof.
  intros Hall c d.
  apply (every_ascii (fun d => P c d)).
  revert c. apply (every_ascii (fun c => forallb (fun k => P c (ascii_of_nat k)) (seq 0 256))).
  exact Hall.
Qed.

(** the encoders agree on every character but [! ' ( ) *] *)
Lemma escape_agree (c : ascii) :
  reserved_mark (code c) = false ->
  escape_with uriUnescaped c = escape_with rfc3986_unreserved c.
Proof.
  revert c.
  assert (Hall : forall c, (reserved_mark (code c)
                            || bool_decide (escape_with uriUnescaped c
                                            = escape_with rfc3986_unreserved c)) = true).
  { apply every_ascii. vm_compute. reflexivity. }
  intros c Hc. specialize (Hall c). rewrite Hc in Hall.
  now apply bool_decide_eq_true_1 in Hall.
Qed.

Lemma encode_agree (s : string) :
  plain s = true -> encodeURIComponent s = percentEncode_rfc3986 s.
Proof.
  unfold encodeURIComponent, percentEncode_rfc3986.
  induction s as [|c s IH]; [trivial|]. cbn [plain encode_with].
  intros Hs. apply andb_prop in Hs as [Hc Hs]. apply negb_true_iff in Hc.
  now rewrite IH, (escape_agree c Hc).
Qed.

(** the order of the code units is the order of the UTF-8 bytes *)
Lemma bytes_ltb_app (u v r1 r2 : list Z) :
  bytes_ltb u v = true ->
  bytes_leb (u ++ r1) (v ++ r2) = true /\ bytes_leb (v ++ r2) (u ++ r1) = false.
Proof.
  revert v. induction u as [|x u IH]; intros [|y v]; cbn; try discriminate.
  intros Hlt. apply orb_prop in Hlt as [Hxy|Hxy].
  - apply Z.ltb_lt in Hxy. split.
    + apply orb_true_intro. left. now apply Z.ltb_lt.
    + apply orb_false_intro; [apply Z.ltb_ge; lia|].
      apply andb_false_intro1. apply Z.eqb_neq. lia.
  - apply andb_prop in Hxy as [Hxy Huv]. apply Z.eqb_eq in Hxy as ->.
    destruct (IH v Huv) as [H1 H2]. rewrite H1, H2, Z.ltb_irrefl, Z.eqb_refl. auto.
Qed.

Lemma bytes_leb_app (u r1 r2 : list Z) :
  bytes_leb (u ++ r1) (u ++ r2) = bytes_leb r1 r2.
Proof.
  induction u as [|x u IH]; cbn; trivial.
  now rewrite Z.ltb_irrefl, Z.eqb_refl, IH.
Qed.

Lemma utf8_order (c d : ascii) :
  match Ascii.compare c d with
  | Eq => c = d
  | Lt => bytes_ltb (utf8 (code c)) (utf8 (code d)) = true
  | Gt => bytes_ltb (utf8 (code d)) (utf8 (code c)) = true
  end.
Proof.
  assert (Hall : forall c d,
            match Ascii.compare c d with
            | Eq => true
            | Lt => bytes_ltb (utf8 (code c)) (utf8 (code d))
            | Gt => bytes_ltb (utf8 (code d)) (utf8 (code c))
            end = true).
  { apply every_ascii2. vm_compute. reflexivity. }
  specialize (Hall c d).
  destruct (Ascii.compare c d) eqn:E; trivial. now apply Ascii.compare_eq_iff.
Qed.

Lemma utf8_nonempty (n : Z) : exists b bs, utf8 n = b :: bs.
Proof. unfold utf8. destruct (n <? 128); eauto. Qed.

Lemma string_le_bytewise (s t : string) :
  String.leb s t = bytes_leb (utf8_bytes s) (utf8_bytes t).
Proof.
  unfold String.leb. revert t.
  induction s as [|c s IH]; intros [|d t]; trivial.
  - cbn [String.compare utf8_bytes String.list_ascii_of_string flat_map].
    destruct (utf8_nonempty (code c)) as (b & bs & ->). reflexivity.
  - change (utf8_bytes (String c s)) with (utf8 (code c) ++ utf8_bytes s).
    change (utf8_bytes (String d t)) with (utf8 (code d) ++ utf8_bytes t).
    cbn [String.compare]. pose proof (utf8_order c d) as Hcd.
    destruct (Ascii.compare c d).
    + subst d. rewrite bytes_leb_app. apply IH.
    + now destruct (bytes_ltb_app _ _ (utf8_bytes s) (utf8_bytes t) Hcd) as [-> _].
    + now destruct (bytes_ltb_app _ _ (utf8_bytes t) (utf8_bytes s) Hcd) as [_ ->].
Qed.

(** merge sort only looks at the decisions of its order *)
Section SortExt.
Context {A : Type} (R R' : relation A).
Context `{!forall x y, Decision (R x y)} `{!forall x y, Decision (R' x y)}.
Hypothesis same : forall x y, R x y <-> R' x y.

Lemma list_merge_ext (l1 l2 : list A) : list_merge R l1 l2 = list_merge R' l1 l2.
Proof using same.
  revert l2. induction l1 as [|x l1 IH1]; intros l2.
  - now destruct l2.
  - induction l2 as [|y l2 IH2]; [reflexivity|]. cbn.
    destruct (decide (R x y)) as [r|r], (decide (R' x y)) as [r'|r'];
      try (exfalso; apply same in r || apply same in r'; contradiction).
    + now rewrite IH1.
    + f_equal. exact IH2.
Qed.

Lemma merge_list_to_stack_ext st (l : list A) :
  merge_list_to_stack R st l = merge_list_to_stack R' st l.
Proof using same.
  revert l. induction st as [|[l'|] st IH]; intros l; cbn; trivial.
  now rewrite list_merge_ext, IH.
Qed.

Lemma merge_stack_ext st : merge_stack R st = merge_stack R' st.
Proof using same.
  induction st as [|[l|] st IH]; cbn; trivial. now rewrite IH, list_merge_ext.
Qed.

Lemma merge_sort_ext (l : list A) : merge_sort R l = merge_sort R' l.
Proof using same.
  unfold merge_sort. generalize (@nil (option (list A))) as st.
  induction l as [|x l IH]; intros st; cbn.
  - apply merge_stack_ext.
  - now rewrite merge_list_to_stack_ext, IH.
Qed.
End SortExt.

Lemma sorted_keys_bytewise (l : list string) :
  merge_sort string_le l = merge_sort bytewise_le l.
Proof.
  apply merge_sort_ext. intros s t. unfold string_le, bytewise_le.
  now rewrite string_le_bytewise.
Qed.

Lemma plain_app (a b : string) : plain (a +:+ b) = plain a && plain b.
Proof.
  induction a as [|c a IH]; [reflexivity|].
  change (plain (String c (a +:+ b)) = plain (String c a) && plain b).
  cbn [plain]. now rewrite IH, andb_assoc.
Qed.

Lemma plain_escape (c : ascii) :
  reserved_mark (code c) = false -> plain (escape_with uriUnescaped c) = true.
Proof.
  assert (Hall : forall c, (reserved_mark (code c)
                            || plain (escape_with uriUnescaped c)) = true).
  { apply every_ascii. vm_compute. reflexivity. }
  intros Hc. specialize (Hall c). now rewrite Hc in Hall.
Qed.

Lemma plain_encode (s : string) :
  plain s = true -> plain (encodeURIComponent s) = true.
Proof.
  unfold encodeURIComponent. induction s as [|c s IH]; [trivial|].
  cbn [plain encode_with]. intros Hs. apply andb_prop in Hs as [Hc Hs].
  apply negb_true_iff in Hc. now rewrite plain_app, (plain_escape c Hc), IH.
Qed.

Lemma plain_join (l : list string) :
  Forall (fun s => plain s = true) l -> plain (join "&" l) = true.
Proof.
  unfold join. induction 1 as [|s l Hs Hl IH]; [reflexivity|].
  destruct l as [|t l]; [exact Hs|].
  change (plain (s +:+ "&" +:+ String.concat "&" (t :: l)) = true).
  now rewrite !plain_app, Hs, IH.
Qed.

Lemma sorted_keys_lookup (merged : gmap string string) (key : string) :
  key ∈ merge_sort bytewise_le (map fst (map_to_list merged)) ->
  exists v, merged !! key = Some v.
Proof.
  intros Hin. rewrite merge_sort_Permutation in Hin.
  apply list_elem_of_fmap in Hin as ([k v] & -> & Hkv).
  apply elem_of_map_to_list in Hkv. eauto.
Qed.

Section Agreement.
Context `{H : Host}.

(** X1.  On parameters, secrets and a base URL without [! ' ( ) *] the
    signature is the one of the RFC 3986 construction: the parameters
    sorted byte-wise by key, keys and values percent-encoded, joined with
    [&], and HMAC-SHA256 under the encoded secrets. *)
Theorem signature_agrees_on_plain (c : Credentials) (method baseUrl : string)
    (merged : gmap string string) :
  plain baseUrl = true ->
  plain (consumerSecret c) = true ->
  plain (tokenSecret c) = true ->
  (forall k v, merged !! k = Some v -> plain k = true /\ plain v = true) ->
  signature c method baseUrl merged = spec_signature c method baseUrl merged.
Proof.
  intros Hurl Hcs Hts Hparams.
  assert (Hsorted : sortedParams merged = spec_sortedParams merged).
  { unfold sortedParams, spec_sortedParams, sorted_keys.
    rewrite sorted_keys_bytewise. f_equal. apply map_ext_in. intros key Hin.
    apply list_elem_of_In, sorted_keys_lookup in Hin as (v & Hv). rewrite Hv. cbn [default from_option id].
    destruct (Hparams key v Hv) as [Hk Hpv].
    now rewrite (encode_agree key Hk), (encode_agree v Hpv). }
  assert (Hplain : plain (sortedParams merged) = true).
  { unfold sortedParams. apply plain_join. apply Forall_forall. intros s Hs.
    apply list_elem_of_fmap in Hs as (key & -> & Hin).
    unfold sorted_keys in Hin. rewrite sorted_keys_bytewise in Hin.
    apply sorted_keys_lookup in Hin as (v & Hv). rewrite Hv. cbn [default from_option id].
    destruct (Hparams key v Hv) as [Hk Hpv].
    now rewrite !plain_app, (plain_encode key Hk), (plain_encode v Hpv). }
  unfold signature, spec_signature, signingKey, spec_signingKey, baseString,
    spec_baseString.
  rewrite (encode_agree _ Hcs), (encode_agree _ Hts), (encode_agree _ Hurl),
    (encode_agree _ Hplain), Hsorted.
  reflexivity.
Qed.

End Agreement.

Lemma signature_agrees_on_plain_witness :
  plain "https://1234567.suitetalk.api.netsuite.com/services/rest/query/v1/suiteql" = true
  /\ signature creds "POST"
       "https://1234567.suitetalk.api.netsuite.com/services/rest/query/v1/suiteql"
       (merged_params creds "1700000000" "00000000000000000000000000000000"
                      [("limit", "1000")])
     = spec_signature creds "POST"
         "https://1234567.suitetalk.api.netsuite.com/services/rest/query/v1/suiteql"
         (merged_params creds "1700000000" "00000000000000000000000000000000"
                        [("limit", "1000")])
  /\ signature creds "POST"
       "https://1234567.suitetalk.api.netsuite.com/services/rest/query/v1/suiteql"
       (merged_params creds "1700000000" "00000000000000000000000000000000"
                      [("limit", "1000")])
     = "Hapti/Tx7DTuwy4tfCwUyJhiDIH3oeIGqQ1aPwwQ6TM=".
Proof.
  split; [reflexivity|]. split; [|vm_compute; reflexivity].
  apply (signature_agrees_on_plain (H := mock)); try reflexivity.
  intros k v Hkv.
  apply elem_of_map_to_list in Hkv.
  assert (Hall : forallb (fun kv => plain kv.1 && plain kv.2)
                   (map_to_list (merged_params creds "1700000000"
                                   "00000000000000000000000000000000"
                                   [("limit", "1000")])) = true)
    by (vm_compute; reflexivity).
  rewrite forallb_forall in Hall. apply list_elem_of_In, Hall in Hkv.
  now apply andb_prop in Hkv.
Defined.

Section Batch.
Context `{H : Host}.

(** ** What a step may emit *)

Lemma silent_ret {A} (a : A) : silent (ret a).
Proof. now intros w out w' [= _ <-]. Qed.

Lemma silent_throw {A} (e : exn) : silent (throw (A := A) e).
Proof. now intros w out w' [= _ <-]. Qed.

Lemma silent_diverge {A} : silent (diverge (A := A)).
Proof. now intros w out w' [= _ <-]. Qed.

Lemma silent_lift {A} (r : exn + A) : silent (lift r).
Proof. intros w out w' E. now apply lift_inv in E as [-> _]. Qed.

Lemma silent_request (options : RequestOptions) : silent (request options).
Proof. intros w out w' E. now apply request_inv in E as (reply & _ & Hr & _). Qed.

Lemma silent_sign (c : Credentials) (method baseUrl : string)
    (extra : list (string * string)) :
  silent (sign c method baseUrl extra).
Proof. intros w out w' E. now apply sign_inv in E as (_ & _ & Hr). Qed.

Lemma silent_getBinaryDataBuffer (i : nat) (name : string) :
  silent (getBinaryDataBuffer i name).
Proof.
  intros w out w'. unfold getBinaryDataBuffer.
  destruct (helpers_getBinaryDataBuffer i name (world_env w)) as [[e|b] e'];
    now intros [= _ <-].
Qed.

Lemma silent_bind {A B} (m : M A) (k : A -> M B) :
  silent m -> (forall a, silent (k a)) -> silent (bind m k).
Proof.
  intros Hm Hk w out w' E.
  apply bind_inv in E as [(a & w1 & Em & Ek)|[(e & Em & _)|[Em _]]].
  - rewrite (Hk _ _ _ _ Ek). eauto.
  - eauto.
  - eauto.
Qed.

Lemma silent_suiteql_loop (fuel : nat) (c : Credentials)
    (body response allItems : value) :
  silent (suiteql_loop fuel c body response allItems).
Proof. intros w out w' E. now apply suiteql_loop_frame in E as (new & _ & Hr). Qed.

Lemma emits_silent {A} (i : nat) (m : M A) : silent m -> emits_for i m.
Proof.
  intros Hm w out w' E. exists []. rewrite app_nil_r. split; [eauto|]. now split.
Qed.

Lemma emits_push (j : value) (i : nat) : emits_for i (push j i).
Proof.
  intros w out w'. rewrite push_eq. intros [= <- <-].
  eexists. split; [reflexivity|]. split; [now repeat constructor|discriminate].
Qed.

Lemma emits_bind {A B} (i : nat) (m : M A) (k : A -> M B) :
  silent m -> (forall a, emits_for i (k a)) -> emits_for i (bind m k).
Proof.
  intros Hm Hk w out w' E.
  apply bind_inv in E as [(a & w1 & Em & Ek)|[(e & Em & ->)|[Em ->]]].
  - rewrite <- (Hm _ _ _ Em). exact (Hk _ _ _ _ Ek).
  - exists []. rewrite app_nil_r. split; [eauto|]. now split.
  - exists []. rewrite app_nil_r. split; [eauto|]. now split.
Qed.

(** a step that may have emitted, followed by one that cannot throw *)
Lemma emits_then {A B} (i : nat) (m : M A) (k : A -> M B) :
  emits_for i m -> (forall a, emits_for i (k a)) -> (forall a, unfailing (k a)) ->
  emits_for i (bind m k).
Proof.
  intros Hm Hk Hu w out w' E.
  apply bind_inv in E as [(a & w1 & Em & Ek)|[(e & Em & ->)|[Em ->]]].
  - destruct (Hm _ _ _ Em) as (new1 & E1 & F1 & _).
    destruct (Hk _ _ _ _ Ek) as (new2 & E2 & F2 & _).
    exists (new1 ++ new2). rewrite E2, E1, app_assoc. split; [trivial|].
    split; [now apply Forall_app|].
    intros e ->. now destruct (Hu _ _ _ _ e Ek).
  - destruct (Hm _ _ _ Em) as (new & E1 & F1 & N1). exists new.
    rewrite (N1 e eq_refl) in *. now repeat split.
  - destruct (Hm _ _ _ Em) as (new & E1 & F1 & _). exists new. now repeat split.
Qed.

Lemma unfailing_ret {A} (a : A) : unfailing (ret a).
Proof. now intros w out w' e [= <- _]. Qed.

Lemma unfailing_push (j : value) (i : nat) : unfailing (push j i).
Proof. intros w out w' e. rewrite push_eq. now intros [= <- _]. Qed.

Lemma unfailing_push_aggregate (p : Parameters) (i : nat) (allResults : list value) :
  unfailing (push_aggregate p i allResults).
Proof.
  intros w out w' e E. now apply push_aggregate_inv in E as [-> _].
Qed.

Lemma emits_push_aggregate (p : Parameters) (i : nat) (allResults : list value) :
  emits_for i (push_aggregate p i allResults).
Proof.
  unfold push_aggregate. destruct (0 <? _).
  - apply emits_push.
  - apply emits_silent, silent_ret.
Qed.

Lemma emits_suiteql (fuel : nat) (c : Credentials) (p : Parameters) (i : nat) :
  emits_for i (suiteql fuel c p i).
Proof.
  unfold suiteql.
  apply emits_bind; [apply silent_sign|]. intros authHeader.
  apply emits_bind; [apply silent_request|]. intros response.
  apply emits_bind; [apply silent_lift|]. intros items.
  apply emits_bind.
  { destruct (returnAll p); [|apply silent_ret].
    apply silent_bind; [apply silent_lift|]. intros hasMore. apply silent_ret. }
  intros paginate.
  apply emits_bind; [|intros final; apply emits_push].
  destruct paginate; [apply silent_suiteql_loop|apply silent_ret].
Qed.

Lemma emits_record (c : Credentials) (p : Parameters) (i : nat) :
  emits_for i (record c p i).
Proof.
  unfold record. cbv zeta.
  destruct (String.eqb (recordId p) "" && includes idOperations (operation p));
    [apply emits_silent, silent_throw|].
  apply emits_bind; [apply silent_sign|]. intros authHeader.
  apply emits_bind; [apply silent_request|]. intros response.
  apply emits_bind; [apply silent_lift|]. intros rbody.
  apply emits_bind.
  { destruct (String.eqb (operation p) "create"); [|apply silent_ret].
    apply silent_bind; [apply silent_lift|]. intros hdrs.
    destruct (truthy hdrs); [apply silent_lift|apply silent_ret]. }
  intros location. destruct (truthy location); [|apply emits_push].
  destruct location; try apply emits_silent, silent_throw.
  destruct (idMatch s); apply emits_push.
Qed.

Lemma emits_restlet_loop (c : Credentials) (p : Parameters) (i : nat)
    (parsedBody : value) (fuel : nat) :
  forall (allResults : list value) (currentStart : value),
    emits_for i (restlet_loop fuel c p i parsedBody allResults currentStart).
Proof.
  induction fuel as [|fuel IH]; intros allResults currentStart;
    [apply emits_silent, silent_diverge|].
  rewrite restlet_loop_S.
  apply emits_bind; [apply silent_sign|]. intros authHeader.
  apply emits_bind; [apply silent_request|]. intros response.
  destruct (page_results response) as [results|].
  - destruct (0 <? _); [|apply emits_silent, silent_ret].
    destruct (_ <? pageSize p); [apply emits_silent, silent_ret|apply IH].
  - apply emits_then; [apply emits_push| |]; intros _.
    + apply emits_silent, silent_ret.
    + apply unfailing_ret.
Qed.

Lemma emits_restlet_call (fuel : nat) (c : Credentials) (p : Parameters) (i : nat) :
  emits_for i (restlet_call fuel c p i).
Proof.
  unfold restlet_call.
  apply emits_bind.
  { destruct (restletBody p); try apply silent_ret.
    destruct (JSON_parse s); [apply silent_throw|apply silent_ret]. }
  intros parsedBody. destruct (returnAll p).
  - apply emits_bind; [apply silent_lift|]. intros start. unfold restlet_paginate.
    apply emits_then; [apply emits_restlet_loop| |]; intros allResults.
    + apply emits_push_aggregate.
    + apply unfailing_push_aggregate.
  - apply emits_bind; [apply silent_sign|]. intros authHeader.
    apply emits_bind; [apply silent_request|]. intros response. apply emits_push.
Qed.

Lemma emits_uploadFile (c : Credentials) (item : InputItem) (p : Parameters)
    (i : nat) :
  emits_for i (uploadFile c item p i).
Proof.
  unfold uploadFile. cbv zeta.
  destruct (negb _); [apply emits_silent, silent_throw|].
  destruct (fileType (extension (fileName p))); [|apply emits_silent, silent_throw].
  apply emits_bind; [apply silent_getBinaryDataBuffer|]. intros fileBuffer.
  apply emits_bind; [apply silent_sign|]. intros authHeader.
  apply emits_bind; [apply silent_request|]. intros response. apply emits_push.
Qed.

Lemma emits_process_item (fuel : nat) (resource : string) (c : Credentials)
    (item : InputItem) (p : Parameters) (i : nat) :
  emits_for i (process_item fuel resource c item p i).
Proof.
  unfold process_item.
  destruct (String.eqb resource "suiteql"); [apply emits_suiteql|].
  destruct (String.eqb resource "record"); [apply emits_record|].
  destruct (String.eqb resource "restlet"); [|apply emits_silent, silent_throw].
  destruct (String.eqb (operation p) "call"); [apply emits_restlet_call|].
  destruct (String.eqb (operation p) "uploadFile"); [apply emits_uploadFile|].
  apply emits_silent, silent_throw.
Qed.

(** X7.  Whatever the processing of item [i] appends to the output is
    paired with item [i], and a processing that throws has appended
    nothing: no operation leaves a partial result behind an error. *)
Theorem process_item_emits (fuel : nat) (resource : string) (c : Credentials)
    (item : InputItem) (p : Parameters) (i : nat) (w : World) out w' :
  process_item fuel resource c item p i w = (out, w') ->
  exists new,
    returnData w' = returnData w ++ new
    /\ Forall (fun d => pairedItem d = i) new
    /\ (forall e, out = Throw e -> new = []).
Proof. apply emits_process_item. Qed.

(** ** The item loop *)

Lemma execute_items_cons (fuel : nat) (resource : string) (c : Credentials)
    (continueOnFail : bool) (item : InputItem) (p : Parameters)
    (rest : list (InputItem * Parameters)) (i : nat) (w : World) :
  execute_items fuel resource c continueOnFail ((item, p) :: rest) i w
  = match process_item fuel resource c item p i w with
    | (Ok _, w') => execute_items fuel resource c continueOnFail rest (S i) w'
    | (Throw error, w') =>
        if continueOnFail then
          execute_items fuel resource c continueOnFail rest (S i)
            {| world_env := world_env w'; calls := calls w';
               returnData := returnData w' ++ [error_record error i] |}
        else (Throw (NodeOperationError (message error)), w')
    | (OutOfFuel, w') => (OutOfFuel, w')
    end.
Proof.
  cbn [execute_items].
  destruct (process_item fuel resource c item p i w) as [[[]|error|] w']; trivial.
Qed.

Lemma execute_items_app (fuel : nat) (resource : string) (c : Credentials)
    (continueOnFail : bool) (before after : list (InputItem * Parameters)) :
  forall (i : nat) (w : World),
    execute_items fuel resource c continueOnFail (before ++ after) i w
    = bind (execute_items fuel resource c continueOnFail before i)
           (fun _ => execute_items fuel resource c continueOnFail after
                       (i + length before)) w.
Proof.
  induction before as [|[item p] before IH]; intros i w.
  - cbn [app length execute_items]. unfold bind, ret. now rewrite Nat.add_0_r.
  - cbn [app length]. unfold bind in *. rewrite !execute_items_cons.
    destruct (process_item fuel resource c item p i w) as [[[]|error|] w']; trivial.
    + rewrite IH. now replace (S i + length before)%nat with (i + S (length before))%nat by lia.
    + destruct continueOnFail; trivial.
      rewrite IH. now replace (S i + length before)%nat with (i + S (length before))%nat by lia.
Qed.

Lemma execute_items_groups (fuel : nat) (resource : string) (c : Credentials)
    (continueOnFail : bool) (items : list (InputItem * Parameters)) :
  forall (i : nat) (w : World) out w',
    execute_items fuel resource c continueOnFail items i w = (out, w') ->
    exists groups,
      returnData w' = returnData w ++ concat groups
      /\ (length groups <= length items)%nat
      /\ (forall a, out = Ok a -> length groups = length items)
      /\ (forall k g, groups !! k = Some g ->
                      Forall (fun d => pairedItem d = (i + k)%nat) g).
Proof.
  induction items as [|[item p] rest IH]; intros i w out w' E.
  - injection E as <- <-. exists []. cbn [concat length]. rewrite app_nil_r.
    repeat split; trivial. intros k g Hk. now destruct k.
  - rewrite execute_items_cons in E.
    destruct (process_item fuel resource c item p i w) as [[[]|error|] w1] eqn:Ep;
      destruct (emits_process_item _ _ _ _ _ _ _ _ _ Ep) as (new & E1 & F1 & N1).
    + destruct (IH _ _ _ _ E) as (groups & E2 & L2 & O2 & F2).
      exists (new :: groups). cbn [concat length]. rewrite E2, E1, app_assoc.
      repeat split; trivial; [lia|intros a Ha; now rewrite (O2 a Ha)|].
      intros [|k] g Hk; cbn in Hk.
      * injection Hk as <-. now rewrite Nat.add_0_r.
      * replace (i + S k)%nat with (S i + k)%nat by lia. eauto.
    + rewrite (N1 error eq_refl), app_nil_r in E1. destruct continueOnFail.
      * destruct (IH _ _ _ _ E) as (groups & E2 & L2 & O2 & F2).
        exists ([error_record error i] :: groups). cbn [concat length returnData] in *.
        rewrite E2, E1, <- app_assoc.
        repeat split; trivial; [lia|intros a Ha; now rewrite (O2 a Ha)|].
        intros [|k] g Hk; cbn in Hk.
        -- injection Hk as <-. rewrite Nat.add_0_r. now repeat constructor.
        -- replace (i + S k)%nat with (S i + k)%nat by lia. eauto.
      * injection E as <- <-. exists []. cbn [concat length]. rewrite app_nil_r.
        repeat split; trivial; [lia|discriminate|].
        intros k g Hk. now destruct k.
    + injection E as <- <-. exists [new]. cbn [concat length]. rewrite app_nil_r.
      repeat split; trivial; [lia|discriminate|].
      intros [|k] g Hk; cbn in Hk; [|now destruct k].
      injection Hk as <-. now rewrite Nat.add_0_r.
Qed.

(** X8.  The output of [execute] is laid out item by item: it is the
    concatenation of one group of records per processed item, the group of
    item [k] paired with [k]; a run that returns has a group for every
    item and returns that output, passed through [returnJsonArray], as its
    single branch. *)
Theorem execute_output_grouped (fuel : nat) (resource : string) (c : Credentials)
    (continueOnFail : bool) (items : list (InputItem * Parameters)) (e : env)
    out (w : World) :
  execute fuel resource c continueOnFail items e = (out, w) ->
  exists groups,
    returnData w = concat groups
    /\ (length groups <= length items)%nat
    /\ (forall k g, groups !! k = Some g -> Forall (fun d => pairedItem d = k) g)
    /\ (forall branches, out = Ok branches ->
          branches = [helpers_returnJsonArray (returnData w)]
          /\ length groups = length items).
Proof.
  unfold execute.
  destruct (execute_items fuel resource c continueOnFail items 0 (initial e))
    as [[[]|error|] w1] eqn:E; intros [= <- <-];
    destruct (execute_items_groups _ _ _ _ _ _ _ _ _ E) as (groups & E1 & L1 & O1 & F1);
    exists groups; cbn [initial returnData app] in E1;
    (split; [exact E1|]); (split; [exact L1|]); (split; [exact F1|]);
    intros branches [= <-]. eauto.
Qed.

Lemma execute_items_continue (fuel : nat) (resource : string) (c : Credentials)
    (items : list (InputItem * Parameters)) :
  forall (i : nat) (w : World) out w' error,
    execute_items fuel resource c true items i w = (out, w') -> out <> Throw error.
Proof.
  induction items as [|[item p] rest IH]; intros i w out w' error E.
  - now injection E as <- _.
  - rewrite execute_items_cons in E.
    destruct (process_item fuel resource c item p i w) as [[[]|error'|] w1]; eauto.
    now injection E as <- _.
Qed.

(** X9.  With continue-on-fail set, [execute] never throws: whatever goes
    wrong while an item is processed, the run goes on to the next item, and
    it ends by returning its output (or, in this model, runs out of fuel
    inside a pagination loop). *)
Theorem execute_continueOnFail_never_throws (fuel : nat) (resource : string)
    (c : Credentials) (items : list (InputItem * Parameters)) (e : env) :
  exists w,
    execute fuel resource c true items e
    = (Ok [helpers_returnJsonArray (returnData w)], w)
    \/ execute fuel resource c true items e = (OutOfFuel, w).
Proof.
  unfold execute.
  destruct (execute_items fuel resource c true items 0 (initial e))
    as [[[]|error|] w] eqn:E; eauto.
  now destruct (execute_items_continue _ _ _ _ _ _ _ _ error E).
Qed.

(** X10.  When the items before item [n] are processed and item [n]
    throws, a run without continue-on-fail stops there, with the same
    message wrapped in a [NodeOperationError] and no request made for a
    later item; a run with continue-on-fail appends exactly one record
    for item [n], [{error: message}], and goes on with item [n + 1]. *)
Theorem execute_items_failure (fuel : nat) (resource : string) (c : Credentials)
    (continueOnFail : bool) (before after : list (InputItem * Parameters))
    (item : InputItem) (p : Parameters) (w w1 w2 : World) (error : exn) :
  execute_items fuel resource c continueOnFail before 0 w = (Ok tt, w1) ->
  process_item fuel resource c item p (length before) w1 = (Throw error, w2) ->
  execute_items fuel resource c continueOnFail (before ++ (item, p) :: after) 0 w
  = if continueOnFail then
      execute_items fuel resource c continueOnFail after (S (length before))
        {| world_env := world_env w2; calls := calls w2;
           returnData := returnData w1
                           ++ [{| out_json := VObj {[ "error" := VStr (message error) ]};
                                  pairedItem := length before |}] |}
    else (Throw (NodeOperationError (message error)), w2).
Proof.
  intros Ebefore Eitem. rewrite execute_items_app. unfold bind. rewrite Ebefore.
  rewrite execute_items_cons. cbn [Nat.add]. rewrite Eitem.
  destruct (emits_process_item _ _ _ _ _ _ _ _ _ Eitem) as (new & E1 & _ & N1).
  rewrite (N1 error eq_refl), app_nil_r in E1. now rewrite E1.
Qed.

(** the message of an unsupported resource *)
Lemma process_item_unsupported (fuel : nat) (resource : string) (c : Credentials)
    (item : InputItem) (p : Parameters) (i : nat) (w : World) :
  resource ∉ ["suiteql"; "record"; "restlet"] ->
  process_item fuel resource c item p i w
  = (Throw (NodeOperationError ("The resource " +:+ dquote +:+ resource +:+ dquote
                                  +:+ " is not supported.")), w).
Proof.
  intros Hr. unfold process_item.
  destruct (String.eqb_spec resource "suiteql") as [->|_]; [set_solver|].
  destruct (String.eqb_spec resource "record") as [->|_]; [set_solver|].
  destruct (String.eqb_spec resource "restlet") as [->|_]; [set_solver|].
  reflexivity.
Qed.

Lemma execute_items_unsupported (fuel : nat) (resource : string) (c : Credentials)
    (items : list (InputItem * Parameters)) :
  resource ∉ ["suiteql"; "record"; "restlet"] ->
  forall (i : nat) (w : World),
    execute_items fuel resource c true items i w
    = (Ok tt,
       {| world_env := world_env w; calls := calls w;
          returnData :=
            returnData w
              ++ imap (fun k _ =>
                         error_record
                           (NodeOperationError
                              ("The resource " +:+ dquote +:+ resource +:+ dquote
                                 +:+ " is not supported.")) (i + k))
                      items |}).
Proof.
  intros Hr. induction items as [|[item p] rest IH]; intros i w.
  - cbn [execute_items imap]. rewrite app_nil_r. now destruct w.
  - rewrite execute_items_cons, (process_item_unsupported _ _ _ _ _ _ _ Hr), IH.
    cbn [world_env calls returnData imap]. rewrite <- app_assoc, Nat.add_0_r.
    cbn [app]. do 4 f_equal. apply imap_ext. intros k x _. cbn. f_equal. lia.
Qed.

(** X11.  A resource other than [suiteql], [record] and [restlet] makes no
    request for any item.  With continue-on-fail the run returns one
    record per item, [{error: 'The resource "r" is not supported.'}],
    paired with it; without, a non-empty batch throws that message. *)
Theorem execute_unsupported_resource (fuel : nat) (resource : string)
    (c : Credentials) (continueOnFail : bool)
    (items : list (InputItem * Parameters)) (e : env) :
  resource ∉ ["suiteql"; "record"; "restlet"] ->
  let msg := "The resource " +:+ dquote +:+ resource +:+ dquote
               +:+ " is not supported." in
  let records :=
    imap (fun k _ => {| out_json := VObj {[ "error" := VStr msg ]};
                        pairedItem := k |}) items in
  execute fuel resource c continueOnFail items e
  = if continueOnFail then
      (Ok [helpers_returnJsonArray records],
       {| world_env := e; calls := []; returnData := records |})
    else match items with
         | [] => (Ok [helpers_returnJsonArray []], initial e)
         | _ :: _ => (Throw (NodeOperationError msg), initial e)
         end.
Proof.
  intros Hr msg records. unfold execute. destruct continueOnFail.
  - now rewrite (execute_items_unsupported _ _ _ _ Hr).
  - destruct items as [|[item p] rest]; [reflexivity|].
    now rewrite execute_items_cons, (process_item_unsupported _ _ _ _ _ _ _ Hr).
Qed.

End Batch.

(** ** [split]: the pieces of a string *)

Lemma split_on_nonempty (sep : ascii) (s : string) : split_on sep s <> [].
Proof.
  destruct s as [|c s]; cbn [split_on]; [discriminate|].
  destruct (Ascii.eqb c sep); [discriminate|]. now destruct (split_on sep s).
Qed.

Lemma split_on_cons (sep c : ascii) (s : string) :
  split_on sep (String c s)
  = if Ascii.eqb c sep then EmptyString :: split_on sep s
    else String c (hd EmptyString (split_on sep s)) :: tl (split_on sep s).
Proof.
  cbn [split_on]. destruct (Ascii.eqb c sep); trivial.
  pose proof (split_on_nonempty sep s). now destruct (split_on sep s).
Qed.

(** a string without the separator is its own single piece *)
Lemma split_on_whole (sep : ascii) (s : string) :
  occurs sep s = false -> split_on sep s = [s].
Proof.
  induction s as [|c s IH]; [reflexivity|]. cbn [occurs]. intros Ho.
  apply orb_false_iff in Ho as [Hc Hs]. rewrite split_on_cons, Hc, (IH Hs). reflexivity.
Qed.

(** the piece after the last separator *)
Lemma split_on_last (sep : ascii) (prefix last : string) :
  occurs sep last = false ->
  split_on sep (prefix +:+ String sep last) = split_on sep prefix ++ [last].
Proof.
  intros Ho. induction prefix as [|c prefix IH].
  - change (EmptyString +:+ String sep last) with (String sep last).
    now rewrite split_on_cons, Ascii.eqb_refl, (split_on_whole _ _ Ho).
  - change (String c prefix +:+ String sep last)
      with (String c (prefix +:+ String sep last)).
    rewrite !split_on_cons, IH. destruct (Ascii.eqb c sep); [reflexivity|].
    pose proof (split_on_nonempty sep prefix). now destruct (split_on sep prefix).
Qed.

(** no piece holds the separator *)
Lemma split_on_pieces (sep : ascii) (s : string) :
  Forall (fun piece => occurs sep piece = false) (split_on sep s).
Proof.
  induction s as [|c s IH]; [now repeat constructor|].
  rewrite split_on_cons. destruct (Ascii.eqb c sep) eqn:Hc; [now constructor|].
  pose proof (split_on_nonempty sep s).
  destruct (split_on sep s) as [|piece pieces]; [contradiction|].
  inversion IH as [|? ? Hp Hps]; subst. constructor; trivial.
  cbn [hd occurs]. now rewrite Hc.
Qed.

(** [s.split(sep).join(sep)] is [s] *)
Lemma join_split_on (sep : ascii) (s : string) :
  join (str1 sep) (split_on sep s) = s.
Proof.
  induction s as [|c s IH]; [reflexivity|].
  rewrite split_on_cons. pose proof (split_on_nonempty sep s) as Hne.
  destruct (Ascii.eqb_spec c sep) as [->|_].
  - destruct (split_on sep s) as [|piece pieces]; [contradiction|].
    unfold join in *. cbn [String.concat] in *. now rewrite IH.
  - destruct (split_on sep s) as [|piece pieces]; [contradiction|].
    unfold join in *. cbn [hd tl String.concat] in *.
    destruct pieces; cbn in *; now rewrite <- IH.
Qed.

Lemma join_snoc (sep : string) (pieces : list string) (last : string) :
  pieces <> [] ->
  join sep (pieces ++ [last]) = join sep pieces +:+ sep +:+ last.
Proof.
  unfold join. induction pieces as [|piece pieces IH]; [contradiction|]. intros _.
  destruct pieces as [|piece' pieces].
  - reflexivity.
  - change (String.concat sep ((piece :: piece' :: pieces) ++ [last]))
      with (piece +:+ sep +:+ String.concat sep ((piece' :: pieces) ++ [last])).
    rewrite IH by discriminate.
    change (String.concat sep (piece :: piece' :: pieces))
      with (piece +:+ sep +:+ String.concat sep (piece' :: pieces)).
    now rewrite !append_assoc.
Qed.

(** the text after the last slash is what the match captures *)
Lemma idMatch_last (prefix id : string) :
  id <> "" -> occurs "/" id = false -> idMatch (prefix +:+ "/" +:+ id) = Some id.
Proof.
  intros Hne Hslash. unfold idMatch.
  change (prefix +:+ "/" +:+ id) with (prefix +:+ String "/" id).
  rewrite (split_on_last _ _ _ Hslash), rev_app_distr. cbn [rev app].
  pose proof (split_on_nonempty "/" prefix) as Hp.
  destruct (rev (split_on "/" prefix)) as [|seg segs] eqn:Hrev.
  - apply (f_equal (@rev string)) in Hrev. now rewrite rev_involutive in Hrev.
  - destruct (String.eqb_spec id ""); [contradiction|reflexivity].
Qed.

(** X12.  [idMatch], the embedding of [location.match(/\/([^\/]+)$/)],
    yields [id] exactly when the location is some prefix, a slash, and the
    non-empty, slash-free [id]: the identifier is the text after the last
    slash, and a location that ends in a slash or has none yields nothing. *)
Theorem idMatch_spec (location id : string) :
  idMatch location = Some id
  <-> id <> "" /\ occurs "/" id = false
      /\ exists prefix, location = prefix +:+ "/" +:+ id.
Proof.
  split.
  - unfold idMatch.
    destruct (rev (split_on "/" location)) as [|seg [|seg' segs]] eqn:Hrev;
      try discriminate.
    destruct (String.eqb_spec seg "") as [|Hne]; [discriminate|]. intros [= ->].
    apply (f_equal (@rev string)) in Hrev. rewrite rev_involutive in Hrev.
    cbn [rev] in Hrev. rewrite <- app_assoc in Hrev. cbn [app] in Hrev.
    split; [trivial|]. split.
    + pose proof (split_on_pieces "/" location) as Hp. rewrite Hrev in Hp.
      apply Forall_app in Hp as [_ Hp]. inversion Hp as [|? ? _ Hid]; subst.
      now inversion Hid.
    + exists (join "/" (rev segs ++ [seg'])).
      rewrite <- (join_split_on "/" location) at 1. rewrite Hrev.
      change (rev segs ++ [seg'; id]) with (rev segs ++ [seg'] ++ [id]).
      rewrite app_assoc. apply join_snoc. now destruct (rev segs).
  - intros (Hne & Hslash & prefix & ->). now apply idMatch_last.
Qed.

(** X13.  The extension the upload reads off a file name is the lower-cased
    text after its last dot, and the whole lower-cased name when it has no
    dot: a file called [PDF] counts as a PDF. *)
Theorem extension_spec (ext : string) :
  occurs "." ext = false ->
  extension ext = toLowerCase ext
  /\ forall stem, extension (stem +:+ "." +:+ ext) = toLowerCase ext.
Proof.
  intros Hdot. unfold extension. split.
  - now rewrite (split_on_whole _ _ Hdot).
  - intros stem. change (stem +:+ "." +:+ ext) with (stem +:+ String "." ext).
    now rewrite (split_on_last _ _ _ Hdot), last_last.
Qed.

Section Operations.
Context `{H : Host}.

(** ** Record: the request and what becomes of its response *)

Lemma record_run (c : Credentials) (p : Parameters) (i : nat) (w : World) :
  (String.eqb (recordId p) "" && includes idOperations (operation p)) = false ->
  exists authHeader w1 options,
    calls w1 = calls w /\ returnData w1 = returnData w
    /\ headers options = json_headers authHeader true
    /\ method options = methodMap (operation p)
    /\ body options = (if includes ["get"] (operation p) then VUndef else recordBody p)
    /\ url options
       = VStr (let url0 := "https://" +:+ companyUrl c +:+ "/services/rest/record/v1/"
                             +:+ recordType p in
               let url1 :=
                 if includes idOperations (operation p)
                    && negb (String.eqb (recordId p) "")
                 then url0 +:+ "/" +:+ recordId p else url0 in
               if String.eqb (operation p) "transform"
               then url1 +:+ "/!transform/" +:+ targetRecordType p else url1)
    /\ qs options = [] /\ json options = true
    /\ resolveWithFullResponse options = true
    /\ record c p i w = bind (request options) (record_response p i) w1.
Proof.
  intros Hguard. unfold record. cbv zeta. rewrite Hguard.
  match goal with |- context [sign ?c ?m ?u ?x] =>
    destruct (sign_Ok c m u x w) as (authHeader & w1 & Hsign & Hc & Hr) end.
  rewrite (bind_Ok _ _ _ _ _ Hsign).
  match goal with |- context [request ?o] => exists authHeader, w1, o end.
  now repeat split.
Qed.

Lemma record_response_inv (p : Parameters) (i : nat) (response : value)
    (w : World) out w' :
  record_response p i response w = (out, w') -> calls w' = calls w.
Proof.
  unfold record_response. intros E.
  apply bind_inv in E as [(rbody & w1 & E1 & E)|[(e & E1 & _)|[E1 _]]];
    apply lift_inv in E1 as [-> _]; trivial.
  apply bind_inv in E as [(location & w2 & E2 & E)|[(e & E2 & _)|[E2 _]]].
  - assert (w2 = w) as ->.
    { destruct (String.eqb (operation p) "create"); [|now injection E2 as _ <-].
      apply bind_inv in E2 as [(hdrs & w3 & E3 & E2)|[(e & E3 & [=])|[_ [=]]]].
      apply lift_inv in E3 as [-> _].
      destruct (truthy hdrs); [now apply lift_inv in E2 as [-> _]|now injection E2 as _ <-]. }
    destruct (truthy location); [|now apply push_inv in E as [_ ->]].
    destruct location; try (now injection E as _ <-).
    destruct (idMatch s); now apply push_inv in E as [_ ->].
  - destruct (String.eqb (operation p) "create"); [|discriminate].
    apply bind_inv in E2 as [(hdrs & w3 & E3 & E2)|[(e' & E3 & _)|[E3 _]]];
      apply lift_inv in E3 as [-> _]; trivial.
    destruct (truthy hdrs); [now apply lift_inv in E2 as [-> _]|discriminate].
  - destruct (String.eqb (operation p) "create"); [|discriminate].
    apply bind_inv in E2 as [(hdrs & w3 & E3 & E2)|[(e' & E3 & _)|[E3 _]]];
      apply lift_inv in E3 as [-> _]; trivial.
    destruct (truthy hdrs); [now apply lift_inv in E2 as [-> _]|discriminate].
Qed.

(** the run of a record operation that passes the identifier check: one
    request, then the handling of its reply *)
Lemma record_inv (c : Credentials) (p : Parameters) (i : nat) (w : World) out w' :
  (String.eqb (recordId p) "" && includes idOperations (operation p)) = false ->
  record c p i w = (out, w') ->
  exists authHeader options reply w2,
    calls w' = calls w ++ [(options, reply)]
    /\ calls w2 = calls w' /\ returnData w2 = returnData w
    /\ headers options = json_headers authHeader true
    /\ method options = methodMap (operation p)
    /\ body options = (if includes ["get"] (operation p) then VUndef else recordBody p)
    /\ url options
       = VStr (let url0 := "https://" +:+ companyUrl c +:+ "/services/rest/record/v1/"
                             +:+ recordType p in
               let url1 :=
                 if includes idOperations (operation p)
                    && negb (String.eqb (recordId p) "")
                 then url0 +:+ "/" +:+ recordId p else url0 in
               if String.eqb (operation p) "transform"
               then url1 +:+ "/!transform/" +:+ targetRecordType p else url1)
    /\ qs options = [] /\ json options = true
    /\ resolveWithFullResponse options = true
    /\ match reply with
       | inl e => out = Throw e /\ w' = w2
       | inr response => record_response p i response w2 = (out, w')
       end.
Proof.
  intros Hguard E.
  destruct (record_run c p i w Hguard)
    as (authHeader & w1 & options & Hc1 & Hr1 & Hh & Hm & Hb & Hu & Hq & Hj & Hf & Erun).
  rewrite Erun in E. exists authHeader, options.
  apply bind_inv in E as [(response & w2 & Ereq & E)|[(e & Ereq & ->)|[Ereq ->]]];
    apply request_inv in Ereq as (reply & Hc2 & Hr2 & Hreply).
  - destruct reply as [|r]; [discriminate|]. injection Hreply as <-.
    exists (inr response), w2.
    rewrite (record_response_inv _ _ _ _ _ _ E), Hc2, Hc1, Hr2, Hr1. now repeat split.
  - destruct reply as [e'|]; [|discriminate]. injection Hreply as <-.
    exists (inl e), w'. rewrite Hc2, Hc1, Hr2, Hr1. now repeat split.
  - destruct reply; discriminate.
Qed.

(** X14.  A get, create, update, patch or post that passes the identifier
    check sends exactly one request: with the method of the operation
    (GET, POST, PUT, PATCH, POST), to the record type's URL followed by the
    record identifier, except for a create, whose URL never carries the
    identifier; with the body parameter, except for a get, which sends no
    body; asking for the full response, with the [Prefer: transient]
    header. *)
Theorem record_request (c : Credentials) (p : Parameters) (i : nat) (w : World)
    out w' (m : string) :
  (operation p, m) ∈ [("get", "GET"); ("create", "POST"); ("update", "PUT");
                      ("patch", "PATCH"); ("post", "POST")] ->
  operation p = "create" \/ recordId p <> "" ->
  record c p i w = (out, w') ->
  exists authHeader options reply,
    calls w' = calls w ++ [(options, reply)]
    /\ method options = VStr m
    /\ url options
       = VStr (let base := "https://" +:+ companyUrl c +:+ "/services/rest/record/v1/"
                             +:+ recordType p in
               if bool_decide (operation p = "create") then base
               else base +:+ "/" +:+ recordId p)
    /\ body options = (if bool_decide (operation p = "get") then VUndef else recordBody p)
    /\ headers options = [("Authorization", authHeader);
                          ("Content-Type", "application/json");
                          ("Prefer", "transient")]
    /\ qs options = [] /\ json options = true
    /\ resolveWithFullResponse options = true.
Proof.
  intros Hop Hid E.
  assert (Hguard : (String.eqb (recordId p) "" && includes idOperations (operation p))
                   = false).
  { destruct Hid as [Hcreate|Hid].
    - rewrite Hcreate. apply andb_false_r.
    - destruct (String.eqb_spec (recordId p) ""); [contradiction|reflexivity]. }
  destruct (record_inv c p i w out w' Hguard E)
    as (authHeader & options & reply & w2 & Hc & _ & _ & Hh & Hm & Hb & Hu & Hq & Hj & Hf & _).
  exists authHeader, options, reply. rewrite Hm, Hu, Hb, Hh.
  assert (Hne : String.eqb (recordId p) "" = false \/ operation p = "create").
  { destruct Hid as [Hcreate|Hid]; [now right|left].
    destruct (String.eqb_spec (recordId p) ""); [contradiction|reflexivity]. }
  repeat (apply elem_of_cons in Hop as [[= Hop ->]|Hop]);
    [..|now apply elem_of_nil in Hop];
    rewrite Hop in *; (split; [exact Hc|]);
    (destruct Hne as [->|[=]] || destruct Hne as [->|_] || idtac);
    now repeat split.
Qed.

Lemma record_response_located (p : Parameters) (i : nat)
    (r h : gmap string value) (loc : string) (w : World) :
  operation p = "create" ->
  r !! "headers" = Some (VObj h) ->
  h !! "location" = Some (VStr loc) ->
  loc <> "" ->
  record_response p i (VObj r) w
  = push (match idMatch loc with
          | Some id =>
              VObj (<["location" := VStr loc]>
                      (<["id" := VStr id]>
                         (spread (js_or (prop (VObj r) "body") (VObj ∅)))))
          | None => js_or (prop (VObj r) "body") (VObj ∅)
          end) i w.
Proof.
  intros Hop Hh Hl Hne. unfold record_response. rewrite Hop, !get_obj.
  erewrite bind_Ok by reflexivity. cbn [prop]. rewrite Hh. cbn [default from_option id].
  erewrite bind_Ok; [|cbn [String.eqb Ascii.eqb Bool.eqb]; erewrite bind_Ok by reflexivity;
                       cbn [truthy get]; rewrite Hl; reflexivity].
  cbn [default from_option id truthy].
  destruct (String.eqb_spec loc ""); [contradiction|]. cbn [negb].
  now destruct (idMatch loc).
Qed.

(** X15.  A create whose response carries a [Location] header that is a
    prefix, a slash and a non-empty, slash-free [id] emits the response
    body (or [{}] when the body is empty) with [id] set to that trailing
    segment and [location] to the whole header. *)
Theorem record_create_id (c : Credentials) (p : Parameters) (i : nat) (w : World)
    out w' (options : RequestOptions) (r h : gmap string value)
    (prefix id : string) :
  operation p = "create" ->
  record c p i w = (out, w') ->
  calls w' = calls w ++ [(options, inr (VObj r))] ->
  r !! "headers" = Some (VObj h) ->
  h !! "location" = Some (VStr (prefix +:+ "/" +:+ id)) ->
  id <> "" ->
  occurs "/" id = false ->
  out = Ok tt
  /\ returnData w'
     = returnData w
         ++ [{| out_json :=
                  VObj (<["location" := VStr (prefix +:+ "/" +:+ id)]>
                          (<["id" := VStr id]>
                             (spread (js_or (default VUndef (r !! "body")) (VObj ∅)))));
                pairedItem := i |}].
Proof.
  intros Hop E Hcalls Hh Hl Hid Hslash.
  assert (Hguard : (String.eqb (recordId p) "" && includes idOperations (operation p))
                   = false) by (rewrite Hop; apply andb_false_r).
  destruct (record_inv c p i w out w' Hguard E)
    as (authHeader & options' & reply & w2 & Hc & _ & Hr & _ & _ & _ & _ & _ & _ & _ & Hreply).
  rewrite Hc in Hcalls. apply app_inv_head in Hcalls. injection Hcalls as _ ->.
  pose proof (idMatch_last prefix id Hid Hslash) as Hm.
  rewrite (record_response_located p i r h _ w2 Hop Hh Hl), Hm, push_eq in Hreply.
  - injection Hreply as <- <-. cbn [returnData]. now rewrite Hr.
  - intros Hempty. now rewrite Hempty in Hm.
Qed.

(** X16.  In every other case (an operation other than create, a response
    without headers, or headers without a location) the record branch
    emits the response body as it is, and [{}] when the body is missing or
    empty, as for a [204 No Content]. *)
Theorem record_emits_body (c : Credentials) (p : Parameters) (i : nat) (w : World)
    out w' (options : RequestOptions) (r : gmap string value) :
  recordId p <> "" \/ operation p ∉ idOperations ->
  operation p <> "create"
  \/ truthy (default VUndef (r !! "headers")) = false
  \/ (exists h, r !! "headers" = Some (VObj h)
                /\ truthy (default VUndef (h !! "location")) = false) ->
  record c p i w = (out, w') ->
  calls w' = calls w ++ [(options, inr (VObj r))] ->
  out = Ok tt
  /\ returnData w'
     = returnData w
         ++ [{| out_json := js_or (default VUndef (r !! "body")) (VObj ∅);
                pairedItem := i |}].
Proof.
  intros Hid Hcase E Hcalls.
  assert (Hguard : (String.eqb (recordId p) "" && includes idOperations (operation p))
                   = false).
  { destruct Hid as [Hid|Hop].
    - destruct (String.eqb_spec (recordId p) ""); [contradiction|reflexivity].
    - unfold includes. rewrite bool_decide_eq_false_2 by trivial. apply andb_false_r. }
  destruct (record_inv c p i w out w' Hguard E)
    as (authHeader & options' & reply & w2 & Hc & _ & Hr & _ & _ & _ & _ & _ & _ & _ & Hreply).
  rewrite Hc in Hcalls. apply app_inv_head in Hcalls. injection Hcalls as _ ->.
  assert (Hplain : record_response p i (VObj r) w2
                   = push (js_or (default VUndef (r !! "body")) (VObj ∅)) i w2).
  { unfold record_response. rewrite !get_obj. erewrite bind_Ok by reflexivity.
    cbn [prop]. destruct (String.eqb_spec (operation p) "create") as [Hop|Hop].
    - destruct Hcase as [Hne|[Hh|(h & Hh & Hl)]]; [contradiction| |].
      + erewrite bind_Ok; [|erewrite bind_Ok by reflexivity; rewrite Hh; reflexivity].
        now rewrite Hh.
      + rewrite Hh. cbn [default from_option id].
        erewrite bind_Ok; [|erewrite bind_Ok by reflexivity; cbn [truthy get]; reflexivity].
        now rewrite Hl.
    - erewrite bind_Ok by reflexivity. reflexivity. }
  rewrite Hplain, push_eq in Hreply. injection Hreply as <- <-.
  cbn [returnData]. now rewrite Hr.
Qed.

(** ** File upload *)

(** X17.  An upload is refused before anything is read or sent: an item
    without binary [data] throws [No binary data found on item i ...], and
    otherwise a file name whose extension is not pdf, xlsx, xls or csv
    throws [Unsupported file type: .ext ...]; neither the file buffer nor
    the network is touched. *)
Theorem uploadFile_rejects (c : Credentials) (item : InputItem) (p : Parameters)
    (i : nat) (w : World) :
  truthy (binary_data item) = false \/ fileType (extension (fileName p)) = None ->
  uploadFile c item p i w
  = (Throw (NodeOperationError
              (if truthy (binary_data item)
               then "Unsupported file type: ." +:+ extension (fileName p)
                      +:+ ". Only PDF, Excel, and CSV files are supported."
               else "No binary data found on item " +:+ pretty i
                      +:+ ". The node expects an incoming file.")), w).
Proof.
  unfold uploadFile, binary_data. cbv zeta.
  destruct (binary item) as [b|]; cbn [truthy negb]; [|reflexivity].
  destruct (truthy (default VUndef (b !! "data"))); cbn [negb]; [|reflexivity].
  intros [|Hft]; [discriminate|]. now rewrite Hft.
Qed.

(** X18.  An upload of an item with binary [data] and a supported file
    name reads the buffer and, unless that fails, sends exactly one POST to
    [https://<RESTlet host>/app/site/hosting/restlet.nl] with the script and
    deployment identifiers in the query string and the body
    [{postType: 'uploadFile', folderId, name, base64Content, fileType}],
    [base64Content] being the buffer in base64; it emits the response as it
    is, and nothing when the request fails. *)
Theorem uploadFile_request (c : Credentials) (item : InputItem) (p : Parameters)
    (i : nat) (w : World) out w' (ft : string) :
  truthy (binary_data item) = true ->
  fileType (extension (fileName p)) = Some ft ->
  uploadFile c item p i w = (out, w') ->
  match (helpers_getBinaryDataBuffer i "data" (world_env w)).1 with
  | inl e => out = Throw e /\ calls w' = calls w /\ returnData w' = returnData w
  | inr fileBuffer =>
      exists authHeader options reply,
        calls w' = calls w ++ [(options, reply)]
        /\ method options = VStr "POST"
        /\ url options
           = VStr ("https://" +:+ restletBaseUrl c +:+ "/app/site/hosting/restlet.nl")
        /\ qs options = [("script", uploadScriptId p); ("deploy", uploadDeploymentId p)]
        /\ body options
           = VObj (list_to_map
                     [("postType", VStr "uploadFile");
                      ("folderId", VStr (folderId p));
                      ("name", VStr (fileName p));
                      ("base64Content", VStr (Buffer_base64 fileBuffer));
                      ("fileType", VStr ft)])
        /\ headers options = [("Authorization", authHeader);
                              ("Content-Type", "application/json")]
        /\ json options = true
        /\ match reply with
           | inl e => out = Throw e /\ returnData w' = returnData w
           | inr response =>
               out = Ok tt
               /\ returnData w'
                  = returnData w ++ [{| out_json := response; pairedItem := i |}]
           end
  end.
Proof.
  unfold uploadFile, binary_data. cbv zeta. intros Hdata Hft.
  destruct (binary item) as [b|]; [|discriminate]. rewrite Hdata, Hft. cbn [negb].
  intros E.
  apply bind_inv in E as [(fileBuffer & w1 & Ebuf & E)|[(e & Ebuf & ->)|[Ebuf ->]]];
    unfold getBinaryDataBuffer in Ebuf;
    destruct (helpers_getBinaryDataBuffer i "data" (world_env w)) as [[e'|buffer] env'];
    try discriminate; cbn [fst].
  2:{ now injection Ebuf as <- <-. }
  injection Ebuf as <- <-.
  apply bind_inv in E as [(authHeader & w2 & Esign & E)|[(e & Esign & ->)|[Esign ->]]];
    apply sign_inv in Esign as ([a Ha] & Hc2 & Hr2); try discriminate.
  cbn [calls returnData] in Hc2, Hr2.
  match type of E with bind (request ?o) _ _ = _ => exists authHeader, o end.
  apply bind_inv in E as [(response & w3 & Ereq & E)|[(e & Ereq & ->)|[Ereq ->]]];
    apply request_inv in Ereq as (reply & Hc3 & Hr3 & Hreply); exists reply.
  - destruct reply as [|r]; [discriminate|]. injection Hreply as <-.
    rewrite push_eq in E. injection E as <- <-. cbn [calls returnData].
    rewrite Hc3, Hc2, Hr3, Hr2. now repeat split.
  - destruct reply as [e'|]; [|discriminate]. injection Hreply as <-.
    rewrite Hc3, Hc2, Hr3, Hr2. now repeat split.
  - destruct reply; discriminate.
Qed.

End Operations.

(** a pair is its first component and its second *)
Lemma run_eta {A B} (run : A * B) (a : A) : run.1 = a -> run = (a, run.2).
Proof. destruct run. now intros [= ->]. Qed.

Section Pagination.
Context `{H : Host}.

(** ** RESTlet: the requests and the output of a paginated call *)

Lemma paginatedBody_exact (p : Parameters) (parsedBody : value) (start : Z) :
  exact (start + pageSize p) = true ->
  paginatedBody p parsedBody (VNum start)
  = VObj (<[endIndexField p := VNum (start + pageSize p)]>
            (<[startIndexField p := VNum start]> (spread parsedBody))).
Proof. intros Hexact. unfold paginatedBody. now rewrite (js_plus_exact _ _ Hexact). Qed.

Lemma exact_step (start step : Z) (n : nat) :
  exact start = true -> exact (start + Z.of_nat (S n) * step) = true ->
  exact (start + step) = true
  /\ exact (start + step + Z.of_nat n * step) = true.
Proof.
  intros Hstart Hend.
  pose proof (exact_between start step 1 (S n) ltac:(lia) Hstart Hend) as Hnext.
  change (Z.of_nat 1) with 1 in Hnext. rewrite Z.mul_1_l in Hnext.
  split; [exact Hnext|].
  now replace (start + step + Z.of_nat n * step)
    with (start + Z.of_nat (S n) * step) by lia.
Qed.

Lemma restlet_loop_requests (c : Credentials) (p : Parameters) (i : nat)
    (parsedBody : value) (fuel : nat) :
  forall (allResults : list value) (start : Z) (w : World) out w',
    exact start = true ->
    exact (start + Z.of_nat fuel * pageSize p) = true ->
    restlet_loop fuel c p i parsedBody allResults (VNum start) w = (out, w') ->
    exists sent,
      calls w' = calls w ++ sent
      /\ (length sent <= fuel)%nat
      /\ map (fun call => (method call.1, url call.1, body call.1)) sent
         = map (fun k =>
                  (VStr "POST", VStr (restletUrl c p),
                   VObj (<[endIndexField p := VNum (start + Z.of_nat k * pageSize p
                                                      + pageSize p)]>
                           (<[startIndexField p := VNum (start + Z.of_nat k * pageSize p)]>
                              (spread parsedBody)))))
               (seq 0 (length sent)).
Proof.
  induction fuel as [|fuel IH]; intros allResults start w out w' Hstart Hend E.
  { injection E as _ <-. exists []. now rewrite app_nil_r. }
  destruct (exact_step _ _ _ Hstart Hend) as [Hnext Hend'].
  rewrite restlet_loop_S, (paginatedBody_exact _ _ _ Hnext) in E.
  apply bind_inv in E as [(authHeader & w1 & Esign & E)|[(e & Esign & _)|[Esign _]]];
    apply sign_inv in Esign as ([a Ha] & Hc1 & _); try discriminate.
  match type of E with bind (request ?o) _ _ = _ => set (options := o) in * end.
  assert (Hone : forall reply w2,
             calls w2 = calls w1 ++ [(options, reply)] ->
             calls w' = calls w2 ->
             exists sent,
               calls w' = calls w ++ sent /\ (length sent <= S fuel)%nat
               /\ map (fun call => (method call.1, url call.1, body call.1)) sent
                  = map (fun k =>
                           (VStr "POST", VStr (restletUrl c p),
                            VObj (<[endIndexField p := VNum (start + Z.of_nat k * pageSize p
                                                               + pageSize p)]>
                                    (<[startIndexField p
                                       := VNum (start + Z.of_nat k * pageSize p)]>
                                       (spread parsedBody)))))
                        (seq 0 (length sent))).
  { intros reply w2 Hc2 Hc'. eexists [_]. rewrite Hc', Hc2, Hc1.
    split; [reflexivity|]. split; [cbn [length]; lia|].
    cbn [length seq map fst snd method url body restlet_options options].
    now rewrite Z.mul_0_l, Z.add_0_r. }
  apply bind_inv in E as [(response & w2 & Ereq & E)|[(e & Ereq & _)|[Ereq _]]];
    apply request_inv in Ereq as (reply & Hc2 & _ & _); eauto.
  destruct (page_results response) as [results|].
  - destruct (0 <? _); [|injection E as _ <-; eauto].
    destruct (_ <? pageSize p); [injection E as _ <-; eauto|].
    rewrite (js_plus_exact _ _ Hnext) in E.
    apply IH in E as (sent & Hc & Hlen & Hsent); trivial.
    exists ((options, reply) :: sent).
    rewrite Hc, Hc2, Hc1, <- app_assoc. split; [reflexivity|].
    split; [cbn [length]; lia|].
    cbn [length map fst snd method url body restlet_options options].
    change (seq 0 (S (length sent))) with (0%nat :: seq 1 (length sent)).
    rewrite <- seq_shift. cbn [map]. rewrite List.map_map, Hsent, Z.mul_0_l, Z.add_0_r.
    f_equal. apply map_ext. intros k.
    now replace (start + pageSize p + Z.of_nat k * pageSize p)
      with (start + Z.of_nat (S k) * pageSize p) by lia.
  - apply bind_inv in E as [(u & w3 & Epush & E)|[(e & Epush & _)|[Epush _]]];
      apply push_inv in Epush as [_ Hc3]; [injection E as _ <-|..]; eauto.
Qed.

(** X19.  The offset loop starts at a number; that number and the one
    [fuel] windows further on are of magnitude [2 ^ 53] at most, so no sum
    is rounded.  Whatever the server answers, the requests of the loop are
    then POSTs to the RESTlet URL whose bodies ask for adjoining windows:
    the [k]-th (from 0) carries the parsed body with the start field set to
    [start + k * pageSize] and the end field to [start + (k + 1) * pageSize],
    so each window starts where the one before it ended. *)
Theorem restlet_loop_windows (fuel : nat) (c : Credentials) (p : Parameters)
    (i : nat) (parsedBody : value) (allResults : list value) (start : Z)
    (w : World) out w' :
  exact start = true ->
  exact (start + Z.of_nat fuel * pageSize p) = true ->
  restlet_loop fuel c p i parsedBody allResults (VNum start) w = (out, w') ->
  exists sent,
    calls w' = calls w ++ sent
    /\ (length sent <= fuel)%nat
    /\ map (fun call => (method call.1, url call.1, body call.1)) sent
       = map (fun k =>
                (VStr "POST", VStr (restletUrl c p),
                 VObj (<[endIndexField p := VNum (start + Z.of_nat k * pageSize p
                                                    + pageSize p)]>
                         (<[startIndexField p := VNum (start + Z.of_nat k * pageSize p)]>
                            (spread parsedBody)))))
             (seq 0 (length sent)).
Proof. apply restlet_loop_requests. Qed.

Lemma restlet_loop_output (c : Credentials) (p : Parameters) (i : nat)
    (parsedBody : value) (fuel : nat) :
  forall (allResults : list value) (currentStart : value) (w : World)
         (all' : list value) w',
    restlet_loop fuel c p i parsedBody allResults currentStart w = (Ok all', w') ->
    exists sent pages,
      calls w' = calls w ++ sent
      /\ map snd sent = map inr pages
      /\ pages <> []
      /\ all' = allResults ++ concat (map (fun page => default [] (page_results page)) pages)
      /\ returnData w' = returnData w ++ raw_push i pages.
Proof.
  induction fuel as [|fuel IH]; intros allResults currentStart w all' w' E;
    [discriminate|].
  rewrite restlet_loop_S in E.
  apply bind_inv in E as [(authHeader & w1 & Esign & E)|[(e & _ & [=])|[_ [=]]]].
  apply sign_inv in Esign as (_ & Hc1 & Hr1).
  apply bind_inv in E as [(response & w2 & Ereq & E)|[(e & _ & [=])|[_ [=]]]].
  apply request_inv in Ereq as (reply & Hc2 & Hr2 & Hreply).
  destruct reply as [|r]; [discriminate|]. injection Hreply as <-.
  assert (Hlast : forall results,
             page_results response = Some results ->
             calls w2 = calls w ++ [(restlet_options c p authHeader
                                       (paginatedBody p parsedBody currentStart),
                                     inr response)]
             /\ returnData w2 = returnData w ++ raw_push i [response])
    by (intros results Hres; unfold raw_push; cbn [last]; rewrite Hres, app_nil_r;
        now rewrite Hc2, Hc1, Hr2, Hr1).
  destruct (page_results response) as [results|] eqn:Hres.
  - destruct (Hlast results eq_refl) as [Hc Hr].
    destruct (0 <? Z.of_nat (length results)) eqn:Hpos.
    + destruct (_ <? pageSize p).
      * injection E as <- <-. exists [(restlet_options c p authHeader (paginatedBody p parsedBody currentStart),
                 inr response)], [response]. cbn [map concat snd].
        rewrite Hres. cbn [default from_option id]. rewrite app_nil_r.
        now repeat split.
      * apply IH in E as (sent & pages & Hc' & Hs & Hne & -> & Hr').
        exists ((restlet_options c p authHeader (paginatedBody p parsedBody currentStart),
                 inr response) :: sent), (response :: pages).
        cbn [map concat snd]. rewrite Hres. cbn [default from_option id].
        rewrite Hc', Hc2, Hc1, Hr', Hr2, Hr1, Hs, <- !app_assoc.
        split; [reflexivity|]. split; [reflexivity|]. split; [discriminate|].
        split; [reflexivity|].
        unfold raw_push. destruct pages; [contradiction|reflexivity].
    + injection E as <- <-. exists [(restlet_options c p authHeader (paginatedBody p parsedBody currentStart),
                 inr response)], [response]. cbn [map concat snd].
      rewrite Hres. cbn [default from_option id].
      apply Z.ltb_ge in Hpos. destruct results; [|cbn [length] in Hpos; lia].
      rewrite !app_nil_r. now repeat split.
  - rewrite (bind_Ok _ _ _ _ _ (push_eq response i w2)) in E. injection E as <- <-.
    exists [(restlet_options c p authHeader (paginatedBody p parsedBody currentStart),
             inr response)], [response].
    cbn [calls returnData map concat snd]. rewrite Hres. cbn [default from_option id].
    unfold raw_push. cbn [last]. rewrite Hres, Hc2, Hc1, Hr2, Hr1, !app_nil_r.
    now repeat split.
Qed.

(** X20.  A RESTlet call with return-all pagination that ends normally
    has received a non-empty sequence of pages, and its output is, in this
    order: the last page as it is, when that page holds no results the loop
    recognizes; then, when any result was collected, one aggregate record
    [{[outputFieldName]: results, total}] whose results are those of all
    pages, in order, and whose total is their number. *)
Theorem restlet_call_output (fuel : nat) (c : Credentials) (p : Parameters)
    (i : nat) (w : World) w' :
  returnAll p = true ->
  restlet_call fuel c p i w = (Ok tt, w') ->
  exists sent pages,
    calls w' = calls w ++ sent
    /\ map snd sent = map inr pages
    /\ pages <> []
    /\ let results := concat (map (fun page => default [] (page_results page)) pages) in
       returnData w'
       = returnData w
           ++ raw_push i pages
           ++ (if bool_decide (results = []) then []
               else [{| out_json :=
                          VObj (<["total" := VNum (Z.of_nat (length results))]>
                                  (<[outputFieldName p := VArr results]> ∅));
                        pairedItem := i |}]).
Proof.
  intros Hall E. unfold restlet_call in E. rewrite Hall in E.
  apply bind_inv in E as [(parsedBody & w1 & Eparse & E)|[(e & _ & [=])|[_ [=]]]].
  assert (w1 = w) as ->.
  { destruct (restletBody p); try (now injection Eparse as _ <-).
    destruct (JSON_parse s); [discriminate|now injection Eparse as _ <-]. }
  apply bind_inv in E as [(start & w1 & Estart & E)|[(e & _ & [=])|[_ [=]]]].
  apply lift_inv in Estart as [-> _]. unfold restlet_paginate in E.
  apply bind_inv in E as [(all' & w2 & Eloop & E)|[(e & _ & [=])|[_ [=]]]].
  apply restlet_loop_output in Eloop as (sent & pages & Hc & Hs & Hne & -> & Hr).
  exists sent, pages. cbn [app] in *. unfold push_aggregate in E.
  destruct (concat _) as [|result results] eqn:Hres.
  - injection E as <-. rewrite bool_decide_eq_true_2 by trivial.
    now rewrite app_nil_r.
  - assert (Hpos : (0 <? Z.of_nat (length (result :: results))) = true)
      by (apply Z.ltb_lt; cbn [length]; lia).
    rewrite Hpos, push_eq in E. injection E as <-. cbn [calls returnData].
    rewrite bool_decide_eq_false_2 by discriminate. rewrite Hr, <- app_assoc.
    now repeat split.
Qed.



End Pagination.

(** ** The signed text determines what is signed *)

Lemma clash_app (a b r1 r2 : string) : clash a b = true -> a +:+ r1 <> b +:+ r2.
Proof.
  revert b. induction a as [|x a IH]; intros [|y b]; try discriminate.
  cbn [clash]. intros Hc E. injection E as -> E.
  rewrite Ascii.eqb_refl in Hc. cbn [negb orb] in Hc. now apply (IH b).
Qed.

Lemma append_cancel (a r1 r2 : string) : a +:+ r1 = a +:+ r2 -> r1 = r2.
Proof. induction a as [|x a IH]; [trivial|]. intros [= E]. auto. Qed.

(** the escapes of two different characters clash: they form a prefix code *)
Lemma escape_prefix_code (c d : ascii) :
  (Ascii.eqb c d
   || clash (escape_with uriUnescaped c) (escape_with uriUnescaped d)) = true.
Proof. revert c d. apply every_ascii2. vm_compute. reflexivity. Qed.

Lemma escape_nonempty (c : ascii) (r : string) :
  escape_with uriUnescaped c +:+ r <> "".
Proof.
  assert (Hall : forall c, match escape_with uriUnescaped c with
                           | EmptyString => false
                           | String _ _ => true
                           end = true)
    by (apply every_ascii; vm_compute; reflexivity).
  specialize (Hall c). now destruct (escape_with uriUnescaped c).
Qed.

Lemma encodeURIComponent_injective (s t : string) :
  encodeURIComponent s = encodeURIComponent t -> s = t.
Proof.
  unfold encodeURIComponent. revert t.
  induction s as [|c s IH]; intros [|d t]; cbn [encode_with]; intros E; trivial.
  - symmetry in E. now apply escape_nonempty in E.
  - now apply escape_nonempty in E.
  - pose proof (escape_prefix_code c d) as Hcode.
    destruct (Ascii.eqb_spec c d) as [->|_].
    + apply append_cancel in E. now rewrite (IH t E).
    + cbn [orb] in Hcode. now apply clash_app with (r1 := encode_with uriUnescaped s)
                                                   (r2 := encode_with uriUnescaped t) in Hcode.
Qed.

Lemma occurs_app (ch : ascii) (a b : string) :
  occurs ch (a +:+ b) = occurs ch a || occurs ch b.
Proof.
  induction a as [|x a IH]; [reflexivity|].
  change (String x a +:+ b) with (String x (a +:+ b)). cbn [occurs].
  now rewrite IH, orb_assoc.
Qed.

(** an encoded text holds neither [&] nor [=] *)
Lemma encodeURIComponent_separators (s : string) :
  occurs "&" (encodeURIComponent s) = false
  /\ occurs "=" (encodeURIComponent s) = false.
Proof.
  assert (Hall : forall c, (negb (occurs "&" (escape_with uriUnescaped c))
                            && negb (occurs "=" (escape_with uriUnescaped c))) = true)
    by (apply every_ascii; vm_compute; reflexivity).
  unfold encodeURIComponent. induction s as [|c s [IH1 IH2]]; [now split|].
  cbn [encode_with]. rewrite !occurs_app, IH1, IH2. specialize (Hall c).
  apply andb_prop in Hall as [H1 H2]. apply negb_true_iff in H1, H2.
  now rewrite H1, H2.
Qed.

(** texts cut at a separator neither front holds have the same fronts *)
Lemma cut_unique (ch : ascii) (a1 a2 b1 b2 : string) :
  occurs ch a1 = false -> occurs ch a2 = false ->
  a1 +:+ String ch b1 = a2 +:+ String ch b2 -> a1 = a2 /\ b1 = b2.
Proof.
  revert a2. induction a1 as [|x a1 IH]; intros [|y a2]; cbn [occurs]; intros H1 H2 E.
  - now injection E as ->.
  - injection E as <- _. now rewrite Ascii.eqb_refl in H2.
  - injection E as -> _. now rewrite Ascii.eqb_refl in H1.
  - injection E as -> E. apply orb_false_iff in H1 as [_ H1], H2 as [_ H2].
    destruct (IH a2 H1 H2 E) as [-> ->]. now split.
Qed.

Lemma split_on_first (sep : ascii) (first rest : string) :
  occurs sep first = false ->
  split_on sep (first +:+ String sep rest) = first :: split_on sep rest.
Proof.
  induction first as [|x first IH]; cbn [occurs]; intros Ho.
  - change (EmptyString +:+ String sep rest) with (String sep rest).
    now rewrite split_on_cons, Ascii.eqb_refl.
  - apply orb_false_iff in Ho as [Hx Ho].
    change (String x first +:+ String sep rest)
      with (String x (first +:+ String sep rest)).
    now rewrite split_on_cons, Hx, (IH Ho).
Qed.

(** [pieces.join(sep).split(sep)] is [pieces], for separator-free pieces *)
Lemma split_on_join (sep : ascii) (pieces : list string) :
  pieces <> [] ->
  Forall (fun piece => occurs sep piece = false) pieces ->
  split_on sep (join (str1 sep) pieces) = pieces.
Proof.
  induction pieces as [|piece pieces IH]; [contradiction|]. intros _ Hall.
  inversion Hall as [|? ? Hp Hps]; subst.
  destruct pieces as [|piece' pieces].
  - apply split_on_whole, Hp.
  - change (join (str1 sep) (piece :: piece' :: pieces))
      with (piece +:+ String sep (join (str1 sep) (piece' :: pieces))).
    rewrite (split_on_first _ _ _ Hp), IH; [reflexivity|discriminate|exact Hps].
Qed.

Lemma join_injective (sep : ascii) (l1 l2 : list string) :
  Forall (fun piece => occurs sep piece = false /\ piece <> "") l1 ->
  Forall (fun piece => occurs sep piece = false /\ piece <> "") l2 ->
  join (str1 sep) l1 = join (str1 sep) l2 -> l1 = l2.
Proof.
  intros H1 H2 E.
  assert (Hempty : forall l, Forall (fun piece => occurs sep piece = false /\ piece <> "") l ->
                             join (str1 sep) l = "" -> l = []).
  { intros [|piece l] Hl; [trivial|]. inversion Hl as [|? ? [_ Hne] _]; subst.
    destruct piece; [contradiction|]. destruct l; discriminate. }
  destruct l1 as [|p1 l1].
  - symmetry. apply Hempty; [exact H2|now rewrite <- E].
  - destruct l2 as [|p2 l2]; [now apply Hempty in E|].
    rewrite <- (split_on_join sep (p1 :: l1)), <- (split_on_join sep (p2 :: l2));
      [now rewrite E|discriminate| |discriminate|].
    + eapply Forall_impl; [exact H2|]. now intros ? [? _].
    + eapply Forall_impl; [exact H1|]. now intros ? [? _].
Qed.

Lemma sorted_keys_elem (allParams : gmap string string) (key : string) :
  key ∈ sorted_keys allParams <-> is_Some (allParams !! key).
Proof.
  unfold sorted_keys. rewrite merge_sort_Permutation, list_elem_of_fmap. split.
  - intros ([k v] & -> & Hkv). apply elem_of_map_to_list in Hkv. eauto.
  - intros [v Hv]. exists (key, v). split; [reflexivity|]. now apply elem_of_map_to_list.
Qed.

Lemma pieces_injective (P1 P2 : gmap string string) (l1 l2 : list string) :
  map (fun key => encodeURIComponent key +:+ "="
                    +:+ encodeURIComponent (default "undefined" (P1 !! key))) l1
  = map (fun key => encodeURIComponent key +:+ "="
                      +:+ encodeURIComponent (default "undefined" (P2 !! key))) l2 ->
  l1 = l2
  /\ Forall (fun key => default "undefined" (P1 !! key) = default "undefined" (P2 !! key)) l1.
Proof.
  revert l2. induction l1 as [|k1 l1 IH]; intros [|k2 l2]; try discriminate.
  - now split.
  - cbn [map]. intros [= Epiece Erest].
    change (encodeURIComponent k1
              +:+ String "=" (encodeURIComponent (default "undefined" (P1 !! k1)))
            = encodeURIComponent k2
                +:+ String "=" (encodeURIComponent (default "undefined" (P2 !! k2))))
      in Epiece.
    apply cut_unique in Epiece as [Ek Ev];
      try apply encodeURIComponent_separators.
    apply encodeURIComponent_injective in Ek as ->.
    apply encodeURIComponent_injective in Ev.
    destruct (IH l2 Erest) as [-> Hall]. split; [reflexivity|]. now constructor.
Qed.

Lemma piece_clean (key v : string) :
  occurs "&" (encodeURIComponent key +:+ "=" +:+ encodeURIComponent v) = false
  /\ encodeURIComponent key +:+ "=" +:+ encodeURIComponent v <> "".
Proof.
  change (encodeURIComponent key +:+ "=" +:+ encodeURIComponent v)
    with (encodeURIComponent key +:+ String "=" (encodeURIComponent v)).
  split.
  - rewrite occurs_app. cbn [occurs].
    now rewrite !(proj1 (encodeURIComponent_separators _)).
  - now destruct (encodeURIComponent key).
Qed.

Lemma sortedParams_injective (P1 P2 : gmap string string) :
  sortedParams P1 = sortedParams P2 -> P1 = P2.
Proof.
  unfold sortedParams. intros E.
  apply (join_injective "&") in E.
  2,3: apply Forall_forall; intros piece Hin;
       apply list_elem_of_fmap in Hin as (key & -> & _); apply piece_clean.
  apply pieces_injective in E as [Ekeys Hall].
  apply map_eq. intros k.
  pose proof (sorted_keys_elem P1 k) as H1. pose proof (sorted_keys_elem P2 k) as H2.
  rewrite <- Ekeys in H2. rewrite Forall_forall in Hall.
  destruct (P1 !! k) as [v1|] eqn:E1.
  - assert (Hin : k ∈ sorted_keys P1) by (apply H1; eauto).
    destruct (proj1 H2 Hin) as [v2 E2].
    specialize (Hall k Hin).
    rewrite E1, E2 in Hall. cbn in Hall. now rewrite E2, Hall.
  - destruct (P2 !! k) as [v2|] eqn:E2; [|reflexivity].
    assert (Hin : k ∈ sorted_keys P1) by (apply H2; eauto).
    now destruct (proj1 H1 Hin).
Qed.

(** X22.  The key and the text the HMAC is applied to determine what is
    signed: two signings with the same signing key and the same base
    string, for methods without [&], have the same consumer and token
    secrets, the same method, the same base URL and the same parameters. *)
Theorem signed_text_injective (c1 c2 : Credentials) (m1 m2 u1 u2 : string)
    (P1 P2 : gmap string string) :
  occurs "&" m1 = false ->
  occurs "&" m2 = false ->
  signingKey c1 = signingKey c2 ->
  baseString m1 u1 P1 = baseString m2 u2 P2 ->
  consumerSecret c1 = consumerSecret c2 /\ tokenSecret c1 = tokenSecret c2
  /\ m1 = m2 /\ u1 = u2 /\ P1 = P2.
Proof.
  intros Hm1 Hm2 Ekey Ebase. unfold signingKey, baseString in *.
  change (encodeURIComponent (consumerSecret c1)
            +:+ String "&" (encodeURIComponent (tokenSecret c1))
          = encodeURIComponent (consumerSecret c2)
              +:+ String "&" (encodeURIComponent (tokenSecret c2))) in Ekey.
  apply cut_unique in Ekey as [Ecs Ets]; try apply encodeURIComponent_separators.
  apply encodeURIComponent_injective in Ecs, Ets.
  change (m1 +:+ String "&" (encodeURIComponent u1
                               +:+ String "&" (encodeURIComponent (sortedParams P1)))
          = m2 +:+ String "&" (encodeURIComponent u2
                                 +:+ String "&" (encodeURIComponent (sortedParams P2))))
    in Ebase.
  apply cut_unique in Ebase as [Em Ebase]; trivial.
  apply cut_unique in Ebase as [Eu Ep]; try apply encodeURIComponent_separators.
  apply encodeURIComponent_injective in Eu, Ep.
  apply sortedParams_injective in Ep. now repeat split.
Qed.

Lemma fold_insert_lookup (extra : list (string * string)) (m : gmap string string)
    (k : string) :
  fold_left (fun m kv => if String.eqb kv.1 "__proto__" then m else <[kv.1 := kv.2]> m)
            extra m !! k
  = if bool_decide (k = "__proto__") then m !! k
    else match List.find (fun kv => bool_decide (kv.1 = k)) (rev extra) with
         | Some kv => Some kv.2
         | None => m !! k
         end.
Proof.
  induction extra as [|kv extra IH] using rev_ind; [now destruct (bool_decide _)|].
  rewrite fold_left_app, rev_app_distr. cbn [fold_left rev app List.find].
  destruct (String.eqb_spec kv.1 "__proto__") as [Hproto|Hproto].
  - rewrite IH. destruct (decide (k = "__proto__")) as [->|Hk].
    + now rewrite !bool_decide_eq_true_2.
    + rewrite !(bool_decide_eq_false_2 (k = "__proto__")) by trivial.
      now rewrite bool_decide_eq_false_2 by congruence.
  - destruct (decide (kv.1 = k)) as [Hk|Hk].
    + rewrite (bool_decide_eq_true_2 (kv.1 = k)) by trivial.
      rewrite bool_decide_eq_false_2 by congruence.
      rewrite <- Hk. apply lookup_insert_eq.
    + rewrite (bool_decide_eq_false_2 (kv.1 = k)) by trivial.
      now rewrite lookup_insert_ne.
Qed.

(** X23.  In the parameters that are signed, a key given several times
    in the added parameters (the query of a next link, or script and
    deploy) has its last value, and an added key replaces a protocol
    parameter of the same name; every other protocol parameter is kept.
    The key [__proto__] is never among them: writing it to a plain object
    adds no field. *)
Theorem merged_params_lookup (c : Credentials) (timestamp nonce : string)
    (extra : list (string * string)) (k : string) :
  merged_params c timestamp nonce extra !! k
  = if bool_decide (k = "__proto__") then None
    else match List.find (fun kv => bool_decide (kv.1 = k)) (rev extra) with
         | Some kv => Some kv.2
         | None => oauthParams c timestamp nonce !! k
         end.
Proof.
  unfold merged_params. rewrite fold_insert_lookup.
  destruct (decide (k = "__proto__")) as [->|Hk].
  - now rewrite !bool_decide_eq_true_2.
  - now rewrite !bool_decide_eq_false_2.
Qed.

Section Requests.
Context `{H : Host}.

(** ** What a step may send *)

Lemma sends_quiet {A} (P : RequestOptions -> Prop) (n : nat) (m : M A) :
  (forall w out w', m w = (out, w') -> calls w' = calls w) -> sends P n m.
Proof.
  intros Hm w out w' E. exists []. rewrite app_nil_r, (Hm _ _ _ E).
  split; [reflexivity|]. split; [cbn; lia|constructor].
Qed.

Lemma sends_ret {A} P n (a : A) : sends P n (ret a).
Proof. apply sends_quiet. now intros w out w' [= _ <-]. Qed.

Lemma sends_throw {A} P n (e : exn) : sends P n (throw (A := A) e).
Proof. apply sends_quiet. now intros w out w' [= _ <-]. Qed.

Lemma sends_diverge {A} P n : sends P n (diverge (A := A)).
Proof. apply sends_quiet. now intros w out w' [= _ <-]. Qed.

Lemma sends_lift {A} P n (r : exn + A) : sends P n (lift r).
Proof. apply sends_quiet. intros w out w' E. now apply lift_inv in E as [-> _]. Qed.

Lemma sends_push P n (j : value) (i : nat) : sends P n (push j i).
Proof. apply sends_quiet. intros w out w' E. now apply push_inv in E as [_ ->]. Qed.

Lemma sends_sign P n (c : Credentials) (method baseUrl : string)
    (extra : list (string * string)) :
  sends P n (sign c method baseUrl extra).
Proof. apply sends_quiet. intros w out w' E. now apply sign_inv in E as (_ & -> & _). Qed.

Lemma sends_getBinaryDataBuffer P n (i : nat) (name : string) :
  sends P n (getBinaryDataBuffer i name).
Proof.
  apply sends_quiet. intros w out w'. unfold getBinaryDataBuffer.
  destruct (helpers_getBinaryDataBuffer i name (world_env w)) as [[e|b] e'];
    now intros [= _ <-].
Qed.

Lemma sends_request (P : RequestOptions -> Prop) (n : nat) (options : RequestOptions) :
  P options -> sends P (S n) (request options).
Proof.
  intros HP w out w' E. apply request_inv in E as (reply & Hc & _ & _).
  exists [(options, reply)]. split; [exact Hc|]. split; [cbn; lia|].
  now repeat constructor.
Qed.

Lemma sends_bind {A B} P (n k : nat) (m : M A) (f : A -> M B) :
  sends P n m -> (forall a, sends P k (f a)) -> sends P (n + k) (bind m f).
Proof.
  intros Hm Hf w out w' E.
  apply bind_inv in E as [(a & w1 & Em & Ef)|[(e & Em & _)|[Em _]]].
  - destruct (Hm _ _ _ Em) as (s1 & E1 & L1 & F1).
    destruct (Hf _ _ _ _ Ef) as (s2 & E2 & L2 & F2).
    exists (s1 ++ s2). rewrite E2, E1, app_assoc, length_app.
    split; [reflexivity|]. split; [lia|now apply Forall_app].
  - destruct (Hm _ _ _ Em) as (s1 & E1 & L1 & F1). exists s1.
    split; [exact E1|]. split; [lia|exact F1].
  - destruct (Hm _ _ _ Em) as (s1 & E1 & L1 & F1). exists s1.
    split; [exact E1|]. split; [lia|exact F1].
Qed.

(** a step that sends nothing, then one that sends *)
Lemma sends_after {A B} P (n : nat) (m : M A) (f : A -> M B) :
  sends P 0 m -> (forall a, sends P n (f a)) -> sends P n (bind m f).
Proof. intros Hm Hf. now apply (sends_bind P 0 n). Qed.

(** a step that sends, then one that sends nothing *)
Lemma sends_before {A B} P (n : nat) (m : M A) (f : A -> M B) :
  sends P n m -> (forall a, sends P 0 (f a)) -> sends P n (bind m f).
Proof.
  intros Hm Hf w out w' E.
  destruct (sends_bind P n 0 m f Hm Hf w out w' E) as (sent & Ec & L & F).
  exists sent. split; [exact Ec|]. split; [lia|exact F].
Qed.

Lemma sends_bind_ret {A B} P (n : nat) (a : A) (f : A -> M B) :
  sends P n (f a) -> sends P n (bind (ret a) f).
Proof. intros Hf w out w' E. exact (Hf w out w' E). Qed.

Lemma sends_weaken {A} (P Q : RequestOptions -> Prop) (n k : nat) (m : M A) :
  (forall options, P options -> Q options) -> (n <= k)%nat ->
  sends P n m -> sends Q k m.
Proof.
  intros HPQ Hnk Hm w out w' E. destruct (Hm _ _ _ E) as (sent & Ec & L & F).
  exists sent. split; [exact Ec|]. split; [lia|].
  eapply Forall_impl; [exact F|]. intros call. apply HPQ.
Qed.

Lemma sends_hasMore_and_links P n (response : value) :
  sends P n (hasMore_and_links response).
Proof.
  unfold hasMore_and_links. apply (sends_after P n); [apply sends_lift|].
  intros hasMore. destruct (truthy hasMore); [apply sends_lift|apply sends_ret].
Qed.

Lemma sends_suiteql_loop (c : Credentials) (q : string) (fuel : nat) :
  forall (response allItems : value),
    sends (suiteql_request q) fuel
          (suiteql_loop fuel c (VObj {[ "q" := VStr q ]}) response allItems).
Proof.
  induction fuel as [|fuel IH]; intros response allItems; cbn [suiteql_loop];
    (apply sends_after; [apply sends_hasMore_and_links|]); intros cond;
    (destruct (truthy cond); [|apply sends_ret]);
    (apply sends_after; [apply sends_lift|]); intros nextLink;
    (destruct (negb (truthy nextLink)); [apply sends_ret|]);
    (apply sends_after; [apply sends_lift|]); intros nextUrl;
    (destruct (URL_parse (to_string nextUrl)) as [urlObj|]; [|apply sends_throw]).
  - apply sends_diverge.
  - apply sends_after; [apply sends_sign|]. intros authHeader.
    apply (sends_bind _ 1 fuel).
    { apply sends_request. unfold suiteql_request. cbn. repeat split; eauto. }
    intros response'. apply sends_after; [apply sends_lift|]. intros items.
    apply sends_after.
    { destruct (truthy items); [apply sends_lift|apply sends_ret]. }
    intros allItems'. apply IH.
Qed.

Lemma sends_suiteql_rest (fuel : nat) (c : Credentials) (p : Parameters) (i : nat)
    (response : value) :
  sends (suiteql_request (query p)) (if returnAll p then fuel else 0)
    (bind (lift (get response "items")) (fun items =>
       bind (if returnAll p
             then bind (lift (get response "hasMore"))
                       (fun hasMore => ret (truthy hasMore))
             else ret false)
            (fun paginate =>
               bind (if paginate : bool
                     then suiteql_loop fuel c (VObj {[ "q" := VStr (query p) ]}) response
                            (js_or items (VArr []))
                     else ret (response, js_or items (VArr [])))
                    (fun final => push (combined final.1 final.2) i)))).
Proof.
  apply sends_after; [apply sends_lift|]. intros items.
  destruct (returnAll p).
  - apply sends_after.
    { apply sends_after; [apply sends_lift|]. intros hasMore. apply sends_ret. }
    intros paginate.
    apply sends_before; [|intros final; apply sends_push].
    destruct paginate; [apply sends_suiteql_loop|apply sends_ret].
  - apply sends_bind_ret.
    apply sends_after; [apply sends_ret|]. intros final. apply sends_push.
Qed.

Lemma sends_suiteql (fuel : nat) (c : Credentials) (p : Parameters) (i : nat) :
  sends (suiteql_request (query p)) (if returnAll p then S fuel else 1)
        (suiteql fuel c p i).
Proof.
  unfold suiteql. cbv zeta.
  apply sends_after; [apply sends_sign|]. intros authHeader.
  replace (if returnAll p then S fuel else 1%nat)
    with (1 + (if returnAll p then fuel else 0))%nat by now destruct (returnAll p).
  apply sends_bind; [|intros response; apply sends_suiteql_rest].
  apply sends_request. unfold suiteql_request. cbn. repeat split; eauto.
Qed.


Lemma sends_record P (c : Credentials) (p : Parameters) (i : nat) :
  (forall options, json options = true ->
                   (exists authHeader, headers options = json_headers authHeader true) ->
                   P options) ->
  sends P 1 (record c p i).
Proof.
  intros HP. unfold record. cbv zeta.
  destruct (String.eqb (recordId p) "" && includes idOperations (operation p));
    [apply sends_throw|].
  apply sends_after; [apply sends_sign|]. intros authHeader.
  apply sends_before; [apply sends_request, HP; cbn; eauto|]. intros response.
  apply sends_after; [apply sends_lift|]. intros rbody.
  apply sends_after.
  { destruct (String.eqb (operation p) "create"); [|apply sends_ret].
    apply sends_after; [apply sends_lift|]. intros hdrs.
    destruct (truthy hdrs); [apply sends_lift|apply sends_ret]. }
  intros location. destruct (truthy location); [|apply sends_push].
  destruct location; try apply sends_throw. destruct (idMatch s); apply sends_push.
Qed.

Lemma sends_restlet_loop P (c : Credentials) (p : Parameters) (i : nat)
    (parsedBody : value) (fuel : nat) :
  (forall options, json options = true -> method options = VStr "POST" ->
                   (exists authHeader, headers options = json_headers authHeader false) ->
                   P options) ->
  forall (allResults : list value) (currentStart : value),
    sends P fuel (restlet_loop fuel c p i parsedBody allResults currentStart).
Proof.
  intros HP. induction fuel as [|fuel IH]; intros allResults currentStart;
    [apply sends_diverge|].
  rewrite restlet_loop_S.
  apply sends_after; [apply sends_sign|]. intros authHeader.
  apply (sends_bind _ 1 fuel); [apply sends_request, HP; cbn; eauto|]. intros response.
  destruct (page_results response) as [results|].
  - destruct (0 <? _); [|apply sends_ret].
    destruct (_ <? pageSize p); [apply sends_ret|apply IH].
  - apply sends_after; [apply sends_push|]. intros _. apply sends_ret.
Qed.

Lemma sends_restlet_call P (fuel : nat) (c : Credentials) (p : Parameters) (i : nat) :
  (forall options, json options = true -> method options = VStr "POST" ->
                   (exists authHeader, headers options = json_headers authHeader false) ->
                   P options) ->
  sends P (if returnAll p then S fuel else 1) (restlet_call fuel c p i).
Proof.
  intros HP. unfold restlet_call.
  apply sends_after.
  { destruct (restletBody p); try apply sends_ret.
    destruct (JSON_parse s); [apply sends_throw|apply sends_ret]. }
  intros parsedBody. destruct (returnAll p).
  - apply sends_after; [apply sends_lift|]. intros start. unfold restlet_paginate.
    apply sends_before.
    + eapply sends_weaken; [| |apply (sends_restlet_loop P); exact HP]; [trivial|lia].
    + intros allResults. unfold push_aggregate.
      destruct (0 <? _); [apply sends_push|apply sends_ret].
  - apply sends_after; [apply sends_sign|]. intros authHeader.
    apply sends_before; [apply sends_request, HP; cbn; eauto|]. intros response.
    apply sends_push.
Qed.

Lemma sends_uploadFile P (c : Credentials) (item : InputItem) (p : Parameters)
    (i : nat) :
  (forall options, json options = true -> method options = VStr "POST" ->
                   (exists authHeader, headers options = json_headers authHeader false) ->
                   P options) ->
  sends P 1 (uploadFile c item p i).
Proof.
  intros HP. unfold uploadFile. cbv zeta.
  destruct (negb _); [apply sends_throw|].
  destruct (fileType (extension (fileName p))); [|apply sends_throw].
  apply sends_after; [apply sends_getBinaryDataBuffer|]. intros fileBuffer.
  apply sends_after; [apply sends_sign|]. intros authHeader.
  apply sends_before; [apply sends_request, HP; cbn; eauto|]. intros response.
  apply sends_push.
Qed.

(** X27.  Every request the node makes asks for JSON and carries the
    Authorization and the [Content-Type: application/json] headers; every
    request outside the record resource is a POST; and only an item with
    return-all set makes more than one request. *)
Theorem process_item_requests (fuel : nat) (resource : string) (c : Credentials)
    (item : InputItem) (p : Parameters) (i : nat) (w : World) out w' :
  process_item fuel resource c item p i w = (out, w') ->
  exists sent,
    calls w' = calls w ++ sent
    /\ (length sent <= if returnAll p then S fuel else 1)%nat
    /\ Forall (fun call =>
                 json call.1 = true
                 /\ (exists authHeader later,
                       headers call.1
                       = ("Authorization", authHeader)
                           :: ("Content-Type", "application/json") :: later)
                 /\ (resource <> "record" -> method call.1 = VStr "POST"))
              sent.
Proof.
  revert w out w'.
  change (sends (fun options =>
                   json options = true
                   /\ (exists authHeader later,
                         headers options
                         = ("Authorization", authHeader)
                             :: ("Content-Type", "application/json") :: later)
                   /\ (resource <> "record" -> method options = VStr "POST"))
                (if returnAll p then S fuel else 1)
                (process_item fuel resource c item p i)).
  assert (Hone : (1 <= if returnAll p then S fuel else 1)%nat)
    by (destruct (returnAll p); lia).
  unfold process_item.
  destruct (String.eqb_spec resource "suiteql") as [->|_].
  { eapply sends_weaken; [| |apply sends_suiteql]; [|lia].
    intros options (Hm & _ & [a Ha] & _ & Hj & _).
    split; [exact Hj|]. split; [now exists a, [("Prefer", "transient")]|trivial]. }
  destruct (String.eqb_spec resource "record") as [->|Hrecord].
  { eapply sends_weaken; [| |apply sends_record]; [|exact Hone|].
    - intros options HP. exact HP.
    - intros options Hj [a Ha]. split; [exact Hj|].
      split; [now exists a, [("Prefer", "transient")]|]. intros Hne. now destruct Hne. }
  destruct (String.eqb resource "restlet"); [|apply sends_throw].
  destruct (String.eqb (operation p) "call").
  { apply sends_restlet_call. intros options Hj Hm [a Ha].
    split; [exact Hj|]. split; [now exists a, []|trivial]. }
  destruct (String.eqb (operation p) "uploadFile"); [|apply sends_throw].
  eapply sends_weaken; [| |apply sends_uploadFile]; [|exact Hone|].
  - intros options HP. exact HP.
  - intros options Hj Hm [a Ha].
    split; [exact Hj|]. split; [now exists a, []|trivial].
Qed.

(** X28.  A RESTlet call without return-all sends exactly one request, a
    POST of the parsed body as it is, without start or end fields, to
    [https://<RESTlet host>/app/site/hosting/restlet.nl?script=..&deploy=..];
    it emits the response whatever its shape, and nothing when the
    request fails. *)
Theorem restlet_call_single (fuel : nat) (c : Credentials) (p : Parameters)
    (i : nat) (w : World) out w' (parsedBody : value) :
  returnAll p = false ->
  match restletBody p with
  | VStr text => JSON_parse text = inr parsedBody
  | v => v = parsedBody
  end ->
  restlet_call fuel c p i w = (out, w') ->
  exists authHeader reply,
    calls w'
    = calls w
        ++ [({| headers := [("Authorization", authHeader);
                            ("Content-Type", "application/json")];
                method := VStr "POST";
                body := parsedBody;
                url := VStr ("https://" +:+ restletBaseUrl c
                               +:+ "/app/site/hosting/restlet.nl?script="
                               +:+ scriptId p +:+ "&deploy=" +:+ deployId p);
                qs := [];
                json := true;
                resolveWithFullResponse := false |}, reply)]
    /\ match reply with
       | inl e => out = Throw e /\ returnData w' = returnData w
       | inr response =>
           out = Ok tt
           /\ returnData w' = returnData w ++ [{| out_json := response; pairedItem := i |}]
       end.
Proof.
  intros Hoff Hbody E. unfold restlet_call in E. rewrite Hoff in E.
  assert (Hparse : forall k : value -> M unit,
             bind (match restletBody p with
                   | VStr text =>
                       match JSON_parse text with
                       | inl parseError =>
                           throw (NodeOperationError
                                    ("Invalid JSON in RESTlet body: " +:+ parseError))
                       | inr v => ret v
                       end
                   | v => ret v
                   end) k w = k parsedBody w).
  { intros k. destruct (restletBody p); rewrite Hbody; reflexivity. }
  rewrite Hparse in E.
  apply bind_inv in E as [(authHeader & w1 & Esign & E)|[(e & Esign & _)|[Esign _]]];
    apply sign_inv in Esign as ([a Ha] & Hc1 & Hr1); try discriminate.
  exists authHeader.
  apply bind_inv in E as [(response & w2 & Ereq & E)|[(e & Ereq & ->)|[Ereq ->]]];
    apply request_inv in Ereq as (reply & Hc2 & Hr2 & Hreply); exists reply.
  - destruct reply as [|r]; [discriminate|]. injection Hreply as <-.
    rewrite push_eq in E. injection E as <- <-. cbn [calls returnData].
    rewrite Hc2, Hc1, Hr2, Hr1. now repeat split.
  - destruct reply as [e'|]; [|discriminate]. injection Hreply as <-.
    rewrite Hc2, Hc1, Hr2, Hr1. now repeat split.
  - destruct reply; discriminate.
Qed.

End Requests.

Section Stops.
Context `{H : Host}.

(** ** Where the loops stop *)

Lemma restlet_loop_stops (c : Credentials) (p : Parameters) (i : nat)
    (parsedBody : value) (fuel : nat) :
  forall (allResults : list value) (currentStart : value) (w : World)
         (all' : list value) w',
    restlet_loop fuel c p i parsedBody allResults currentStart w = (Ok all', w') ->
    exists sent before final,
      calls w' = calls w ++ sent
      /\ map snd sent = map inr (before ++ [final])
      /\ forallb (full_page p) before = true
      /\ full_page p final = false.
Proof.
  induction fuel as [|fuel IH]; intros allResults currentStart w all' w' E;
    [discriminate|].
  rewrite restlet_loop_S in E.
  apply bind_inv in E as [(authHeader & w1 & Esign & E)|[(e & _ & [=])|[_ [=]]]].
  apply sign_inv in Esign as (_ & Hc1 & _).
  apply bind_inv in E as [(response & w2 & Ereq & E)|[(e & _ & [=])|[_ [=]]]].
  apply request_inv in Ereq as (reply & Hc2 & _ & Hreply).
  destruct reply as [|r]; [discriminate|]. injection Hreply as <-.
  set (options := restlet_options c p authHeader
                    (paginatedBody p parsedBody currentStart)) in *.
  assert (Hstop : full_page p response = false -> calls w' = calls w2 ->
                  exists sent before final,
                    calls w' = calls w ++ sent
                    /\ map snd sent = map inr (before ++ [final])
                    /\ forallb (full_page p) before = true
                    /\ full_page p final = false).
  { intros Hnot Hc. exists [(options, inr response)], [], response.
    rewrite Hc, Hc2, Hc1. now repeat split. }
  unfold full_page in Hstop.
  destruct (page_results response) as [results|] eqn:Hres.
  - destruct (0 <? Z.of_nat (length results)) eqn:Hpos;
      [|injection E as _ <-; now apply Hstop].
    destruct (Z.of_nat (length results) <? pageSize p) eqn:Hshort;
      [injection E as _ <-; now apply Hstop|].
    apply IH in E as (sent & before & final & Hc & Hs & Hfull & Hfinal).
    exists ((options, inr response) :: sent), (response :: before), final.
    rewrite Hc, Hc2, Hc1, <- app_assoc. cbn [map snd app forallb]. rewrite Hs.
    unfold full_page at 1. rewrite Hres, Hpos, Hshort, Hfull. now repeat split.
  - rewrite (bind_Ok _ _ _ _ _ (push_eq response i w2)) in E. injection E as _ <-.
    now apply Hstop.
Qed.

(** X29.  A paginated RESTlet call that ends normally stopped at the first
    page that was not full: every page it received before the last held at
    least one and at least [pageSize] recognized results, and the last
    page did not (it was short, empty or of an unrecognized shape). *)
Theorem restlet_call_stops (fuel : nat) (c : Credentials) (p : Parameters)
    (i : nat) (w : World) w' :
  returnAll p = true ->
  restlet_call fuel c p i w = (Ok tt, w') ->
  exists sent before final,
    calls w' = calls w ++ sent
    /\ map snd sent = map inr (before ++ [final])
    /\ forallb (full_page p) before = true
    /\ full_page p final = false.
Proof.
  intros Hall E. unfold restlet_call in E. rewrite Hall in E.
  apply bind_inv in E as [(parsedBody & w1 & Eparse & E)|[(e & _ & [=])|[_ [=]]]].
  assert (w1 = w) as ->.
  { destruct (restletBody p); try (now injection Eparse as _ <-).
    destruct (JSON_parse s); [discriminate|now injection Eparse as _ <-]. }
  apply bind_inv in E as [(start & w1 & Estart & E)|[(e & _ & [=])|[_ [=]]]].
  apply lift_inv in Estart as [-> _]. unfold restlet_paginate in E.
  apply bind_inv in E as [(all' & w2 & Eloop & E)|[(e & _ & [=])|[_ [=]]]].
  apply push_aggregate_inv in E as [_ ->].
  exact (restlet_loop_stops _ _ _ _ _ _ _ _ _ _ Eloop).
Qed.

Lemma hasMore_and_links_eval (response : value) (w : World) :
  hasMore_and_links response w
  = match get response "hasMore" with
    | inl e => (Throw e, w)
    | inr hasMore =>
        if truthy hasMore then
          match get response "links" with
          | inl e => (Throw e, w)
          | inr links => (Ok links, w)
          end
        else (Ok hasMore, w)
    end.
Proof.
  unfold hasMore_and_links, bind.
  destruct (get response "hasMore") as [e|hasMore]; [reflexivity|]. cbn [lift ret].
  destruct (truthy hasMore); [|reflexivity].
  now destruct (get response "links").
Qed.

Lemma suiteql_loop_eq (fuel : nat) (c : Credentials) (body response allItems : value) :
  suiteql_loop fuel c body response allItems
  = bind (hasMore_and_links response) (fun cond =>
      if truthy cond then
        bind (lift (links_find_next cond)) (fun nextLink =>
          if negb (truthy nextLink) then ret (response, allItems)
          else
            bind (lift (get nextLink "href")) (fun nextUrl =>
              match URL_parse (to_string nextUrl) with
              | None => throw (TypeError "Invalid URL")
              | Some urlObj =>
                  match fuel with
                  | O => diverge
                  | S fuel' =>
                      bind (sign c "POST"
                              (protocol urlObj +:+ "//" +:+ host urlObj
                                 +:+ pathname urlObj)
                              (searchParams urlObj)) (fun authHeader =>
                        bind (request {| headers := json_headers authHeader true;
                                         method := VStr "POST";
                                         body := body;
                                         url := nextUrl;
                                         qs := [];
                                         json := true;
                                         resolveWithFullResponse := false |})
                             (fun response' =>
                                bind (lift (get response' "items")) (fun items =>
                                  bind (if truthy items
                                        then lift (js_concat allItems items)
                                        else ret allItems)
                                       (fun allItems' =>
                                          suiteql_loop fuel' c body response' allItems'))))
                  end
              end))
      else ret (response, allItems)).
Proof. now destruct fuel. Qed.

(** a turn of the cursor loop that ends normally: it stops at a response
    that announces no next page, or goes on from one that does *)
Lemma suiteql_loop_turn (fuel : nat) (c : Credentials)
    (body response allItems : value) (w : World) (final items : value) w' :
  suiteql_loop fuel c body response allItems w = (Ok (final, items), w') ->
  (announces_next response = false
   /\ final = response /\ items = allItems /\ w' = w)
  \/ (announces_next response = true
      /\ exists fuel' options response' allItems' w2,
           fuel = S fuel'
           /\ calls w2 = calls w ++ [(options, inr response')]
           /\ suiteql_loop fuel' c body response' allItems' w2 = (Ok (final, items), w')).
Proof.
  rewrite suiteql_loop_eq. unfold bind at 1. rewrite hasMore_and_links_eval.
  unfold announces_next.
  destruct (get response "hasMore") as [e|hasMore]; [discriminate|].
  destruct (truthy hasMore) eqn:Hmore.
  2:{ rewrite Hmore. intros [= <- <- <-]. now left. }
  destruct (get response "links") as [e|links]; [discriminate|].
  destruct (truthy links) eqn:Hlinks; [|intros [= <- <- <-]; now left].
  unfold bind at 1. destruct (links_find_next links) as [e|nextLink]; [discriminate|].
  cbn [lift ret andb]. destruct (truthy nextLink) eqn:Hnext; cbn [negb];
    [|intros [= <- <- <-]; now left].
  intros E. right. split; [reflexivity|].
  apply bind_inv in E as [(nextUrl & w1 & Ehref & E)|[(e & _ & [=])|[_ [=]]]].
  apply lift_inv in Ehref as [-> _].
  destruct (URL_parse (to_string nextUrl)) as [urlObj|]; [|discriminate].
  destruct fuel as [|fuel']; [discriminate|].
  apply bind_inv in E as [(authHeader & w1 & Esign & E)|[(e & _ & [=])|[_ [=]]]].
  apply sign_inv in Esign as (_ & Hc1 & _).
  apply bind_inv in E as [(response' & w2 & Ereq & E)|[(e & _ & [=])|[_ [=]]]].
  apply request_inv in Ereq as (reply & Hc2 & _ & Hreply).
  destruct reply as [|r]; [discriminate|]. injection Hreply as <-.
  apply bind_inv in E as [(its & w3 & Eits & E)|[(e & _ & [=])|[_ [=]]]].
  apply lift_inv in Eits as [-> _].
  apply bind_inv in E as [(allItems' & w3 & Eacc & E)|[(e & _ & [=])|[_ [=]]]].
  assert (w3 = w2) as ->.
  { destruct (truthy its); [now apply lift_inv in Eacc as [-> _]|now injection Eacc as _ <-]. }
  eexists fuel', _, response', allItems', w2. rewrite Hc2, Hc1. now repeat split.
Qed.

Lemma suiteql_loop_stops (c : Credentials) (body : value) (fuel : nat) :
  forall (response allItems : value) (w : World) (final items : value) w',
    suiteql_loop fuel c body response allItems w = (Ok (final, items), w') ->
    exists sent pages before,
      calls w' = calls w ++ sent
      /\ map snd sent = map inr pages
      /\ response :: pages = before ++ [final]
      /\ forallb announces_next before = true
      /\ announces_next final = false.
Proof.
  induction fuel as [|fuel IH]; intros response allItems w final items w' E;
    apply suiteql_loop_turn in E
      as [(Hnot & -> & -> & ->)
         |(Hyes & fuel' & options & response' & allItems' & w2 & Hfuel & Hc2 & E)];
    try (exists [], [], []; rewrite app_nil_r; now repeat split);
    try discriminate.
  injection Hfuel as <-.
  apply IH in E as (sent & pages & before & Hc & Hs & Hchain & Hbefore & Hfinal).
  exists ((options, inr response') :: sent), (response' :: pages), (response :: before).
  rewrite Hc, Hc2, <- app_assoc. cbn [map snd app forallb]. rewrite Hs, Hchain, Hyes, Hbefore.
  now repeat split.
Qed.

(** X30.  A return-all SuiteQL execution that ends normally stopped at
    the first response that did not announce a next page: every response
    it received before the last had a truthy [hasMore && links] and a next
    link among its links, and the last one had not. *)
Theorem suiteql_stops (fuel : nat) (c : Credentials) (p : Parameters) (i : nat)
    (w : World) w' :
  returnAll p = true ->
  suiteql fuel c p i w = (Ok tt, w') ->
  exists sent before final,
    calls w' = calls w ++ sent
    /\ map snd sent = map inr (before ++ [final])
    /\ forallb announces_next before = true
    /\ announces_next final = false.
Proof.
  intros Hall E. unfold suiteql in E. cbv zeta in E. rewrite Hall in E.
  apply bind_inv in E as [(authHeader & w1 & Esign & E)|[(e & _ & [=])|[_ [=]]]].
  apply sign_inv in Esign as (_ & Hc1 & _).
  match type of E with bind (request ?o) _ _ = _ => set (options := o) in * end.
  apply bind_inv in E as [(response & w2 & Ereq & E)|[(e & _ & [=])|[_ [=]]]].
  apply request_inv in Ereq as (reply & Hc2 & _ & Hreply).
  destruct reply as [|r]; [discriminate|]. injection Hreply as <-.
  apply bind_inv in E as [(items & w3 & Eitems & E)|[(e & _ & [=])|[_ [=]]]].
  apply lift_inv in Eitems as [-> _].
  apply bind_inv in E as [(paginate & w3 & Epag & E)|[(e & _ & [=])|[_ [=]]]].
  apply bind_inv in Epag as [(hasMore & w4 & Ehm & Epag)|[(e & _ & [=])|[_ [=]]]].
  apply lift_inv in Ehm as [-> Ehm]. injection Epag as <- <-.
  apply bind_inv in E as [(final & w3 & Efinal & E)|[(e & _ & [=])|[_ [=]]]].
  apply push_inv in E as [_ ->].
  destruct (truthy hasMore) eqn:Hmore.
  - destruct final as [final allItems].
    apply suiteql_loop_stops in Efinal
      as (sent & pages & before & Hc & Hs & Hchain & Hbefore & Hfinal).
    exists ((options, inr response) :: sent), before, final.
    rewrite Hc, Hc2, Hc1, <- app_assoc. cbn [map snd app]. rewrite Hs, <- Hchain.
    now repeat split.
  - injection Efinal as _ <-. exists [(options, inr response)], [], response.
    rewrite Hc2, Hc1. repeat split; trivial.
    unfold announces_next. destruct (get response "hasMore"); [reflexivity|].
    injection Ehm as ->. now rewrite Hmore.
Qed.

End Stops.

(** ** Runs on the scripted host: enough fuel gives the result *)

Lemma sign_scripted (c : Credentials) (method baseUrl : string)
    (extra : list (string * string)) (w : World (H := mock)) :
  exists authHeader w1,
    sign c method baseUrl extra w = (Ok authHeader, w1)
    /\ calls w1 = calls w /\ returnData w1 = returnData w
    /\ pending (world_env w1) = pending (world_env w).
Proof. do 2 eexists. split; [reflexivity|]. auto. Qed.

Lemma request_scripted (options : RequestOptions) (w : World (H := mock))
    (response : value) (later : list (exn + value)) :
  pending (world_env w) = inr response :: later ->
  exists w1,
    request options w = (Ok response, w1)
    /\ calls w1 = calls w ++ [(options, inr response)]
    /\ returnData w1 = returnData w
    /\ pending (world_env w1) = later.
Proof.
  intros Hp. unfold request. cbn [helpers_request mock]. rewrite Hp.
  eexists. split; [reflexivity|]. auto.
Qed.

(** one turn of the offset loop on the scripted host *)
Lemma restlet_loop_scripted_turn (fuel : nat) (c : Credentials) (p : Parameters)
    (i : nat) (parsedBody : value) (allResults : list value) (currentStart : value)
    (w : World (H := mock)) (response : value) (later : list (exn + value)) :
  pending (world_env w) = inr response :: later ->
  exists options w1,
    calls w1 = calls w ++ [(options, inr response)]
    /\ body options = paginatedBody p parsedBody currentStart
    /\ returnData w1 = returnData w
    /\ pending (world_env w1) = later
    /\ restlet_loop (S fuel) c p i parsedBody allResults currentStart w
       = match page_results response with
         | None => bind (push response i) (fun _ => ret allResults) w1
         | Some results =>
             if 0 <? Z.of_nat (length results) then
               if Z.of_nat (length results) <? pageSize p
               then (Ok (allResults ++ results), w1)
               else restlet_loop fuel c p i parsedBody (allResults ++ results)
                                 (js_plus currentStart (pageSize p)) w1
             else (Ok allResults, w1)
         end.
Proof.
  intros Hp.
  destruct (sign_scripted c "POST"
              ("https://" +:+ restletBaseUrl c +:+ "/app/site/hosting/restlet.nl")
              [("script", scriptId p); ("deploy", deployId p)] w)
    as (authHeader & w0 & Hsign & Hc0 & Hr0 & Hp0).
  rewrite Hp in Hp0.
  destruct (request_scripted
              (restlet_options c p authHeader (paginatedBody p parsedBody currentStart))
              w0 response later Hp0) as (w1 & Hreq & Hc1 & Hr1 & Hp1).
  exists (restlet_options c p authHeader (paginatedBody p parsedBody currentStart)), w1.
  rewrite Hc1, Hc0, Hr1, Hr0. repeat split; trivial.
  rewrite restlet_loop_S. unfold restlet_sign.
  rewrite (bind_Ok _ _ _ _ _ Hsign), (bind_Ok _ _ _ _ _ Hreq).
  destruct (page_results response) as [results|]; [|reflexivity].
  destruct (0 <? Z.of_nat (length results)); [|reflexivity].
  destruct (Z.of_nat (length results) <? pageSize p); reflexivity.
Qed.

(** X5.  The loop starts at a number; that number and the one a window
    past the last page are of magnitude [2 ^ 53] at most, so no sum is
    rounded.  When the script holds full pages, each of at least
    [pageSize] results, and then a short or empty page, the offset loop
    with one unit of fuel per page returns all their results in order; it
    sends one request per page, the [k]-th with the parsed body whose
    start field is [start + k * pageSize] and whose end field is
    [start + (k + 1) * pageSize], and leaves the rest of the script
    alone. *)
Theorem restlet_loop_scripted (c : Credentials) (p : Parameters) (i : nat)
    (parsedBody : value) (full : list value) :
  forall (short : value) (later : list (exn + value)) (allResults : list value)
         (start : Z) (w : World (H := mock)),
    0 < pageSize p ->
    exact start = true ->
    exact (start + Z.of_nat (S (length full)) * pageSize p) = true ->
    forallb (fun page => match page_results page with
                         | Some results => pageSize p <=? Z.of_nat (length results)
                         | None => false
                         end) full = true ->
    match page_results short with
    | Some results => Z.of_nat (length results) <? pageSize p
    | None => false
    end = true ->
    pending (world_env w) = map inr (full ++ [short]) ++ later ->
    exists sent w',
      restlet_loop (S (length full)) c p i parsedBody allResults (VNum start) w
      = (Ok (allResults
               ++ concat (map (fun page => default [] (page_results page))
                              (full ++ [short]))), w')
      /\ calls w' = calls w ++ sent
      /\ map snd sent = map inr (full ++ [short])
      /\ map (fun call => body call.1) sent
         = map (fun k =>
                  VObj (<[endIndexField p := VNum (start + Z.of_nat k * pageSize p
                                                     + pageSize p)]>
                          (<[startIndexField p := VNum (start + Z.of_nat k * pageSize p)]>
                             (spread parsedBody))))
               (seq 0 (S (length full)))
      /\ returnData w' = returnData w
      /\ pending (world_env w') = later.
Proof.
  intros short later. induction full as [|page full IH];
    intros allResults start w Hsize Hstart Hend Hfull Hshort Hp;
    destruct (exact_step _ _ _ Hstart Hend) as [Hnext Hend'].
  - cbn [app map] in Hp.
    destruct (restlet_loop_scripted_turn 0 c p i parsedBody allResults (VNum start)
                w short later Hp) as (options & w1 & Hc & Hb & Hr & Hp1 & Hturn).
    exists [(options, inr short)], w1. cbn [length]. rewrite Hturn.
    destruct (page_results short) as [results|] eqn:Eresults; [|discriminate].
    rewrite Hshort. cbn [app map concat seq fst snd].
    rewrite Eresults. cbn [default from_option id].
    rewrite app_nil_r, Hb, (paginatedBody_exact _ _ _ Hnext), Z.mul_0_l, Z.add_0_r.
    repeat split; trivial.
    destruct (0 <? Z.of_nat (length results)) eqn:Hpos; trivial.
    apply Z.ltb_ge in Hpos. destruct results; [now rewrite app_nil_r|].
    cbn [length] in Hpos. lia.
  - cbn [forallb] in Hfull. apply andb_prop in Hfull as [Hpage Hfull].
    cbn [app map] in Hp.
    destruct (restlet_loop_scripted_turn (S (length full)) c p i parsedBody allResults
                (VNum start) w page _ Hp) as (options & w1 & Hc & Hb & Hr & Hp1 & Hturn).
    destruct (page_results page) as [results|] eqn:Eresults; [|discriminate].
    apply Z.leb_le in Hpage.
    assert (Hpos : (0 <? Z.of_nat (length results)) = true) by (apply Z.ltb_lt; lia).
    assert (Hnotshort : (Z.of_nat (length results) <? pageSize p) = false)
      by (apply Z.ltb_ge; lia).
    rewrite Hpos, Hnotshort, (js_plus_exact _ _ Hnext) in Hturn.
    destruct (IH (allResults ++ results) (start + pageSize p) w1 Hsize Hnext Hend'
                 Hfull Hshort Hp1)
      as (sent & w' & Hrun & Hcalls & Hreplies & Hbodies & Hret & Hpend).
    exists ((options, inr page) :: sent), w'. cbn [length]. rewrite Hturn, Hrun.
    cbn [app map concat fst snd]. rewrite Eresults. cbn [default from_option id].
    rewrite <- app_assoc, Hcalls, Hc, <- app_assoc, Hreplies, Hret, Hr.
    repeat split; trivial.
    rewrite Hb, Hbodies, (paginatedBody_exact _ _ _ Hnext).
    change (seq 0 (S (S (length full)))) with (0%nat :: seq 1 (S (length full))).
    rewrite <- seq_shift. cbn [map]. rewrite List.map_map, Z.mul_0_l, Z.add_0_r.
    f_equal. apply map_ext. intros k.
    now replace (start + pageSize p + Z.of_nat k * pageSize p)
      with (start + Z.of_nat (S k) * pageSize p) by lia.
Qed.

Lemma hasMore_and_links_obj (m : gmap string value) (w : World (H := mock)) :
  hasMore_and_links (VObj m) w
  = (Ok (if truthy (prop (VObj m) "hasMore")
         then prop (VObj m) "links" else prop (VObj m) "hasMore"), w).
Proof.
  unfold hasMore_and_links. rewrite get_obj. erewrite bind_Ok by reflexivity.
  now destruct (truthy _).
Qed.

Lemma suiteql_loop_last (fuel : nat) (c : Credentials) (body response : value)
    (allItems : value) (w : World (H := mock)) :
  well_formed_page response = true ->
  truthy (prop response "hasMore") = false ->
  suiteql_loop fuel c body response allItems w = (Ok (response, allItems), w).
Proof.
  destruct response as [| | | | | |m| |]; try discriminate. intros _ Hmore.
  destruct fuel; cbn [suiteql_loop];
    rewrite (bind_Ok _ _ _ _ _ (hasMore_and_links_obj m w)), Hmore, Hmore; reflexivity.
Qed.

(** one turn of the cursor loop on the scripted host *)
Lemma suiteql_loop_scripted_turn (fuel : nat) (c : Credentials) (body : value)
    (response : value) (acc : list value) (w : World (H := mock))
    (nextUrl next : value) (later : list (exn + value)) :
  next_href response = Some nextUrl ->
  well_formed_page next = true ->
  pending (world_env w) = inr next :: later ->
  exists options w1,
    suiteql_loop (S fuel) c body response (VArr acc) w
    = suiteql_loop fuel c body next (VArr (acc ++ items_of next)) w1
    /\ calls w1 = calls w ++ [(options, inr next)]
    /\ url options = nextUrl
    /\ returnData w1 = returnData w
    /\ pending (world_env w1) = later.
Proof.
  unfold next_href. intros Hhref Hnext Hp.
  destruct (truthy (prop response "hasMore")) eqn:Hmore; [|discriminate].
  destruct response as [| | | | | |m| |]; try discriminate.
  destruct (prop (VObj m) "links") as [| | | | |links| | |] eqn:Hlinks; try discriminate.
  destruct (find_next links) as [|nextLink] eqn:Hfind; [discriminate|].
  destruct (truthy nextLink) eqn:Htruthy; [|discriminate].
  destruct (get nextLink "href") as [|href] eqn:Hget; [discriminate|].
  destruct (mock_URL_parse (to_string href)) as [urlObj|] eqn:Hparse; [|discriminate].
  injection Hhref as ->.
  destruct (sign_scripted c "POST"
              (protocol urlObj +:+ "//" +:+ host urlObj +:+ pathname urlObj)
              (searchParams urlObj) w)
    as (authHeader & w0 & Hsign & Hc0 & Hr0 & Hp0).
  rewrite Hp in Hp0.
  set (options := {| headers := json_headers authHeader true;
                     method := VStr "POST";
                     body := body;
                     url := nextUrl;
                     qs := [];
                     json := true;
                     resolveWithFullResponse := false |}).
  destruct (request_scripted options w0 next later Hp0) as (w1 & Hreq & Hc1 & Hr1 & Hp1).
  exists options, w1. rewrite Hc1, Hc0, Hr1, Hr0. repeat split; trivial.
  cbn [suiteql_loop].
  rewrite (bind_Ok _ _ _ _ _ (hasMore_and_links_obj m w)), Hmore, Hlinks.
  cbn [truthy links_find_next].
  rewrite Hfind. erewrite bind_Ok by reflexivity. rewrite Htruthy. cbn [negb].
  rewrite Hget. erewrite bind_Ok by reflexivity.
  cbn [URL_parse mock]. rewrite Hparse.
  rewrite (bind_Ok _ _ _ _ _ Hsign). fold options.
  rewrite (bind_Ok _ _ _ _ _ Hreq).
  pose proof (accumulate_well_formed acc next Hnext) as Hacc. unfold accumulate in Hacc.
  destruct (get next "items") as [|items]; [discriminate|].
  erewrite bind_Ok by reflexivity.
  destruct (truthy items).
  - rewrite Hacc. erewrite bind_Ok by reflexivity. reflexivity.
  - injection Hacc as <-. erewrite bind_Ok by reflexivity. reflexivity.
Qed.

Lemma suiteql_loop_scripted (c : Credentials) (body : value)
    (later : list (exn + value)) (following : list value) :
  forall (response : value) (acc : list value) (fuel : nat) (w : World (H := mock)),
    well_formed_page response = true ->
    chain response following = true ->
    pending (world_env w) = map inr following ++ later ->
    (length following <= fuel)%nat ->
    exists sent w',
      suiteql_loop fuel c body response (VArr acc) w
      = (Ok (List.last following response,
             VArr (acc ++ concat (map items_of following))), w')
      /\ calls w' = calls w ++ sent
      /\ map snd sent = map inr following
      /\ map (fun call => url call.1) sent = chain_hrefs response following
      /\ returnData w' = returnData w
      /\ pending (world_env w') = later.
Proof.
  induction following as [|next following IH]; intros response acc fuel w Hwf Hchain Hp Hfuel.
  - exists [], w. cbn [chain] in Hchain. apply negb_true_iff in Hchain.
    rewrite (suiteql_loop_last _ _ _ _ _ _ Hwf Hchain).
    cbn [map concat List.last chain_hrefs]. now rewrite !app_nil_r.
  - cbn [chain] in Hchain.
    apply andb_prop in Hchain as [Hchain Hrest].
    apply andb_prop in Hchain as [Hhref Hnext].
    apply bool_decide_eq_true in Hhref as [nextUrl Hhref].
    destruct fuel as [|fuel]; [cbn [length] in Hfuel; lia|].
    cbn [map app] in Hp.
    destruct (suiteql_loop_scripted_turn fuel c body response acc w nextUrl next _
                Hhref Hnext Hp) as (options & w1 & Hturn & Hc & Hurl & Hr & Hp1).
    destruct (IH next (acc ++ items_of next) fuel w1 Hnext Hrest Hp1)
      as (sent & w' & Hrun & Hcalls & Hreplies & Hurls & Hret & Hpend).
    { cbn [length] in Hfuel. lia. }
    exists ((options, inr next) :: sent), w'.
    rewrite Hturn, Hrun, last_cons, Hcalls, Hc, Hret, Hr, <- !app_assoc.
    cbn [map concat chain_hrefs fst snd app]. rewrite Hreplies, Hurls, Hurl, Hhref.
    repeat split; trivial.
Qed.

(** X6.  With return-all pagination on the scripted host, when the script
    holds a well-formed first page and a chain of pages after it, a run with
    one unit of fuel per follow-up request ends normally: it sends the first
    request to the query endpoint and each follow-up to the [href] of the
    page before, receives the chain in order, and emits one record, the
    last page with the items of all pages, their count and [hasMore] false. *)
Theorem suiteql_scripted (c : Credentials) (p : Parameters) (i : nat)
    (first : value) (following : list value) (later : list (exn + value))
    (w : World (H := mock)) :
  returnAll p = true ->
  well_formed_page first = true ->
  chain first following = true ->
  pending (world_env w) = map inr (first :: following) ++ later ->
  exists sent w',
    suiteql (length following) c p i w = (Ok tt, w')
    /\ calls w' = calls w ++ sent
    /\ map snd sent = map inr (first :: following)
    /\ map (fun call => url call.1) sent
       = VStr ("https://" +:+ companyUrl c +:+ "/services/rest/query/v1/suiteql")
           :: chain_hrefs first following
    /\ returnData w'
       = returnData w
           ++ [{| out_json :=
                    combined (List.last following first)
                             (VArr (concat (map items_of (first :: following))));
                  pairedItem := i |}]
    /\ pending (world_env w') = later.
Proof.
  intros Hall Hwf Hchain Hp. unfold suiteql. rewrite Hall.
  destruct (sign_scripted c "POST"
              ("https://" +:+ companyUrl c +:+ "/services/rest/query/v1/suiteql") [] w)
    as (authHeader & w0 & Hsign & Hc0 & Hr0 & Hp0).
  rewrite Hp in Hp0. cbn [map app] in Hp0.
  rewrite (bind_Ok _ _ _ _ _ Hsign).
  match goal with |- context [request ?o] => set (options := o) end.
  destruct (request_scripted options w0 first _ Hp0) as (w1 & Hreq & Hc1 & Hr1 & Hp1).
  rewrite (bind_Ok _ _ _ _ _ Hreq).
  destruct (first_items_well_formed first Hwf) as (items & Hitems & Hor).
  rewrite Hitems. erewrite bind_Ok by reflexivity. rewrite Hor.
  assert (Hloop : exists sent w',
             (if truthy (prop first "hasMore")
              then suiteql_loop (length following) c (VObj {[ "q" := VStr (query p) ]})
                                first (VArr (items_of first))
              else ret (first, VArr (items_of first))) w1
             = (Ok (List.last following first,
                    VArr (items_of first ++ concat (map items_of following))), w')
             /\ calls w' = calls w1 ++ sent
             /\ map snd sent = map inr following
             /\ map (fun call => url call.1) sent = chain_hrefs first following
             /\ returnData w' = returnData w1
             /\ pending (world_env w') = later).
  { destruct (truthy (prop first "hasMore")) eqn:Hmore.
    - now apply suiteql_loop_scripted.
    - destruct following as [|next following].
      + exists [], w1. cbn [map concat List.last chain_hrefs]. now rewrite !app_nil_r.
      + cbn [chain] in Hchain. apply andb_prop in Hchain as [Hchain _].
        apply andb_prop in Hchain as [Hhref _].
        apply bool_decide_eq_true in Hhref as [nextUrl Hhref].
        unfold next_href in Hhref. now rewrite Hmore in Hhref. }
  destruct Hloop as (sent & w' & Hrun & Hcalls & Hreplies & Hurls & Hret & Hpend).
  destruct first as [| | | | | |m| |]; try discriminate.
  rewrite get_obj. erewrite bind_Ok by reflexivity.
  rewrite (bind_Ok _ _ _ _ _ Hrun), push_eq. cbn [fst snd].
  exists ((options, inr (VObj m)) :: sent). eexists. split; [reflexivity|].
  cbn [calls returnData world_env map concat fst snd url options].
  rewrite Hcalls, Hc1, Hc0, Hret, Hr1, Hr0, Hreplies, Hurls, <- app_assoc.
  repeat split; trivial. 
Qed.

(** ** Servers that never say stop *)

Lemma suiteql_loop_starved (c : Credentials) (body response allItems : value)
    (w : World (H := mock)) :
  is_Some (next_href response) ->
  suiteql_loop 0 c body response allItems w = (OutOfFuel, w).
Proof.
  unfold next_href. intros [nextUrl Hhref].
  destruct (truthy (prop response "hasMore")) eqn:Hmore; [|discriminate].
  destruct response as [| | | | | |m| |]; try discriminate.
  destruct (prop (VObj m) "links") as [| | | | |links| | |] eqn:Hlinks; try discriminate.
  destruct (find_next links) as [|nextLink] eqn:Hfind; [discriminate|].
  destruct (truthy nextLink) eqn:Htruthy; [|discriminate].
  destruct (get nextLink "href") as [|href] eqn:Hget; [discriminate|].
  destruct (mock_URL_parse (to_string href)) as [urlObj|] eqn:Hparse; [|discriminate].
  cbn [suiteql_loop].
  rewrite (bind_Ok _ _ _ _ _ (hasMore_and_links_obj m w)), Hmore, Hlinks.
  cbn [truthy links_find_next].
  rewrite Hfind. erewrite bind_Ok by reflexivity. rewrite Htruthy. cbn [negb].
  rewrite Hget. erewrite bind_Ok by reflexivity.
  cbn [URL_parse mock]. now rewrite Hparse.
Qed.

Lemma suiteql_loop_unending (c : Credentials) (body page : value)
    (later : list (exn + value)) (n : nat) :
  well_formed_page page = true ->
  is_Some (next_href page) ->
  forall (acc : list value) (w : World (H := mock)),
    pending (world_env w) = map inr (replicate n page) ++ later ->
    exists w',
      suiteql_loop n c body page (VArr acc) w = (OutOfFuel, w')
      /\ length (calls w') = (length (calls w) + n)%nat
      /\ returnData w' = returnData w.
Proof.
  intros Hwf Hnext. induction n as [|n IH]; intros acc w Hp.
  - exists w. rewrite (suiteql_loop_starved _ _ _ _ _ Hnext). now rewrite Nat.add_0_r.
  - destruct Hnext as [nextUrl Hhref] eqn:Hn. cbn [replicate map app] in Hp.
    destruct (suiteql_loop_scripted_turn n c body page acc w nextUrl page _ Hhref Hwf Hp)
      as (options & w1 & Hturn & Hc & _ & Hr & Hp1).
    destruct (IH (acc ++ items_of page) w1 Hp1) as (w' & Hrun & Hlen & Hret).
    exists w'. rewrite Hturn, Hrun, Hlen, Hret, Hc, Hr, length_app. cbn [length].
    repeat split; trivial. lia.
Qed.

(** X24.  The cursor loop has no bound of its own: on a server that
    answers every request with the same well-formed page, one that reports
    more and carries a next link, a return-all run given [n] follow-up
    requests makes them all, [n + 1] requests with the first, and is still
    not done; it has emitted nothing. *)
Theorem suiteql_no_request_bound (n : nat) (c : Credentials) (p : Parameters)
    (i : nat) (page : value) (later : list (exn + value)) (w : World (H := mock)) :
  returnAll p = true ->
  well_formed_page page = true ->
  is_Some (next_href page) ->
  pending (world_env w) = map inr (replicate (S n) page) ++ later ->
  exists w',
    suiteql n c p i w = (OutOfFuel, w')
    /\ length (calls w') = (length (calls w) + S n)%nat
    /\ returnData w' = returnData w.
Proof.
  intros Hall Hwf Hnext Hp. unfold suiteql. rewrite Hall.
  destruct (sign_scripted c "POST"
              ("https://" +:+ companyUrl c +:+ "/services/rest/query/v1/suiteql") [] w)
    as (authHeader & w0 & Hsign & Hc0 & Hr0 & Hp0).
  rewrite Hp in Hp0. cbn [replicate map app] in Hp0.
  rewrite (bind_Ok _ _ _ _ _ Hsign).
  match goal with |- context [request ?o] => set (options := o) end.
  destruct (request_scripted options w0 page _ Hp0) as (w1 & Hreq & Hc1 & Hr1 & Hp1).
  rewrite (bind_Ok _ _ _ _ _ Hreq).
  destruct (first_items_well_formed page Hwf) as (items & Hitems & Hor).
  rewrite Hitems. erewrite bind_Ok by reflexivity. rewrite Hor.
  assert (Hmore : truthy (prop page "hasMore") = true).
  { destruct Hnext as [nextUrl Hhref]. unfold next_href in Hhref.
    now destruct (truthy (prop page "hasMore")). }
  destruct (suiteql_loop_unending c (VObj {[ "q" := VStr (query p) ]}) page later n
              Hwf Hnext (items_of page) w1 Hp1) as (w' & Hrun & Hlen & Hret).
  destruct page as [| | | | | |m| |]; try discriminate.
  rewrite get_obj. erewrite bind_Ok by reflexivity. rewrite Hmore.
  exists w'. unfold bind at 1. rewrite Hrun.
  rewrite Hlen, Hret, Hc1, Hc0, Hr1, Hr0, length_app. cbn [length].
  repeat split; trivial. lia.
Qed.

Lemma restlet_loop_unending (c : Credentials) (p : Parameters) (i : nat)
    (parsedBody page : value) (results : list value) (later : list (exn + value))
    (n : nat) :
  0 < pageSize p ->
  page_results page = Some results ->
  pageSize p <= Z.of_nat (length results) ->
  forall (allResults : list value) (currentStart : value) (w : World (H := mock)),
    pending (world_env w) = map inr (replicate n page) ++ later ->
    exists w',
      restlet_loop n c p i parsedBody allResults currentStart w = (OutOfFuel, w')
      /\ length (calls w') = (length (calls w) + n)%nat
      /\ returnData w' = returnData w.
Proof.
  intros Hsize Hres Hfull. induction n as [|n IH]; intros allResults currentStart w Hp.
  - exists w. now rewrite Nat.add_0_r.
  - cbn [replicate map app] in Hp.
    destruct (restlet_loop_scripted_turn n c p i parsedBody allResults currentStart w
                page _ Hp) as (options & w1 & Hc & _ & Hr & Hp1 & Hturn).
    rewrite Hres in Hturn.
    assert (Hpos : (0 <? Z.of_nat (length results)) = true) by (apply Z.ltb_lt; lia).
    assert (Hnotshort : (Z.of_nat (length results) <? pageSize p) = false)
      by (apply Z.ltb_ge; lia).
    rewrite Hpos, Hnotshort in Hturn.
    destruct (IH (allResults ++ results) (js_plus currentStart (pageSize p)) w1 Hp1)
      as (w' & Hrun & Hlen & Hret).
    exists w'. rewrite Hturn, Hrun, Hlen, Hret, Hc, Hr, length_app. cbn [length].
    repeat split; trivial. lia.
Qed.

(** X25.  The offset loop has no bound of its own either: on a server
    that answers every request with a full page (at least [pageSize]
    results, [pageSize] positive), the loop given [n] requests makes them
    all and is still not done; it has emitted nothing. *)
Theorem restlet_no_request_bound (n : nat) (c : Credentials) (p : Parameters)
    (i : nat) (parsedBody page : value) (results : list value)
    (later : list (exn + value)) (allResults : list value) (currentStart : value)
    (w : World (H := mock)) :
  0 < pageSize p ->
  page_results page = Some results ->
  pageSize p <= Z.of_nat (length results) ->
  pending (world_env w) = map inr (replicate n page) ++ later ->
  exists w',
    restlet_loop n c p i parsedBody allResults currentStart w = (OutOfFuel, w')
    /\ length (calls w') = (length (calls w) + n)%nat
    /\ returnData w' = returnData w.
Proof.
  intros Hsize Hres Hfull Hp.
  exact (restlet_loop_unending c p i parsedBody page results later n Hsize Hres Hfull
           allResults currentStart w Hp).
Qed.

(** ** The scenarios of the specification, run on the scripted host *)

(** three pages with [hasMore] true, true, false and 2, 2 and 1 items: one
    result with 5 items, [count] 5 and [hasMore] false, after 3 requests *)
Example suiteql_three_pages :
  let run := suiteql 5 creds all_pages 0 (world three_pages) in
  run.1 = Ok tt
  /\ request_count run = 3%nat
  /\ emitted run
     = [obj [("items", nums [1; 2; 3; 4; 5]); ("count", VNum 5);
             ("hasMore", VBool false); ("links", VArr []); ("offset", VNum 0)]].
Proof. vm_compute. auto. Qed.

(** pages of 3, 3 and 1 results with [pageSize] 3: 7 results, 3 requests
    asking for the windows 0-3, 3-6 and 6-9 *)
Example restlet_three_pages :
  let run := restlet_call 5 creds all_pages 0
               (world [results_page [1; 2; 3]; results_page [4; 5; 6];
                                 results_page [7]; results_page [8]]) in
  run.1 = Ok tt
  /\ request_windows run = [(VNum 0, VNum 3); (VNum 3, VNum 6); (VNum 6, VNum 9)]
  /\ emitted run = [obj [("results", nums [1; 2; 3; 4; 5; 6; 7]); ("total", VNum 7)]].
Proof. vm_compute. auto. Qed.

(** a transform of sales order 42 into an invoice *)
Example record_transform_url :
  let run := record creds (record_op "transform" "42") 0
               (world [obj [("body", obj [("id", VStr "77")])]]) in
  map (fun call => (method call.1, url call.1)) (calls run.2)
  = [(VStr "POST",
      VStr "https://1234567.suitetalk.api.netsuite.com/services/rest/record/v1/salesOrder/42/!transform/invoice")].
Proof. vm_compute. reflexivity. Qed.

(** a create answered with no body and a [Location] header: the trailing
    path segment becomes the [id] *)
Example record_create_location :
  let run := record creds (record_op "create" "") 0
               (world [obj [("headers",
                             obj [("location",
                                   VStr "https://1234567.suitetalk.api.netsuite.com/services/rest/record/v1/salesOrder/12345")])]]) in
  run.1 = Ok tt
  /\ emitted run
     = [obj [("id", VStr "12345");
             ("location",
              VStr "https://1234567.suitetalk.api.netsuite.com/services/rest/record/v1/salesOrder/12345")]].
Proof. vm_compute. auto. Qed.

(** [hasMore: true] without a next link: the run ends after the one
    request, without an error *)
Example suiteql_defensive_exit :
  let run := suiteql 5 creds all_pages 0
               (world [suiteql_page [1; 2] true [obj [("rel", VStr "self")]];
                       suiteql_page [3] false []]) in
  run.1 = Ok tt
  /\ request_count run = 1%nat
  /\ map (fun result => (prop result "items", prop result "count", prop result "hasMore"))
         (emitted run)
     = [(nums [1; 2], VNum 2, VBool false)].
Proof. vm_compute. auto. Qed.

(** an upload of [Report.PDF]: one POST to the RESTlet URL, the script and
    deployment in the query string, the file in base64 in the body *)
Example uploadFile_pdf :
  let run := uploadFile creds {| binary := Some {["data" := obj [("fileName", VStr "Report.PDF")]]} |}
               (upload_of "Report.PDF") 0
               (initial {| pending := [inr (obj [("success", VBool true)])];
                           clock := 1700000000000; counter := 0;
                           file := [37; 80; 68; 70] |}) in
  run.1 = Ok tt
  /\ map (fun call => (url call.1, qs call.1,
                       prop (body call.1) "fileType", prop (body call.1) "base64Content"))
         (calls run.2)
     = [(VStr "https://1234567.suitetalk.api.netsuite.com/app/site/hosting/restlet.nl",
         [("script", "123"); ("deploy", "1")], VStr "PDF", VStr "JVBERg==")]
  /\ (uploadFile creds {| binary := None |} (upload_of "Report.PDF") 0 (world [])).1
     = Throw (NodeOperationError
                "No binary data found on item 0. The node expects an incoming file.")
  /\ (uploadFile creds {| binary := Some {["data" := obj []]} |} (upload_of "notes.TXT") 0
        (world [])).1
     = Throw (NodeOperationError
                "Unsupported file type: .txt. Only PDF, Excel, and CSV files are supported.").
Proof. vm_compute. auto. Qed.

(** ** Witnesses and counterexamples *)

Lemma suiteql_returnAll_combined_witness :
  exists out w',
    returnAll all_pages = true
    /\ suiteql 5 creds all_pages 0 (world three_pages) = (out, w')
    /\ map snd (calls w')
       = map snd (calls (world three_pages))
           ++ map inr ([suiteql_page [1; 2] true [next_link (suiteql_url 2)];
                        suiteql_page [3; 4] true [next_link (suiteql_url 4)]]
                         ++ [suiteql_page [5] false []])
    /\ out = Ok tt
    /\ map out_json (returnData w')
       = [obj [("items", nums [1; 2; 3; 4; 5]); ("count", VNum 5);
               ("hasMore", VBool false); ("links", VArr []); ("offset", VNum 0)]].
Proof.
  eexists _, _.
  assert (Hrun : suiteql 5 creds all_pages 0 (world three_pages)
                 = ((suiteql 5 creds all_pages 0 (world three_pages)).1,
                    (suiteql 5 creds all_pages 0 (world three_pages)).2))
    by apply surjective_pairing.
  assert (Htrace : map snd (calls (suiteql 5 creds all_pages 0
                                     (world three_pages)).2)
                   = map snd (calls (world three_pages))
                       ++ map inr ([suiteql_page [1; 2] true [next_link (suiteql_url 2)];
                                    suiteql_page [3; 4] true [next_link (suiteql_url 4)]]
                                     ++ [suiteql_page [5] false []]))
    by (vm_compute; reflexivity).
  destruct (suiteql_returnAll_combined (H := mock) 5 creds all_pages 0 _ _ _ _ _
              eq_refl Hrun Htrace eq_refl eq_refl) as [Hout Hdata].
  split; [reflexivity|]. split; [exact Hrun|]. split; [exact Htrace|].
  split; [exact Hout|]. rewrite Hdata. vm_compute. reflexivity.
Defined.

(** C2: the code differs.  Without return-all pagination the server's
    first page says [hasMore: true]; the run sends one request and emits
    that page with [hasMore: false]: the push that sets [hasMore] "since
    we've fetched all" is shared by both modes. *)
Theorem suiteql_first_page_hasMore_forced :
  let page := suiteql_page [1; 2] true [next_link (suiteql_url 2)] in
  let run := suiteql 5 creds first_page_only 0 (world [page]) in
  prop page "hasMore" = VBool true
  /\ run.1 = Ok tt
  /\ request_count run = 1%nat
  /\ map (fun result => (prop result "items", prop result "hasMore")) (emitted run)
     = [(nums [1; 2], VBool false)].
Proof. vm_compute. auto. Qed.

(** C3: the code differs.  A RESTlet call whose script identifier has
    parentheses sends, in its Authorization header, the signature over
    [script=customscript_sync(v2)]: [encodeURIComponent] leaves
    [! ' ( ) *] alone.  Percent encoding per RFC 3986 signs
    [script=customscript_sync%28v2%29], and the two signatures differ. *)
Theorem signature_differs_from_rfc3986 :
  let run := restlet_call 1 creds versioned_call 0 (world [results_page [1]]) in
  let merged := merged_params creds "1700000000" "00000000000000000000000000000000"
                              versioned_script in
  map (fun call => headers call.1) (calls run.2)
  = [[("Authorization",
       authHeader creds "1700000000" "00000000000000000000000000000000"
                  (signature creds "POST" restlet_base merged));
      ("Content-Type", "application/json")]]
  /\ sortedParams merged
     = "deploy=1&oauth_consumer_key=ck&oauth_nonce=00000000000000000000000000000000&oauth_signature_method=HMAC-SHA256&oauth_timestamp=1700000000&oauth_token=tk&oauth_version=1.0&script=customscript_sync(v2)"
  /\ spec_sortedParams merged
     = "deploy=1&oauth_consumer_key=ck&oauth_nonce=00000000000000000000000000000000&oauth_signature_method=HMAC-SHA256&oauth_timestamp=1700000000&oauth_token=tk&oauth_version=1.0&script=customscript_sync%28v2%29"
  /\ signature creds "POST" restlet_base merged
     = "YB/+fxIqVWYrzGMwSMw43DOD6bIyHHjnsglzTz6QlMs="
  /\ spec_signature creds "POST" restlet_base merged
     = "yRCkui62p6I9HGUtH8Rj0FKrmgcwKq5NNUAWQ6wzUv8="
  /\ signature creds "POST" restlet_base merged
     <> spec_signature creds "POST" restlet_base merged.
Proof. vm_compute. repeat split; trivial. discriminate. Qed.

(** C4 fails as stated: with [pageSize] 3 and pages of 3, 3 and 1
    results, a run whose body gives the start index 9007199254740992
    asks for windows that start at ...992, ...996 and ...000: from
    [2 ^ 53] a double has even values only, and the sum is rounded, so
    the start is not advanced by 3.  A run whose body gives the start
    index as the text "0" asks for windows that start at "0", "03" and
    "033": [+=] joins the text and the digits. *)
Lemma restlet_start_not_advanced :
  let run := restlet_call 5 creds (started_at (VNum 9007199254740992)) 0
               (world offset_pages) in
  let text := restlet_call 5 creds (started_at (VStr "0")) 0 (world offset_pages) in
  pageSize (started_at (VNum 9007199254740992)) = 3
  /\ run.1 = Ok tt
  /\ request_windows run
     = [(VNum 9007199254740992, VNum 9007199254740996);
        (VNum 9007199254740996, VNum 9007199254741000);
        (VNum 9007199254741000, VNum 9007199254741004)]
  /\ map fst (request_windows run)
     <> map VNum [9007199254740992; 9007199254740992 + 3; 9007199254740992 + 3 + 3]
  /\ text.1 = Ok tt
  /\ request_windows text
     = [(VStr "0", VStr "03"); (VStr "03", VStr "033"); (VStr "033", VStr "0333")]
  /\ map fst (request_windows text) <> map VNum [0; 0 + 3; 0 + 3 + 3].
Proof. vm_compute. repeat split; trivial; discriminate. Qed.

Lemma restlet_loop_page_witness :
  exists authHeader w1 w2,
    exact (0 + pageSize all_pages) = true
    /\ restlet_sign creds all_pages (world offset_pages) = (Ok authHeader, w1)
    /\ request (restlet_options creds all_pages authHeader
                  (paginatedBody all_pages (restletBody all_pages) (VNum 0))) w1
       = (Ok (results_page [1; 2; 3]), w2)
    /\ page_results (results_page [1; 2; 3]) = Some [VNum 1; VNum 2; VNum 3]
    /\ restlet_loop 3 creds all_pages 0 (restletBody all_pages) [] (VNum 0)
         (world offset_pages)
       = restlet_loop 2 creds all_pages 0 (restletBody all_pages)
           [VNum 1; VNum 2; VNum 3] (VNum 3) w2.
Proof.
  eexists _, _, _.
  split; [reflexivity|]. split; [reflexivity|]. split; [reflexivity|].
  split; [reflexivity|].
  exact (restlet_loop_page (H := mock) 2 creds all_pages 0 (restletBody all_pages) [] 0
           (world offset_pages) _ _ _ _ _ eq_refl eq_refl eq_refl eq_refl).
Defined.

(** C5 fails as stated: the server answers [{results: []}] to the first
    request; the run makes that one request and emits nothing, not
    [{results: [], total: 0}]. *)
Lemma restlet_empty_first_page_emits_nothing :
  let run := restlet_call 5 creds all_pages 0
               (world [results_page []; results_page [1]]) in
  run.1 = Ok tt
  /\ request_count run = 1%nat
  /\ emitted run = []
  /\ emitted run <> [obj [("results", VArr []); ("total", VNum 0)]].
Proof. vm_compute. repeat split; trivial. discriminate. Qed.

Lemma restlet_empty_first_page_witness :
  exists authHeader w1 w2,
    restlet_sign creds all_pages (world [results_page []])
    = (Ok authHeader, w1)
    /\ request (restlet_options creds all_pages authHeader
                  (paginatedBody all_pages (restletBody all_pages) (VNum 0))) w1
       = (Ok (results_page []), w2)
    /\ page_results (results_page []) = Some []
    /\ restlet_paginate 1 creds all_pages 0 (restletBody all_pages) [] (VNum 0)
         (world [results_page []])
       = (Ok tt, w2)
    /\ returnData w2 = []
    /\ length (calls w2) = 1%nat.
Proof.
  eexists _, _, _.
  split; [reflexivity|]. split; [reflexivity|]. split; [reflexivity|].
  exact (restlet_empty_first_page (H := mock) 0 creds all_pages 0 (restletBody all_pages) (VNum 0)
           (world [results_page []]) _ _ _ _ eq_refl eq_refl eq_refl).
Defined.

(** C6 fails as stated: after a full page of 3 results the server answers
    [{error: ...}]; the item gets two results, the raw response and then
    the aggregate of the first page. *)
Lemma restlet_unrecognized_after_results :
  let raw := obj [("error", VStr "SSS_USAGE_LIMIT_EXCEEDED")] in
  let run := restlet_call 5 creds all_pages 0
               (world [results_page [1; 2; 3]; raw]) in
  run.1 = Ok tt
  /\ page_results raw = None
  /\ request_count run = 2%nat
  /\ emitted run = [raw; obj [("results", nums [1; 2; 3]); ("total", VNum 3)]]
  /\ emitted run <> [raw].
Proof. vm_compute. repeat split; trivial. discriminate. Qed.

Lemma restlet_unrecognized_page_witness :
  exists authHeader w1 w2 w3,
    restlet_sign creds all_pages (world [VStr "maintenance"])
    = (Ok authHeader, w1)
    /\ request (restlet_options creds all_pages authHeader
                  (paginatedBody all_pages (restletBody all_pages) (VNum 0))) w1
       = (Ok (VStr "maintenance"), w2)
    /\ page_results (VStr "maintenance") = None
    /\ restlet_paginate 1 creds all_pages 0 (restletBody all_pages) [] (VNum 0)
         (world [VStr "maintenance"])
       = (Ok tt, w3)
    /\ calls w3 = calls w2
    /\ returnData w3 = [{| out_json := VStr "maintenance"; pairedItem := 0 |}].
Proof.
  eexists _, _, _.
  destruct (restlet_unrecognized_page (H := mock) 0 creds all_pages 0 (restletBody all_pages) []
              (VNum 0) (world [VStr "maintenance"]) _ _ _ _
              eq_refl eq_refl eq_refl) as (w3 & Hrun & Hcalls & Hdata).
  exists w3.
  split; [reflexivity|]. split; [reflexivity|]. split; [reflexivity|].
  split; [exact Hrun|]. split; [exact Hcalls|exact Hdata].
Defined.

(** C7 fails as stated: [results] is the first candidate present, but it
    holds a string; the page's results are those of [data]. *)
Lemma page_results_skips_present_field :
  let response := list_to_map [("results", VStr "none"); ("data", nums [1; 2])] in
  first_present response possibleFields = Some (VStr "none")
  /\ page_results (VObj response) = Some [VNum 1; VNum 2]
  /\ response !! "data" = Some (VArr [VNum 1; VNum 2]).
Proof. vm_compute. auto. Qed.

Lemma suiteql_loop_without_next_link_witness :
  truthy (prop (suiteql_page [1; 2] true [obj [("rel", VStr "self")]]) "hasMore") = true
  /\ lacks_next_link (suiteql_page [1; 2] true [obj [("rel", VStr "self")]]) = true
  /\ suiteql_loop 0 creds (VObj ∅)
       (suiteql_page [1; 2] true [obj [("rel", VStr "self")]]) (nums [1; 2])
       (world three_pages)
     = (Ok (suiteql_page [1; 2] true [obj [("rel", VStr "self")]], nums [1; 2]),
        world three_pages).
Proof.
  split; [reflexivity|]. split; [reflexivity|].
  exact (suiteql_loop_without_next_link (H := mock) 0 creds (VObj ∅)
           (suiteql_page [1; 2] true [obj [("rel", VStr "self")]]) (nums [1; 2])
           (world three_pages) eq_refl eq_refl).
Defined.

Lemma record_requires_id_witness :
  operation (record_op "patch" "") ∈ idOperations
  /\ recordId (record_op "patch" "") = ""
  /\ process_item 5 "record" creds {| binary := None |} (record_op "patch" "") 0
       (world [obj [("body", VObj ∅)]])
     = (Throw (NodeOperationError "Record ID is required for this operation."),
        world [obj [("body", VObj ∅)]]).
Proof.
  assert (Hop : operation (record_op "patch" "") ∈ idOperations)
    by (cbn; unfold idOperations; set_solver).
  split; [exact Hop|]. split; [reflexivity|].
  exact (record_requires_id (H := mock) 5 creds {| binary := None |} (record_op "patch" "") 0
           _ Hop eq_refl).
Defined.

(** C10 fails as stated: the first page's next link points at another
    host, and the follow-up request of the SuiteQL run goes there, not to
    [companyUrl]. *)
Lemma suiteql_follow_up_leaves_companyUrl :
  let run := suiteql 5 creds all_pages 0 (world foreign_pages) in
  run.1 = Ok tt
  /\ request_urls run
     = [VStr "https://1234567.suitetalk.api.netsuite.com/services/rest/query/v1/suiteql";
        VStr "https://elsewhere.example.com/services/rest/query/v1/suiteql?limit=2&offset=2"]
  /\ ~ Forall (url_on_host (companyUrl creds)) (request_urls run).
Proof.
  vm_compute. repeat split; trivial.
  intros Hall. inversion Hall as [|? ? _ Hrest]; subst.
  inversion Hrest as [|? ? [rest Hurl] _]; subst. discriminate.
Qed.

Lemma request_hosts_witness :
  exists out w' new,
    process_item 5 "restlet" creds {| binary := None |}
      (record_op "call" "") 0 (world [results_page [1]]) = (out, w')
    /\ calls w' = calls (world [results_page [1]]) ++ new
    /\ length new = 1%nat
    /\ Forall (fun call => url_on_host "1234567.suitetalk.api.netsuite.com" (url call.1)) new.
Proof.
  eexists _, _.
  destruct (request_hosts (H := mock) 5 "restlet" creds {| binary := None |} (record_op "call" "") 0
              (world [results_page [1]]) _ _ (surjective_pairing _))
    as (new & Hcalls & Hrestlet & _).
  exists new. split; [apply surjective_pairing|]. split; [exact Hcalls|].
  split.
  - cbn [world initial calls app] in Hcalls. rewrite <- Hcalls. reflexivity.
  - exact (Hrestlet eq_refl).
Defined.

Lemma suiteql_single_page_witness :
  exists out w',
    returnAll first_page_only = false
    /\ suiteql 5 creds first_page_only 0 (world three_pages) = (out, w')
    /\ map snd (calls w')
       = map snd (calls (world three_pages))
           ++ [inr (suiteql_page [1; 2] true [next_link (suiteql_url 2)])]
    /\ well_formed_page (suiteql_page [1; 2] true [next_link (suiteql_url 2)]) = true
    /\ out = Ok tt
    /\ map out_json (returnData w')
       = [obj [("items", nums [1; 2]); ("count", VNum 2); ("hasMore", VBool false);
               ("links", VArr [next_link (suiteql_url 2)]); ("offset", VNum 0)]].
Proof.
  eexists _, _.
  assert (Hrun : suiteql 5 creds first_page_only 0 (world three_pages)
                 = ((suiteql 5 creds first_page_only 0 (world three_pages)).1,
                    (suiteql 5 creds first_page_only 0 (world three_pages)).2))
    by apply surjective_pairing.
  assert (Htrace : map snd (calls (suiteql 5 creds first_page_only 0
                                     (world three_pages)).2)
                   = map snd (calls (world three_pages))
                       ++ [inr (suiteql_page [1; 2] true [next_link (suiteql_url 2)])])
    by (vm_compute; reflexivity).
  destruct (suiteql_single_page (H := mock) 5 creds first_page_only 0 _ _ _ _ _
              eq_refl Hrun Htrace eq_refl) as (Hout & _ & Hdata).
  split; [reflexivity|]. split; [exact Hrun|]. split; [exact Htrace|].
  split; [reflexivity|]. split; [exact Hout|]. rewrite Hdata. vm_compute. reflexivity.
Defined.

Lemma record_transform_request_witness :
  exists out w' options reply,
    operation (record_op "transform" "42") = "transform"
    /\ recordId (record_op "transform" "42") <> ""
    /\ record creds (record_op "transform" "42") 0
         (world [obj [("body", obj [("id", VStr "77")])]]) = (out, w')
    /\ calls w' = [(options, reply)]
    /\ method options = VStr "POST"
    /\ url options
       = VStr "https://1234567.suitetalk.api.netsuite.com/services/rest/record/v1/salesOrder/42/!transform/invoice".
Proof.
  assert (Hid : recordId (record_op "transform" "42") <> "") by discriminate.
  eexists _, _.
  destruct (record_transform_request (H := mock) creds (record_op "transform" "42") 0
              (world [obj [("body", obj [("id", VStr "77")])]]) _ _
              eq_refl Hid (surjective_pairing _))
    as (options & reply & Hcalls & Hmethod & Hurl).
  exists options, reply.
  split; [reflexivity|]. split; [exact Hid|]. split; [apply surjective_pairing|].
  split; [exact Hcalls|]. split; [exact Hmethod|exact Hurl].
Defined.

Lemma execute_requires_id_witness :
  operation (record_op "patch" "") ∈ idOperations
  /\ recordId (record_op "patch" "") = ""
  /\ execute 5 "record" creds false [({| binary := None |}, record_op "patch" "")]
       (server [obj [("body", VObj ∅)]])
     = (Throw (NodeOperationError "Record ID is required for this operation."),
        world [obj [("body", VObj ∅)]]).
Proof.
  assert (Hop : operation (record_op "patch" "") ∈ idOperations)
    by (cbn; unfold idOperations; set_solver).
  split; [exact Hop|]. split; [reflexivity|].
  exact (proj1 (execute_requires_id (H := mock) 5 creds {| binary := None |}
                  (record_op "patch" "") (server [obj [("body", VObj ∅)]]) Hop eq_refl)).
Defined.

Lemma restlet_loop_scripted_witness :
  0 < pageSize all_pages
  /\ exact 0 = true
  /\ exact (0 + 3 * pageSize all_pages) = true
  /\ page_results (results_page [1; 2; 3]) = Some (map VNum [1; 2; 3])
  /\ page_results (results_page [7]) = Some [VNum 7]
  /\ exists sent w',
       restlet_loop 3 creds all_pages 0 (restletBody all_pages) [] (VNum 0)
         (world offset_pages)
       = (Ok (map VNum [1; 2; 3; 4; 5; 6; 7]), w')
       /\ calls w' = sent
       /\ map snd sent
          = map inr [results_page [1; 2; 3]; results_page [4; 5; 6]; results_page [7]]
       /\ map (fun call => body call.1) sent
          = map (fun k =>
                   VObj (<["end" := VNum (Z.of_nat k * 3 + 3)]>
                           (<["start" := VNum (Z.of_nat k * 3)]>
                              (spread (restletBody all_pages)))))
                [0; 1; 2]%nat
       /\ returnData w' = []
       /\ pending (world_env w') = [inr (results_page [8])].
Proof.
  split; [reflexivity|]. split; [reflexivity|]. split; [reflexivity|].
  split; [reflexivity|]. split; [reflexivity|].
  exact (restlet_loop_scripted creds all_pages 0 (restletBody all_pages)
           [results_page [1; 2; 3]; results_page [4; 5; 6]] (results_page [7])
           [inr (results_page [8])] [] 0 (world offset_pages)
           eq_refl eq_refl eq_refl eq_refl eq_refl eq_refl).
Defined.

Lemma suiteql_scripted_witness :
  returnAll all_pages = true
  /\ chain (suiteql_page [1; 2] true [next_link (suiteql_url 2)])
           [suiteql_page [3; 4] true [next_link (suiteql_url 4)];
            suiteql_page [5] false []] = true
  /\ exists sent w',
       suiteql 2 creds all_pages 0 (world three_pages) = (Ok tt, w')
       /\ calls w' = sent
       /\ map snd sent = map inr three_pages
       /\ map (fun call => url call.1) sent
          = [VStr "https://1234567.suitetalk.api.netsuite.com/services/rest/query/v1/suiteql";
             VStr (suiteql_url 2); VStr (suiteql_url 4)]
       /\ map out_json (returnData w')
          = [obj [("items", nums [1; 2; 3; 4; 5]); ("count", VNum 5);
                  ("hasMore", VBool false); ("links", VArr []); ("offset", VNum 0)]]
       /\ pending (world_env w') = [].
Proof.
  split; [reflexivity|]. split; [reflexivity|].
  destruct (suiteql_scripted creds all_pages 0
              (suiteql_page [1; 2] true [next_link (suiteql_url 2)])
              [suiteql_page [3; 4] true [next_link (suiteql_url 4)];
               suiteql_page [5] false []]
              [] (world three_pages) eq_refl eq_refl eq_refl eq_refl)
    as (sent & w' & Hrun & Hcalls & Hreplies & Hurls & Hret & Hpend).
  exists sent, w'. rewrite Hret. repeat split; trivial.
Defined.

Lemma process_item_emits_witness :
  let run := process_item 5 "suiteql" creds {| binary := None |} all_pages 0
               (world [suiteql_page [1; 2] true [next_link (suiteql_url 2)]]) in
  run.1 = Throw (HostError "socket hang up")
  /\ length (calls run.2) = 2%nat
  /\ exists new,
       returnData run.2 = [] ++ new
       /\ Forall (fun d => pairedItem d = 0%nat) new
       /\ (forall e, run.1 = Throw e -> new = []).
Proof.
  split; [vm_compute; reflexivity|]. split; [vm_compute; reflexivity|].
  exact (process_item_emits (H := mock) 5 "suiteql" creds {| binary := None |}
           all_pages 0
           (world [suiteql_page [1; 2] true [next_link (suiteql_url 2)]]) _ _
           (surjective_pairing _)).
Defined.

Lemma execute_output_grouped_witness :
  let run := execute 5 "record" creds true
               [({| binary := None |}, record_op "patch" "");
                ({| binary := None |}, record_op "get" "42")]
               (server [obj [("body", obj [("id", VStr "42")])]]) in
  run.1 = Ok [[{| out_json := obj [("error", VStr "Record ID is required for this operation.")];
                  pairedItem := 0 |};
               {| out_json := obj [("id", VStr "42")]; pairedItem := 1 |}]]
  /\ exists groups,
       returnData run.2 = concat groups
       /\ (length groups <= 2)%nat
       /\ (forall k g, groups !! k = Some g -> Forall (fun d => pairedItem d = k) g)
       /\ (forall branches, run.1 = Ok branches ->
             branches = [returnData run.2] /\ length groups = 2%nat).
Proof.
  split; [vm_compute; reflexivity|].
  exact (execute_output_grouped (H := mock) 5 "record" creds true
           [({| binary := None |}, record_op "patch" "");
            ({| binary := None |}, record_op "get" "42")]
           (server [obj [("body", obj [("id", VStr "42")])]]) _ _
           (surjective_pairing _)).
Defined.

Lemma execute_items_failure_witness :
  let before := [({| binary := None |}, record_op "patch" "")] in
  let after := [({| binary := None |}, record_op "get" "43")] in
  let required := NodeOperationError "Record ID is required for this operation." in
  let w := world [obj [("body", obj [("id", VStr "43")])]] in
  let w1 := {| world_env := world_env w; calls := [];
               returnData := [error_record required 0] |} in
  execute_items 5 "record" creds true before 0 w = (Ok tt, w1)
  /\ process_item 5 "record" creds {| binary := None |} (record_op "update" "") 1 w1
     = (Throw required, w1)
  /\ execute_items 5 "record" creds true
       (before ++ ({| binary := None |}, record_op "update" "") :: after) 0 w
     = execute_items 5 "record" creds true after 2
         {| world_env := world_env w; calls := [];
            returnData := [error_record required 0; error_record required 1] |}.
Proof.
  cbv zeta. split; [reflexivity|]. split; [reflexivity|].
  exact (execute_items_failure (H := mock) 5 "record" creds true
           [({| binary := None |}, record_op "patch" "")]
           [({| binary := None |}, record_op "get" "43")]
           {| binary := None |} (record_op "update" "")
           (world [obj [("body", obj [("id", VStr "43")])]]) _ _ _
           eq_refl eq_refl).
Defined.

Lemma execute_unsupported_resource_witness :
  ("folder" ∉ ["suiteql"; "record"; "restlet"])
  /\ execute 5 "folder" creds true
       [({| binary := None |}, defaults); ({| binary := None |}, defaults)]
       (server [])
     = (Ok [[{| out_json := obj [("error", VStr ("The resource " +:+ dquote +:+ "folder" +:+ dquote +:+ " is not supported."))];
                pairedItem := 0 |};
             {| out_json := obj [("error", VStr ("The resource " +:+ dquote +:+ "folder" +:+ dquote +:+ " is not supported."))];
                pairedItem := 1 |}]],
        {| world_env := server []; calls := [];
           returnData :=
             [{| out_json := obj [("error", VStr ("The resource " +:+ dquote +:+ "folder" +:+ dquote +:+ " is not supported."))];
                 pairedItem := 0 |};
              {| out_json := obj [("error", VStr ("The resource " +:+ dquote +:+ "folder" +:+ dquote +:+ " is not supported."))];
                 pairedItem := 1 |}] |}).
Proof.
  assert (Hr : "folder" ∉ ["suiteql"; "record"; "restlet"])
    by (apply (bool_decide_unpack _); vm_compute; exact I).
  split; [exact Hr|].
  exact (execute_unsupported_resource (H := mock) 5 "folder" creds true
           [({| binary := None |}, defaults); ({| binary := None |}, defaults)]
           (server []) Hr).
Defined.

Lemma extension_spec_witness :
  occurs "." "PDF" = false
  /\ extension "PDF" = "pdf"
  /\ extension ("Q3.Report" +:+ "." +:+ "PDF") = "pdf".
Proof.
  split; [reflexivity|].
  destruct (extension_spec "PDF" eq_refl) as [Hwhole Hlast].
  split; [exact Hwhole|exact (Hlast "Q3.Report")].
Defined.

Lemma record_request_witness :
  let run := record creds (record_op "get" "42") 0
               (world [obj [("body", obj [("id", VStr "42")])]]) in
  (operation (record_op "get" "42"), "GET")
    ∈ [("get", "GET"); ("create", "POST"); ("update", "PUT");
       ("patch", "PATCH"); ("post", "POST")]
  /\ exists authHeader options reply,
       calls run.2 = [] ++ [(options, reply)]
       /\ method options = VStr "GET"
       /\ url options
          = VStr "https://1234567.suitetalk.api.netsuite.com/services/rest/record/v1/salesOrder/42"
       /\ body options = VUndef
       /\ headers options = [("Authorization", authHeader);
                             ("Content-Type", "application/json");
                             ("Prefer", "transient")]
       /\ qs options = [] /\ json options = true
       /\ resolveWithFullResponse options = true.
Proof.
  cbv zeta.
  assert (Hop : (operation (record_op "get" "42"), "GET")
                  ∈ [("get", "GET"); ("create", "POST"); ("update", "PUT");
                     ("patch", "PATCH"); ("post", "POST")])
    by (apply (bool_decide_unpack _); vm_compute; exact I).
  split; [exact Hop|].
  exact (record_request (H := mock) creds (record_op "get" "42") 0
           (world [obj [("body", obj [("id", VStr "42")])]]) _ _ "GET" Hop
           (or_intror (fun E : recordId (record_op "get" "42") = "" =>
                         eq_ind "42" (fun s => if String.eqb s "" then False else True)
                                I "" E))
           (surjective_pairing _)).
Defined.

Lemma record_create_id_witness :
  let location :=
    "https://1234567.suitetalk.api.netsuite.com/services/rest/record/v1/salesOrder"
      +:+ "/" +:+ "12345" in
  let response := obj [("headers", obj [("location", VStr location)])] in
  let run := record creds (record_op "create" "") 0 (world [response]) in
  exists options,
    calls run.2 = [] ++ [(options, inr response)]
    /\ occurs "/" "12345" = false
    /\ run.1 = Ok tt
    /\ returnData run.2
       = [] ++ [{| out_json := obj [("id", VStr "12345"); ("location", VStr location)];
                   pairedItem := 0 |}].
Proof.
  cbv zeta.
  assert (Hcalls :
    exists options,
      calls (record creds (record_op "create" "") 0
               (world [obj [("headers",
                  obj [("location",
                        VStr ("https://1234567.suitetalk.api.netsuite.com/services/rest/record/v1/salesOrder"
                                +:+ "/" +:+ "12345"))])]])).2
      = [] ++ [(options,
                inr (obj [("headers",
                  obj [("location",
                        VStr ("https://1234567.suitetalk.api.netsuite.com/services/rest/record/v1/salesOrder"
                                +:+ "/" +:+ "12345"))])]))])
    by (eexists; vm_compute; reflexivity).
  destruct Hcalls as [options Hcalls]. exists options.
  split; [exact Hcalls|]. split; [reflexivity|].
  exact (record_create_id (H := mock) creds (record_op "create" "") 0 _ _ _ options
           (list_to_map [("headers", obj [("location",
              VStr ("https://1234567.suitetalk.api.netsuite.com/services/rest/record/v1/salesOrder"
                      +:+ "/" +:+ "12345"))])])
           (list_to_map [("location",
              VStr ("https://1234567.suitetalk.api.netsuite.com/services/rest/record/v1/salesOrder"
                      +:+ "/" +:+ "12345"))])
           "https://1234567.suitetalk.api.netsuite.com/services/rest/record/v1/salesOrder"
           "12345" eq_refl (surjective_pairing _) Hcalls eq_refl eq_refl
           (fun E : "12345" = "" =>
              eq_ind "12345" (fun s => if String.eqb s "" then False else True) I "" E)
           eq_refl).
Defined.

Lemma record_emits_body_witness :
  let response := obj [("statusCode", VNum 204)] in
  let run := record creds (record_op "patch" "42") 0 (world [response]) in
  exists options,
    calls run.2 = [] ++ [(options, inr response)]
    /\ run.1 = Ok tt
    /\ returnData run.2 = [] ++ [{| out_json := VObj ∅; pairedItem := 0 |}].
Proof.
  cbv zeta.
  assert (Hcalls :
    exists options,
      calls (record creds (record_op "patch" "42") 0
               (world [obj [("statusCode", VNum 204)]])).2
      = [] ++ [(options, inr (obj [("statusCode", VNum 204)]))])
    by (eexists; vm_compute; reflexivity).
  destruct Hcalls as [options Hcalls]. exists options. split; [exact Hcalls|].
  exact (record_emits_body (H := mock) creds (record_op "patch" "42") 0 _ _ _ options
           (list_to_map [("statusCode", VNum 204)])
           (or_introl (fun E : recordId (record_op "patch" "42") = "" =>
              eq_ind "42" (fun s => if String.eqb s "" then False else True) I "" E))
           (or_introl (fun E : operation (record_op "patch" "42") = "create" =>
              eq_ind "patch" (fun s => if String.eqb s "create" then False else True)
                     I "create" E))
           (surjective_pairing _) Hcalls).
Defined.

Lemma uploadFile_rejects_witness :
  fileType (extension (fileName (upload_of "notes.TXT"))) = None
  /\ uploadFile creds {| binary := Some {["data" := obj []]} |} (upload_of "notes.TXT") 0
       (world [])
     = (Throw (NodeOperationError
                 "Unsupported file type: .txt. Only PDF, Excel, and CSV files are supported."),
        world [])
  /\ uploadFile creds {| binary := None |} (upload_of "Report.PDF") 3 (world [])
     = (Throw (NodeOperationError
                 "No binary data found on item 3. The node expects an incoming file."),
        world []).
Proof.
  split; [reflexivity|]. split.
  - exact (uploadFile_rejects (H := mock) creds {| binary := Some {["data" := obj []]} |}
             (upload_of "notes.TXT") 0 (world []) (or_intror eq_refl)).
  - exact (uploadFile_rejects (H := mock) creds {| binary := None |}
             (upload_of "Report.PDF") 3 (world []) (or_introl eq_refl)).
Defined.

Lemma uploadFile_request_witness :
  let item := {| binary := Some {["data" := obj [("fileName", VStr "Report.PDF")]]} |} in
  let w := initial {| pending := [inr (obj [("success", VBool true)])];
                      clock := 1700000000000; counter := 0;
                      file := [37; 80; 68; 70] |} in
  let run := uploadFile creds item (upload_of "Report.PDF") 0 w in
  truthy (binary_data item) = true
  /\ fileType (extension (fileName (upload_of "Report.PDF"))) = Some "PDF"
  /\ exists authHeader options reply,
       calls run.2 = [] ++ [(options, reply)]
       /\ method options = VStr "POST"
       /\ url options
          = VStr "https://1234567.suitetalk.api.netsuite.com/app/site/hosting/restlet.nl"
       /\ qs options = [("script", "123"); ("deploy", "1")]
       /\ body options
          = obj [("postType", VStr "uploadFile"); ("folderId", VStr "456");
                 ("name", VStr "Report.PDF"); ("base64Content", VStr "JVBERg==");
                 ("fileType", VStr "PDF")]
       /\ headers options = [("Authorization", authHeader);
                             ("Content-Type", "application/json")]
       /\ json options = true
       /\ match reply with
          | inl e => run.1 = Throw e /\ returnData run.2 = []
          | inr response =>
              run.1 = Ok tt
              /\ returnData run.2
                 = [] ++ [{| out_json := response; pairedItem := 0 |}]
          end.
Proof.
  cbv zeta. split; [reflexivity|]. split; [reflexivity|].
  exact (uploadFile_request (H := mock) creds
           {| binary := Some {["data" := obj [("fileName", VStr "Report.PDF")]]} |}
           (upload_of "Report.PDF") 0
           (initial {| pending := [inr (obj [("success", VBool true)])];
                       clock := 1700000000000; counter := 0;
                       file := [37; 80; 68; 70] |})
           _ _ "PDF" eq_refl eq_refl (surjective_pairing _)).
Defined.

Lemma restlet_loop_windows_witness :
  let run := restlet_loop 5 creds all_pages 0 (restletBody all_pages) [] (VNum 0)
               (world offset_pages) in
  length (calls run.2) = 3%nat
  /\ exact 0 = true
  /\ exact (0 + 5 * pageSize all_pages) = true
  /\ exists sent,
       calls run.2 = [] ++ sent
       /\ (length sent <= 5)%nat
       /\ map (fun call => (method call.1, url call.1, body call.1)) sent
          = map (fun k =>
                   (VStr "POST", VStr (restletUrl creds all_pages),
                    VObj (<[endIndexField all_pages := VNum (0 + Z.of_nat k * 3 + 3)]>
                            (<[startIndexField all_pages := VNum (0 + Z.of_nat k * 3)]>
                               (spread (restletBody all_pages))))))
                (seq 0 (length sent)).
Proof.
  split; [vm_compute; reflexivity|]. split; [reflexivity|]. split; [reflexivity|].
  exact (restlet_loop_windows (H := mock) 5 creds all_pages 0 (restletBody all_pages)
           [] 0 (world offset_pages) _ _ eq_refl eq_refl (surjective_pairing _)).
Defined.

Lemma restlet_call_output_witness :
  let run := restlet_call 5 creds all_pages 0 (world offset_pages) in
  run.1 = Ok tt
  /\ map out_json (returnData run.2)
     = [obj [("results", nums [1; 2; 3; 4; 5; 6; 7]); ("total", VNum 7)]]
  /\ exists sent pages,
       calls run.2 = [] ++ sent
       /\ map snd sent = map inr pages
       /\ pages <> []
       /\ let results :=
            concat (map (fun page => default [] (page_results page)) pages) in
          returnData run.2
          = [] ++ raw_push 0 pages
               ++ (if bool_decide (results = []) then []
                   else [{| out_json :=
                              VObj (<["total" := VNum (Z.of_nat (length results))]>
                                      (<[outputFieldName all_pages := VArr results]> ∅));
                            pairedItem := 0 |}]).
Proof.
  cbv zeta.
  assert (Hrun : (restlet_call 5 creds all_pages 0 (world offset_pages)).1 = Ok tt)
    by (vm_compute; reflexivity).
  split; [exact Hrun|]. split; [vm_compute; reflexivity|].
  exact (restlet_call_output (H := mock) 5 creds all_pages 0 (world offset_pages) _
           eq_refl (run_eta _ _ Hrun)).
Defined.


Lemma signed_text_injective_witness :
  occurs "&" "POST" = false
  /\ signingKey creds = "cs&ts"
  /\ consumerSecret creds = consumerSecret creds /\ tokenSecret creds = tokenSecret creds
  /\ "POST" = "POST" /\ restlet_base = restlet_base
  /\ merged_params creds "1700000000" "00" versioned_script
     = merged_params creds "1700000000" "00" versioned_script.
Proof.
  split; [reflexivity|]. split; [reflexivity|].
  exact (signed_text_injective creds creds "POST" "POST" restlet_base restlet_base
           (merged_params creds "1700000000" "00" versioned_script)
           (merged_params creds "1700000000" "00" versioned_script)
           eq_refl eq_refl eq_refl eq_refl).
Defined.

Lemma suiteql_no_request_bound_witness :
  let page := suiteql_page [1; 2] true [next_link (suiteql_url 2)] in
  is_Some (next_href page)
  /\ exists w',
       suiteql 3 creds all_pages 0 (world [page; page; page; page]) = (OutOfFuel, w')
       /\ length (calls w') = (0 + 4)%nat
       /\ returnData w' = [].
Proof.
  cbv zeta.
  assert (Hnext : is_Some (next_href (suiteql_page [1; 2] true [next_link (suiteql_url 2)])))
    by (eexists; reflexivity).
  split; [exact Hnext|].
  exact (suiteql_no_request_bound 3 creds all_pages 0
           (suiteql_page [1; 2] true [next_link (suiteql_url 2)]) []
           (world [suiteql_page [1; 2] true [next_link (suiteql_url 2)];
                   suiteql_page [1; 2] true [next_link (suiteql_url 2)];
                   suiteql_page [1; 2] true [next_link (suiteql_url 2)];
                   suiteql_page [1; 2] true [next_link (suiteql_url 2)]])
           eq_refl eq_refl Hnext eq_refl).
Defined.

Lemma restlet_no_request_bound_witness :
  let page := results_page [1; 2; 3] in
  0 < pageSize all_pages
  /\ page_results page = Some (map VNum [1; 2; 3])
  /\ exists w',
       restlet_loop 2 creds all_pages 0 (restletBody all_pages) [] (VNum 0)
         (world [page; page; page]) = (OutOfFuel, w')
       /\ length (calls w') = (0 + 2)%nat
       /\ returnData w' = [].
Proof.
  cbv zeta. split; [reflexivity|]. split; [reflexivity|].
  exact (restlet_no_request_bound 2 creds all_pages 0 (restletBody all_pages)
           (results_page [1; 2; 3]) (map VNum [1; 2; 3]) [inr (results_page [1; 2; 3])]
           [] (VNum 0)
           (world [results_page [1; 2; 3]; results_page [1; 2; 3]; results_page [1; 2; 3]])
           eq_refl eq_refl ltac:(vm_compute; discriminate) eq_refl).
Defined.


Lemma process_item_requests_witness :
  let run := process_item 5 "suiteql" creds {| binary := None |} all_pages 0
               (world three_pages) in
  length (calls run.2) = 3%nat
  /\ exists sent,
       calls run.2 = [] ++ sent
       /\ (length sent <= 6)%nat
       /\ Forall (fun call =>
                    json call.1 = true
                    /\ (exists authHeader later,
                          headers call.1
                          = ("Authorization", authHeader)
                              :: ("Content-Type", "application/json") :: later)
                    /\ ("suiteql" <> "record" -> method call.1 = VStr "POST"))
                 sent.
Proof.
  split; [vm_compute; reflexivity|].
  exact (process_item_requests (H := mock) 5 "suiteql" creds {| binary := None |}
           all_pages 0 (world three_pages) _ _ (surjective_pairing _)).
Defined.

Lemma restlet_call_single_witness :
  let run := restlet_call 5 creds versioned_call 0
               (world [nums [1; 2; 3]]) in
  exists authHeader reply,
    calls run.2
    = [] ++ [({| headers := [("Authorization", authHeader);
                             ("Content-Type", "application/json")];
                 method := VStr "POST";
                 body := restletBody defaults;
                 url := VStr "https://1234567.suitetalk.api.netsuite.com/app/site/hosting/restlet.nl?script=customscript_sync(v2)&deploy=1";
                 qs := [];
                 json := true;
                 resolveWithFullResponse := false |}, reply)]
    /\ match reply with
       | inl e => run.1 = Throw e /\ returnData run.2 = []
       | inr response =>
           run.1 = Ok tt
           /\ returnData run.2 = [] ++ [{| out_json := response; pairedItem := 0 |}]
       end.
Proof.
  exact (restlet_call_single (H := mock) 5 creds versioned_call 0
           (world [nums [1; 2; 3]]) _ _ (restletBody defaults)
           eq_refl eq_refl (surjective_pairing _)).
Defined.

Lemma restlet_call_stops_witness :
  let run := restlet_call 5 creds all_pages 0 (world offset_pages) in
  run.1 = Ok tt
  /\ full_page all_pages (results_page [1; 2; 3]) = true
  /\ full_page all_pages (results_page [7]) = false
  /\ exists sent before final,
       calls run.2 = [] ++ sent
       /\ map snd sent = map inr (before ++ [final])
       /\ forallb (full_page all_pages) before = true
       /\ full_page all_pages final = false.
Proof.
  cbv zeta.
  assert (Hrun : (restlet_call 5 creds all_pages 0 (world offset_pages)).1 = Ok tt)
    by (vm_compute; reflexivity).
  split; [exact Hrun|]. split; [reflexivity|]. split; [reflexivity|].
  exact (restlet_call_stops (H := mock) 5 creds all_pages 0 (world offset_pages) _
           eq_refl (run_eta _ _ Hrun)).
Defined.

Lemma suiteql_stops_witness :
  let run := suiteql 5 creds all_pages 0 (world three_pages) in
  run.1 = Ok tt
  /\ map announces_next three_pages = [true; true; false]
  /\ exists sent before final,
       calls run.2 = [] ++ sent
       /\ map snd sent = map inr (before ++ [final])
       /\ forallb announces_next before = true
       /\ announces_next final = false.
Proof.
  cbv zeta.
  assert (Hrun : (suiteql 5 creds all_pages 0 (world three_pages)).1 = Ok tt)
    by (vm_compute; reflexivity).
  split; [exact Hrun|]. split; [reflexivity|].
  exact (suiteql_stops (H := mock) 5 creds all_pages 0 (world three_pages) _
           eq_refl (run_eta _ _ Hrun)).
Defined.
